(** * OpenManus_UIToCode: the agent think/act loop and the planning orchestrator

    A shallow embedding of [app/agent/react.py], [app/agent/toolcall.py],
    [app/flow/base.py], [app/flow/planning.py] and the [ToolResult] class of
    [app/tool/base.py], and, around them, of the construction of a flow
    ([app/flow/flow_factory.py] and the two [__init__] methods), the command
    line of [app/main.py], the two agents that override the think/act loop
    ([app/agent/pipeline_agent.py] with its prompt of [app/prompt/pipeline.py],
    and [app/agent/planning.py]) and the engine fallback of
    [app/tool/web_search.py].

    Python values are modelled as follows.
    - [str] is [string], read as the UTF-8 bytes of the text, so a literal
      outside ASCII is written as its byte sequence. [len] and slices count
      characters (code points: the bytes that start a UTF-8 sequence);
      searches, splits and comparisons match byte sequences. [str.lower] on a
      text of any characters is an operation of the environment, of which
      nothing is assumed.
    - a [list] is a [list]; a [dict] keyed by plan id is a [gmap string _];
      a [dict] whose order of keys is read is an association list; a [dict]
      read through [.get(key, default)] is a record of options ([None] is an
      absent key).
    - an exception is a value of [PyExc] (a subclass of [Exception]; what
      [except Exception] does not catch is not modelled); code that can raise
      runs in the monad [M], whose state survives a raise, as Python's does.
    - everything the code awaits from outside (the language model, the tools,
      the plan store, the executor agents, the search engines, [json.loads])
      is an operation of an environment record over an abstract [World], which
      may answer or raise.
    - a method that a subclass overrides is modelled over a record that holds
      the base agent in its [base] field; the inherited methods run on that
      field, and an inherited method that calls an overridden one is stated
      again with the override in place.
    - logging and the waiting between retries are left out.

    The definitions come first: the Python helpers, the flow
    ([PlanningFlow]), the agent ([ToolCallAgent]), the code around them
    ([ToolResults], [FlowSetup], [Main], [PipelineAgent], [PlanningAgent],
    [PlanTextSpec], [WebSearch]), concrete collaborators to run them with
    ([Demo], [AgentDemo], [PipelineDemo], [PlannerDemo]) and the
    specification-side readings ([FlowSpec], [AgentSpec], [WebSearchSpec]).
    The facts follow, one module of facts for each module of definitions. *)

From Stdlib Require Import String Ascii ZArith DecimalString DecimalNat.
From stdpp Require Import base option gmap strings list.


(** ** Python exceptions *)

Inductive ExcClass : Type :=
  | ValueError
  | JSONDecodeError        (* a subclass of ValueError *)
  | RuntimeError
  | IndexError
  | TypeError
  | AttributeError
  | TokenLimitExceeded
  | OtherException.

(** An exception object: its class, [str(e)] and the class and text of
    [e.__cause__], when it has one. *)
Record PyExc : Type := mkExc {
  exc_class : ExcClass;
  exc_str : string;
  exc_cause : option (ExcClass * string)
}.

Definition new_exc (c : ExcClass) (msg : string) : PyExc :=
  {| exc_class := c; exc_str := msg; exc_cause := None |}.

(** [isinstance(e, ValueError)]. *)
Definition is_ValueError (e : PyExc) : bool :=
  match exc_class e with
  | ValueError | JSONDecodeError => true
  | _ => false
  end.

(** [isinstance(e, json.JSONDecodeError)]. *)
Definition is_JSONDecodeError (e : PyExc) : bool :=
  match exc_class e with
  | JSONDecodeError => true
  | _ => false
  end.

(** [hasattr(e, "__cause__") and isinstance(e.__cause__, TokenLimitExceeded)],
    with the cause's text. *)
Definition token_limit_cause (e : PyExc) : option string :=
  match exc_cause e with
  | Some (TokenLimitExceeded, msg) => Some msg
  | _ => None
  end.

(** ** The state-and-exception monad *)

Inductive Result (A : Type) : Type :=
  | Return (a : A)
  | Raise (e : PyExc).
Arguments Return {A} a.
Arguments Raise {A} e.

Definition M (S A : Type) : Type := S → Result A * S.

Section Monad.
Context {S : Type}.

Definition ret {A} (a : A) : M S A := λ s, (Return a, s).

Definition bind {A B} (m : M S A) (k : A → M S B) : M S B :=
  λ s, match m s with
       | (Return a, s') => k a s'
       | (Raise e, s') => (Raise e, s')
       end.

Definition raise {A} (e : PyExc) : M S A := λ s, (Raise e, s).

(** [try: m  except Exception as e: h e]. *)
Definition try_except {A} (m : M S A) (h : PyExc → M S A) : M S A :=
  λ s, match m s with
       | (Return a, s') => (Return a, s')
       | (Raise e, s') => h e s'
       end.

Definition get_state : M S S := λ s, (Return s, s).
Definition put_state (s : S) : M S unit := λ _, (Return tt, s).
Definition gets {A} (f : S → A) : M S A := λ s, (Return (f s), s).
Definition modify (f : S → S) : M S unit := λ s, (Return tt, f s).
End Monad.

#[global] Instance M_ret {S} : MRet (M S) := λ A, @ret S A.
#[global] Instance M_bind {S} : MBind (M S) := λ A B k m, @bind S A B m k.

(** ** Python string helpers *)

Definition is_upper (c : ascii) : bool :=
  let n := nat_of_ascii c in (65 <=? n)%nat && (n <=? 90)%nat.

(** [c.lower()] on one character (ASCII letters only). *)
Definition lower_ascii (c : ascii) : ascii :=
  if is_upper c then ascii_of_nat (nat_of_ascii c + 32) else c.

(** [s.lower()] for a text of ASCII characters: the letters A to Z are
    folded. The flow applies it to step tags, runs of capitals and
    underscores, where it is what [str.lower] gives; where the code lowers a
    text of any characters, [str.lower] is an operation of the environment
    ([str_lower]). *)
Fixpoint lower (s : string) : string :=
  match s with
  | EmptyString => EmptyString
  | String c s' => String (lower_ascii c) (lower s')
  end.

(** [str(n)] for a natural number. *)
Definition str_of_nat (n : nat) : string :=
  NilEmpty.string_of_uint (Nat.to_uint n).

(** [bool(s)] for a string. *)
Definition truthy (s : string) : bool :=
  match s with EmptyString => false | _ => true end.

(** [bool(o)] for an optional string ([None] and [""] are falsy). *)
Definition truthy_opt (o : option string) : bool :=
  match o with Some s => truthy s | None => false end.

(** [o or d]. *)
Definition or_default (o : option string) (d : string) : string :=
  match o with
  | Some s => if truthy s then s else d
  | None => d
  end.

(** A byte that continues the UTF-8 sequence of a code point. *)
Definition is_continuation (c : ascii) : bool :=
  let n := nat_of_ascii c in (128 <=? n)%nat && (n <? 192)%nat.

(** [len(s)]: the characters (code points) of [s], one for each byte that
    starts a UTF-8 sequence. *)
Fixpoint char_length (s : string) : nat :=
  match s with
  | EmptyString => O
  | String c s' => if is_continuation c then char_length s' else S (char_length s')
  end.

(** [s[:n]] for a natural number [n]: the first [n] characters of [s], each
    with the bytes that continue it. *)
Fixpoint take_chars (n : nat) (s : string) : string :=
  match s with
  | EmptyString => EmptyString
  | String c s' =>
      if is_continuation c then String c (take_chars n s')
      else
        match n with
        | O => EmptyString
        | S n' => String c (take_chars n' s')
        end
  end.

(** [s[:m]] for an integer [m], negative ones counting from the end. *)
Definition slice_to (s : string) (m : Z) : string :=
  let n := Z.of_nat (char_length s) in
  let stop := if (m <? 0)%Z then Z.max 0 (n + m) else Z.min m n in
  take_chars (Z.to_nat stop) s.

(** [sep.join(l)]. *)
Definition join (sep : string) (l : list string) : string := String.concat sep l.

(** [c * n] for a one-character string. *)
Fixpoint repeat_char (c : ascii) (n : nat) : string :=
  match n with
  | O => EmptyString
  | S n' => String c (repeat_char c n')
  end.

(** [needle in s]. *)
Fixpoint starts_with (p s : string) : bool :=
  match p, s with
  | EmptyString, _ => true
  | String a p', String b s' => if Ascii.eqb a b then starts_with p' s' else false
  | String _ _, EmptyString => false
  end.

Fixpoint contains (needle s : string) : bool :=
  starts_with needle s ||
  match s with
  | EmptyString => false
  | String _ s' => contains needle s'
  end.

(** The double-quote character, as a one-character string. *)
Definition dquote : string := String (ascii_of_nat 34) EmptyString.

(** The newline character, as a one-character string. *)
Definition nl : string := String (ascii_of_nat 10) EmptyString.

(** [str(o)] for an optional index, as an f-string prints it. *)
Definition str_of_index (o : option nat) : string :=
  match o with Some n => str_of_nat n | None => "None" end.

(** ** The agent states

    Modelled from the spec: [AgentState] of [app/schema.py], which is not under
    [src/]; section 4.1 lists IDLE, RUNNING and FINISHED and says there is no
    separate error state. *)
Inductive AgentState : Type := IDLE | RUNNING | FINISHED.

#[global] Instance AgentState_eq_dec : EqDecision AgentState.
Proof. solve_decision. Defined.

(** ** More of Python's [str]

    The methods below read a string as the UTF-8 bytes of a Python [str]; a
    code point outside ASCII is matched by its byte sequence. *)

(** A whitespace character at the head of [s], dropped: the code points for
    which [str.isspace] holds, which are U+0009 to U+000D, U+001C to U+0020,
    U+0085, U+00A0, U+1680, U+2000 to U+200A, U+2028, U+2029, U+202F, U+205F
    and U+3000. *)
Definition skip_space (s : string) : option string :=
  match s with
  | EmptyString => None
  | String c1 r1 =>
      let n1 := nat_of_ascii c1 in
      if ((9 <=? n1) && (n1 <=? 13) || (28 <=? n1) && (n1 <=? 32))%nat then Some r1
      else
        match r1 with
        | EmptyString => None
        | String c2 r2 =>
            let n2 := nat_of_ascii c2 in
            if ((n1 =? 194) && ((n2 =? 133) || (n2 =? 160)))%nat then Some r2
            else
              match r2 with
              | EmptyString => None
              | String c3 r3 =>
                  let n3 := nat_of_ascii c3 in
                  if ((n1 =? 225) && (n2 =? 154) && (n3 =? 128)
                      || (n1 =? 226) && (n2 =? 128)
                         && ((128 <=? n3) && (n3 <=? 138)
                             || (n3 =? 168) || (n3 =? 169) || (n3 =? 175))
                      || (n1 =? 226) && (n2 =? 129) && (n3 =? 159)
                      || (n1 =? 227) && (n2 =? 128) && (n3 =? 128))%nat
                  then Some r3
                  else None
              end
        end
  end.

(** [s.lstrip()]: at most [fuel] whitespace characters are dropped, and
    [len(s)] is enough. *)
Fixpoint lstrip_upto (fuel : nat) (s : string) : string :=
  match fuel with
  | O => s
  | S fuel' =>
      match skip_space s with
      | Some rest => lstrip_upto fuel' rest
      | None => s
      end
  end.

Definition lstrip (s : string) : string := lstrip_upto (String.length s) s.

(** [s.isspace()] or [s == ""]. *)
Definition all_space (s : string) : bool := String.eqb (lstrip s) "".

(** [s.rstrip()]: [s] is cut where what is left is whitespace only. *)
Fixpoint rstrip (s : string) : string :=
  if all_space s then EmptyString
  else
    match s with
    | EmptyString => EmptyString
    | String c s' => String c (rstrip s')
    end.

(** [s.strip()]. *)
Definition strip (s : string) : string := rstrip (lstrip s).

(** A line boundary of [str.splitlines] at the head of [s], dropped: CR LF,
    LF, CR, VT, FF, FS, GS, RS, U+0085, U+2028 and U+2029. *)
Definition skip_line_break (s : string) : option string :=
  match s with
  | EmptyString => None
  | String c1 r1 =>
      let n1 := nat_of_ascii c1 in
      if (n1 =? 13)%nat
      then
        match r1 with
        | String c2 r2 => if (nat_of_ascii c2 =? 10)%nat then Some r2 else Some r1
        | EmptyString => Some r1
        end
      else if ((10 <=? n1) && (n1 <=? 12) || (28 <=? n1) && (n1 <=? 30))%nat then Some r1
      else
        match r1 with
        | EmptyString => None
        | String c2 r2 =>
            let n2 := nat_of_ascii c2 in
            if ((n1 =? 194) && (n2 =? 133))%nat then Some r2
            else
              match r2 with
              | EmptyString => None
              | String c3 r3 =>
                  let n3 := nat_of_ascii c3 in
                  if ((n1 =? 226) && (n2 =? 128) && ((n3 =? 168) || (n3 =? 169)))%nat
                  then Some r3
                  else None
              end
        end
  end.

(** [s.splitlines()], [line] being the line read so far; [fuel] bounds the
    characters read, and [len(s) + 1] is enough. *)
Fixpoint splitlines_upto (fuel : nat) (s line : string) : list string :=
  match fuel with
  | O => []
  | S fuel' =>
      match s with
      | EmptyString => if truthy line then [line] else []
      | String c s' =>
          match skip_line_break s with
          | Some rest => line :: splitlines_upto fuel' rest EmptyString
          | None => splitlines_upto fuel' s' (line +:+ String c EmptyString)
          end
      end
  end.

Definition splitlines (s : string) : list string :=
  splitlines_upto (S (String.length s)) s EmptyString.

(** [s[n:]]. *)
Fixpoint drop_chars (n : nat) (s : string) : string :=
  match n, s with
  | O, _ => s
  | S n', String _ s' => drop_chars n' s'
  | S _, EmptyString => EmptyString
  end.

(** [s.split(sep)[-1]] for a separator that is not empty: what follows the
    last of the occurrences of [sep] that a scan from the left finds;
    [piece] is the piece read so far. *)
Fixpoint split_last_upto (fuel : nat) (sep s piece : string) : string :=
  match fuel with
  | O => piece
  | S fuel' =>
      match s with
      | EmptyString => piece
      | String c s' =>
          if starts_with sep s
          then split_last_upto fuel' sep (drop_chars (String.length sep) s) EmptyString
          else split_last_upto fuel' sep s' (piece +:+ String c EmptyString)
      end
  end.

Definition split_last (sep s : string) : string :=
  split_last_upto (String.length s) sep s EmptyString.

(** [s.split(sep)[0]] for a separator that is not empty: what precedes the
    first occurrence of [sep]. *)
Fixpoint split_first (sep s : string) : string :=
  if starts_with sep s then EmptyString
  else
    match s with
    | EmptyString => EmptyString
    | String c s' => String c (split_first sep s')
    end.

(** * The planning orchestrator ([app/flow/planning.py], [app/flow/base.py]) *)

Module PlanningFlow.

(** ** [PlanStepStatus] *)

Definition NOT_STARTED : string := "not_started".
Definition IN_PROGRESS : string := "in_progress".
Definition COMPLETED : string := "completed".
Definition BLOCKED : string := "blocked".

Definition get_all_statuses : list string :=
  [NOT_STARTED; IN_PROGRESS; COMPLETED; BLOCKED].

Definition get_active_statuses : list string := [NOT_STARTED; IN_PROGRESS].

Definition get_status_marks : list (string * string) :=
  [(COMPLETED, "[✓]"); (IN_PROGRESS, "[→]"); (BLOCKED, "[!]"); (NOT_STARTED, "[ ]")].

(** [status in PlanStepStatus.get_active_statuses()]. *)
Definition is_active (status : string) : bool :=
  bool_decide (status ∈ get_active_statuses).

(** [status_marks.get(status, status_marks[NOT_STARTED])]. *)
Fixpoint lookup_mark (marks : list (string * string)) (status : string) : option string :=
  match marks with
  | [] => None
  | (k, v) :: rest => if String.eqb k status then Some v else lookup_mark rest status
  end.

Definition status_mark (status : string) : string :=
  match lookup_mark get_status_marks status with
  | Some m => m
  | None => "[ ]"
  end.

(** ** Plans, steps and the flow object *)

(** One entry of [planning_tool.plans]: a dict read with
    [plan_data.get(key, default)], so every key may be absent. *)
Record PlanData : Type := mkPlanData {
  title : option string;
  steps : option (list string);
  step_statuses : option (list string);
  step_notes : option (list string)
}.

Definition set_step_statuses (l : list string) (p : PlanData) : PlanData :=
  {| title := title p; steps := steps p;
     step_statuses := Some l; step_notes := step_notes p |}.

(** [plan_data.get("steps", [])] and [plan_data.get("step_statuses", [])]. *)
Definition get_steps (p : PlanData) : list string := default [] (steps p).
Definition get_step_statuses (p : PlanData) : list string := default [] (step_statuses p).
Definition get_step_notes (p : PlanData) : list string := default [] (step_notes p).

(** The dict [step_info]: the key [text] is always set, [type] only when a
    bracketed tag was found. *)
Record StepInfo : Type := mkStepInfo {
  text : string;
  type : option string
}.

(** Agents are objects outside the flow; the flow holds them by identity. *)
Definition AgentId : Type := nat.

Record Flow : Type := mkFlow {
  agents : gmap string AgentId;
  primary_agent_key : option string;
  executor_keys : list string;
  active_plan_id : string;
  current_step_index : option nat;
  plans : gmap string PlanData            (* self.planning_tool.plans *)
}.

Definition set_plans (ps : gmap string PlanData) (f : Flow) : Flow :=
  {| agents := agents f; primary_agent_key := primary_agent_key f;
     executor_keys := executor_keys f; active_plan_id := active_plan_id f;
     current_step_index := current_step_index f; plans := ps |}.

Definition set_current_step_index (i : option nat) (f : Flow) : Flow :=
  {| agents := agents f; primary_agent_key := primary_agent_key f;
     executor_keys := executor_keys f; active_plan_id := active_plan_id f;
     current_step_index := i; plans := plans f |}.

(** [BaseFlow.primary_agent]: [self.agents.get(self.primary_agent_key)]. *)
Definition primary_agent (f : Flow) : option AgentId :=
  k ← primary_agent_key f; agents f !! k.

(** ** The step type tag: [re.search(r"\[([A-Z_]+)\]", step)] *)

Definition is_tag_char (c : ascii) : bool :=
  is_upper c || Ascii.eqb c "_"%char.

(** The longest run of [A-Z_] at the head of [s], and what follows it. *)
Fixpoint take_tag (s : string) : string * string :=
  match s with
  | String c s' =>
      if is_tag_char c
      then let '(tag, rest) := take_tag s' in (String c tag, rest)
      else (EmptyString, s)
  | EmptyString => (EmptyString, EmptyString)
  end.

(** A match of the pattern that starts at the head of [s]: group 1. *)
Definition match_tag_here (s : string) : option string :=
  match s with
  | String "["%char s' =>
      match take_tag s' with
      | (String c tag, String "]"%char _) => Some (String c tag)
      | _ => None
      end
  | _ => None
  end.

(** The leftmost match: group 1 of [re.search]. *)
Fixpoint re_search_tag (s : string) : option string :=
  match match_tag_here s with
  | Some tag => Some tag
  | None =>
      match s with
      | String _ s' => re_search_tag s'
      | EmptyString => None
      end
  end.

(** ** What the flow awaits from outside *)

(** A proposed tool call of the planning response: name and argument text. *)
Record PlanToolCall : Type := mkPlanToolCall {
  call_name : string;
  call_arguments : string
}.

Abbreviation Plans := (gmap string PlanData).

(** The collaborators of the flow. [PlanningTool] ([app/tool/planning.py]),
    [LLM] ([app/llm.py]) and [BaseAgent.run] ([app/agent/base.py]) are not
    under [src/]: each call is an operation that answers or raises.
    - [llm_ask_tool user system]: [self.llm.ask_tool] with the planning tool
      offered; it answers the proposed calls, or [None] for no response
      object.
    - [llm_ask user system]: [self.llm.ask].
    - [json_loads text]: [json.loads]; [None] stands for a [JSONDecodeError].
    - [planning_execute args plan_id]: [planning_tool.execute] on the keyword
      arguments [args], once [args["plan_id"]] has been set to [plan_id].
    - [planning_create], [planning_mark_step] and [planning_get]: the
      commands [create], [mark_step] and [get] of the plan store. A call that
      raises leaves [plans] as it was; [get] only reads, and answers the plan
      text.
    - [agent_run a prompt]: [executor.run(prompt)]; [agent_state a]: the
      executor's [state], when it has one. A run does not touch the flow's
      plans.
    - [format_progress completed total]: the text of
      [(completed / total) * 100] printed with [.1f] (floating point). *)
Record Env (World JSON : Type) : Type := mkEnv {
  llm_ask_tool : string → string → World → Result (option (list PlanToolCall)) * World;
  llm_ask : string → string → World → Result string * World;
  json_loads : string → option JSON;
  planning_execute : JSON → string → World → Plans → Result Plans * World;
  planning_create : string → string → list string → World → Plans → Result Plans * World;
  planning_mark_step : string → nat → string → World → Plans → Result Plans * World;
  planning_get : string → World → Plans → Result string * World;
  agent_run : AgentId → string → World → Result string * World;
  agent_state : AgentId → World → option AgentState;
  format_progress : nat → nat → string
}.
Arguments llm_ask_tool {World JSON}.
Arguments llm_ask {World JSON}.
Arguments json_loads {World JSON}.
Arguments planning_execute {World JSON}.
Arguments planning_create {World JSON}.
Arguments planning_mark_step {World JSON}.
Arguments planning_get {World JSON}.
Arguments agent_run {World JSON}.
Arguments agent_state {World JSON}.
Arguments format_progress {World JSON}.

(** ** The operations of [PlanningFlow] *)

Section Operations.
Context {World JSON : Type} (env : Env World JSON).

(** The state the flow's methods run over: the outside world and [self]. *)
Definition St : Type := World * Flow.

(** An outside call that does not touch the plans. *)
Definition call {A} (op : World → Result A * World) : M St A :=
  λ '(w, f), let '(r, w') := op w in (r, (w', f)).

(** A plan store call: on an answer the plans are the store's new ones. *)
Definition store_call (op : World → Plans → Result Plans * World) : M St unit :=
  λ '(w, f),
    match op w (plans f) with
    | (Return ps, w') => (Return tt, (w', set_plans ps f))
    | (Raise e, w') => (Raise e, (w', f))
    end.

(** A plan store read. *)
Definition store_read {A} (op : World → Plans → Result A * World) : M St A :=
  λ '(w, f), let '(r, w') := op w (plans f) in (r, (w', f)).

Definition get_flow : M St Flow := gets snd.

Definition modify_flow (g : Flow → Flow) : M St unit :=
  modify (λ '(w, f), (w, g f)).

(** [plan_data["step_statuses"] = l], on the plan object of [plan_id]. *)
Definition store_step_statuses (plan_id : string) (plan_data : PlanData)
    (l : list string) : M St unit :=
  modify_flow (λ f, set_plans (<[plan_id := set_step_statuses l plan_data]> (plans f)) f).

(** [get_executor]. *)
Fixpoint first_executor (ags : gmap string AgentId) (keys : list string)
    : option AgentId :=
  match keys with
  | [] => None
  | key :: rest =>
      match ags !! key with
      | Some a => Some a
      | None => first_executor ags rest
      end
  end.

Definition get_executor (f : Flow) (step_type : option string) : option AgentId :=
  match (if truthy_opt step_type then step_type ≫= (λ t, agents f !! t) else None) with
  | Some a => Some a
  | None =>
      match first_executor (agents f) (executor_keys f) with
      | Some a => Some a
      | None => primary_agent f
      end
  end.

(** *** [_get_current_step_info] *)

(** The status the scan reads at index [i]: a missing entry counts as
    not started. *)
Definition status_at (step_statuses : list string) (i : nat) : string :=
  match step_statuses !! i with
  | Some s => s
  | None => NOT_STARTED
  end.

(** [for i, step in enumerate(steps)], from index [i] on: the first step whose
    status is active. *)
Fixpoint scan_steps (steps : list string) (step_statuses : list string) (i : nat)
    : option (nat * string) :=
  match steps with
  | [] => None
  | step :: rest =>
      if is_active (status_at step_statuses i)
      then Some (i, step)
      else scan_steps rest step_statuses (S i)
  end.

(** The write of the [except] branch: set entry [i], growing the list when
    it is too short. *)
Definition mark_in_progress_locally (step_statuses : list string) (i : nat)
    : list string :=
  if (i <? length step_statuses)%nat
  then <[i := IN_PROGRESS]> step_statuses
  else (step_statuses ++ replicate (i - length step_statuses) NOT_STARTED)
         ++ [IN_PROGRESS].

Definition _get_current_step_info : M St (option (nat * StepInfo)) :=
  f ← get_flow;
  if negb (truthy (active_plan_id f)) then mret None
  else
    match plans f !! active_plan_id f with
    | None => mret None
    | Some plan_data =>
        try_except
          (let steps := get_steps plan_data in
           let step_statuses := get_step_statuses plan_data in
           match scan_steps steps step_statuses 0 with
           | Some (i, step) =>
               let step_info :=
                 {| text := step; type := lower <$> re_search_tag step |} in
               try_except
                 (store_call (planning_mark_step env (active_plan_id f) i IN_PROGRESS))
                 (λ _, store_step_statuses (active_plan_id f) plan_data
                         (mark_in_progress_locally step_statuses i));;
               mret (Some (i, step_info))
           | None => mret None
           end)
          (λ _, mret None)
    end.

(** *** [_mark_step_completed] *)

Definition mark_completed_locally (step_statuses : list string) (i : nat)
    : list string :=
  <[i := COMPLETED]>
    (step_statuses ++ replicate (S i - length step_statuses) NOT_STARTED).

Definition _mark_step_completed : M St unit :=
  f ← get_flow;
  match current_step_index f with
  | None => mret tt
  | Some i =>
      try_except
        (store_call (planning_mark_step env (active_plan_id f) i COMPLETED))
        (λ _,
           f' ← get_flow;
           match plans f' !! active_plan_id f' with
           | Some plan_data =>
               store_step_statuses (active_plan_id f') plan_data
                 (mark_completed_locally (get_step_statuses plan_data) i)
           | None => mret tt
           end)
  end.

(** *** [_generate_plan_text_from_storage] and [_get_plan_text] *)

(** [while len(l) < n: l.append(d)]. *)
Definition pad_to (n : nat) (d : string) (l : list string) : list string :=
  l ++ replicate (n - length l) d.

(** The padding loops append to the lists read from the plan: a list that is
    an entry of the plan grows in place, while the default [[]] of an absent
    key is a fresh list that the plan never sees. *)
Definition pad_plan (p : PlanData) : PlanData :=
  let n := length (get_steps p) in
  {| title := title p; steps := steps p;
     step_statuses := pad_to n NOT_STARTED <$> step_statuses p;
     step_notes := pad_to n "" <$> step_notes p |}.

(** The number of entries of [l] that equal [status]. *)
Definition count_status (status : string) (l : list string) : nat :=
  length (filter (λ s, s = status) l).

(** The lines of [enumerate(zip(steps, step_statuses, step_notes))]. *)
Fixpoint render_steps (i : nat) (steps step_statuses step_notes : list string)
    : string :=
  match steps, step_statuses, step_notes with
  | step :: steps', status :: statuses', notes :: notes' =>
      (str_of_nat i +:+ ". " +:+ status_mark status +:+ " " +:+ step +:+ nl)
      +:+ (if truthy notes then "   Notes: " +:+ notes +:+ nl else "")
      +:+ render_steps (S i) steps' statuses' notes'
  | _, _, _ => ""
  end.

Definition render_plan (plan_id : string) (p : PlanData) : string :=
  let steps := get_steps p in
  let step_statuses := pad_to (length steps) NOT_STARTED (get_step_statuses p) in
  let step_notes := pad_to (length steps) "" (get_step_notes p) in
  let completed := count_status COMPLETED step_statuses in
  let total := length steps in
  let progress :=
    if (0 <? total)%nat then format_progress env completed total else "0.0" in
  let head :=
    "Plan: " +:+ default "Untitled Plan" (title p) +:+ " (ID: " +:+ plan_id +:+ ")" +:+ nl in
  head
  +:+ repeat_char "="%char (char_length head) +:+ nl +:+ nl
  +:+ "Progress: " +:+ str_of_nat completed +:+ "/" +:+ str_of_nat total
  +:+ " steps completed (" +:+ progress +:+ "%)" +:+ nl
  +:+ "Status: " +:+ str_of_nat completed +:+ " completed, "
  +:+ str_of_nat (count_status IN_PROGRESS step_statuses) +:+ " in progress, "
  +:+ str_of_nat (count_status BLOCKED step_statuses) +:+ " blocked, "
  +:+ str_of_nat (count_status NOT_STARTED step_statuses) +:+ " not started" +:+ nl +:+ nl
  +:+ "Steps:" +:+ nl
  +:+ render_steps 0 steps step_statuses step_notes.

Definition _generate_plan_text_from_storage : M St string :=
  f ← get_flow;
  try_except
    (match plans f !! active_plan_id f with
     | None =>
         mret ("Error: Plan with ID " +:+ active_plan_id f +:+ " not found")
     | Some plan_data =>
         modify_flow
           (λ f', set_plans (<[active_plan_id f := pad_plan plan_data]> (plans f')) f');;
         mret (render_plan (active_plan_id f) plan_data)
     end)
    (λ _, mret ("Error: Unable to retrieve plan with ID " +:+ active_plan_id f)).

Definition _get_plan_text : M St string :=
  f ← get_flow;
  try_except
    (store_read (planning_get env (active_plan_id f)))
    (λ _, _generate_plan_text_from_storage).

(** *** [_execute_step] *)

Definition step_prompt (plan_status : string) (index : option nat)
    (step_text : string) : string :=
  let indent := repeat_char " "%char 11 in
  nl +:+ indent +:+ "CURRENT PLAN STATUS:" +:+ nl
  +:+ indent +:+ plan_status +:+ nl +:+ nl
  +:+ indent +:+ "YOUR CURRENT TASK:" +:+ nl
  +:+ indent +:+ "You are now working on step " +:+ str_of_index index +:+ ": "
  +:+ dquote +:+ step_text +:+ dquote +:+ nl +:+ nl
  +:+ indent +:+ "Please execute this step using the appropriate tools. When you're done, provide a summary of what you accomplished."
  +:+ nl +:+ indent.

(** [executor.run(prompt)]; [get_executor] may have returned [None]. *)
Definition run_executor (executor : option AgentId) (prompt : string) : M St string :=
  match executor with
  | Some a => call (agent_run env a prompt)
  | None => raise (new_exc AttributeError "'NoneType' object has no attribute 'run'")
  end.

Definition _execute_step (executor : option AgentId) (step_info : StepInfo)
    : M St string :=
  plan_status ← _get_plan_text;
  f ← get_flow;
  let step_text := text step_info in
  let prompt := step_prompt plan_status (current_step_index f) step_text in
  try_except
    (step_result ← run_executor executor prompt;
     _mark_step_completed;;
     mret step_result)
    (λ e, mret ("Error executing step " +:+ str_of_index (current_step_index f)
                +:+ ": " +:+ exc_str e)).

(** *** [_create_initial_plan] *)

Definition planning_system_message : string :=
  "You are a planning assistant. Create a concise, actionable plan with clear steps. "
  +:+ "Focus on key milestones rather than detailed sub-steps. "
  +:+ "Optimize for clarity and efficiency.".

(** [for tool_call in response.tool_calls]: [true] when the loop body
    returned from the method. *)
Fixpoint create_from_calls (plan_id : string) (calls : list PlanToolCall)
    : M St bool :=
  match calls with
  | [] => mret false
  | tool_call :: rest =>
      if String.eqb (call_name tool_call) "planning"
      then
        match json_loads env (call_arguments tool_call) with
        | None => create_from_calls plan_id rest
        | Some args =>
            store_call (planning_execute env args plan_id);;
            mret true
        end
      else create_from_calls plan_id rest
  end.

Definition default_plan_title (request : string) : string :=
  "Plan for: " +:+ slice_to request 50
  +:+ (if (50 <? char_length request)%nat then "..." else "").

Definition _create_initial_plan (request : string) : M St unit :=
  f ← get_flow;
  response ← call (llm_ask_tool env
                     ("Create a reasonable plan with clear steps to accomplish the task: "
                      +:+ request)
                     planning_system_message);
  match response with
  | None =>
      raise (new_exc AttributeError "'NoneType' object has no attribute 'tool_calls'")
  | Some calls =>
      returned ← create_from_calls (active_plan_id f) calls;
      if returned : bool then mret tt
      else
        store_call (planning_create env (active_plan_id f)
                      (default_plan_title request)
                      ["Analyze request"; "Execute task"; "Verify results"])
  end.

(** *** [_finalize_plan] *)

Definition summary_prompt (plan_text : string) : string :=
  let indent := repeat_char " "%char 19 in
  nl +:+ indent +:+ "The plan has been completed. Here is the final plan status:"
  +:+ nl +:+ nl +:+ indent +:+ plan_text +:+ nl +:+ nl
  +:+ indent +:+ "Please provide a summary of what was accomplished and any final thoughts."
  +:+ nl +:+ indent.

Definition _finalize_plan : M St string :=
  plan_text ← _get_plan_text;
  try_except
    (response ← call (llm_ask env
                        ("The plan has been completed. Here is the final plan status:"
                         +:+ nl +:+ nl +:+ plan_text +:+ nl +:+ nl
                         +:+ "Please provide a summary of what was accomplished and any final thoughts.")
                        "You are a planning assistant. Your task is to summarize the completed plan.");
     mret ("Plan completed:" +:+ nl +:+ nl +:+ response))
    (λ _,
       try_except
         (f ← get_flow;
          summary ← run_executor (primary_agent f) (summary_prompt plan_text);
          mret ("Plan completed:" +:+ nl +:+ nl +:+ summary))
         (λ _, mret "Plan completed. Error generating summary.")).

(** *** [execute] *)

(** [hasattr(executor, "state") and executor.state == AgentState.FINISHED]. *)
Definition executor_finished (executor : option AgentId) : M St bool :=
  λ '(w, f),
    (Return (match executor with
             | Some a => bool_decide (agent_state env a w = Some FINISHED)
             | None => false
             end), (w, f)).

(** [while True], run for at most [fuel] turns: [None] when the turns are
    used up before the loop is left. *)
Fixpoint execute_loop (fuel : nat) (result : string) : M St (option string) :=
  match fuel with
  | O => mret None
  | S fuel' =>
      current ← _get_current_step_info;
      modify_flow (set_current_step_index (fst <$> current));;
      match current with
      | None =>
          summary ← _finalize_plan;
          mret (Some (result +:+ summary))
      | Some (_, step_info) =>
          f ← get_flow;
          let executor := get_executor f (type step_info) in
          step_result ← _execute_step executor step_info;
          let result' := result +:+ step_result +:+ nl in
          finished ← executor_finished executor;
          if finished : bool then mret (Some result')
          else execute_loop fuel' result'
      end
  end.

(** The body of the [try] of [execute]. *)
Definition execute_body (fuel : nat) (input_text : string) : M St (option string) :=
  f ← get_flow;
  match primary_agent f with
  | None => raise (new_exc ValueError "没有可用的主代理")
  | Some _ =>
      (if truthy input_text
       then
         _create_initial_plan input_text;;
         f' ← get_flow;
         match plans f' !! active_plan_id f' with
         | None => mret (Some (Some ("为: " +:+ input_text +:+ " 创建计划失败")))
         | Some _ => mret None
         end
       else mret None) ≫= λ early : option (option string),
      match early with
      | Some r => mret r
      | None => execute_loop fuel ""
      end
  end.

Definition execute (fuel : nat) (input_text : string) : M St (option string) :=
  try_except
    (execute_body fuel input_text)
    (λ e, mret (Some ("Execution failed: " +:+ exc_str e))).

End Operations.

End PlanningFlow.

(** * The tool-calling agent ([app/agent/react.py], [app/agent/toolcall.py]) *)

Module ToolCallAgent.

(** ** Messages and tool calls

    Modelled from the spec: [Message], [ToolCall], [Function], [ToolChoice] and
    [Memory] of [app/schema.py], which is not under [src/]. Section 3 gives a
    message a role, an optional text, tool-call references and an optional
    media attachment; a tool-role message also carries the call id and the
    tool name it answers. The message log is append-only: [add_message]
    appends. *)

Inductive ToolChoice : Type := NONE | AUTO | REQUIRED.

Inductive Role : Type := System | User | Assistant | Tool.

#[global] Instance ToolChoice_eq_dec : EqDecision ToolChoice.
Proof. solve_decision. Defined.

#[global] Instance Role_eq_dec : EqDecision Role.
Proof. solve_decision. Defined.

Record Function : Type := mkFunction {
  name : string;
  arguments : string
}.

Record ToolCall : Type := mkToolCall {
  call_id : string;
  function : Function
}.

Record Message : Type := mkMessage {
  role : Role;
  content : option string;
  msg_tool_calls : list ToolCall;
  msg_name : option string;
  tool_call_id : option string;
  msg_base64_image : option string
}.

Definition user_message (c : string) : Message :=
  {| role := User; content := Some c; msg_tool_calls := [];
     msg_name := None; tool_call_id := None; msg_base64_image := None |}.

Definition assistant_message (c : string) : Message :=
  {| role := Assistant; content := Some c; msg_tool_calls := [];
     msg_name := None; tool_call_id := None; msg_base64_image := None |}.

Definition from_tool_calls (c : string) (calls : list ToolCall) : Message :=
  {| role := Assistant; content := Some c; msg_tool_calls := calls;
     msg_name := None; tool_call_id := None; msg_base64_image := None |}.

Definition tool_message (c : string) (id : string) (tool : string)
    (image : option string) : Message :=
  {| role := Tool; content := Some c; msg_tool_calls := [];
     msg_name := Some tool; tool_call_id := Some id; msg_base64_image := image |}.

(** ** [ToolResult] ([app/tool/base.py]) *)

Record ToolResult : Type := mkToolResult {
  output : option string;
  error : option string;
  base64_image : option string;
  system : option string
}.

(** [ToolResult.__bool__]: some field is truthy. *)
Definition ToolResult_bool (r : ToolResult) : bool :=
  truthy_opt (output r) || truthy_opt (error r)
  || truthy_opt (base64_image r) || truthy_opt (system r).

(** [ToolResult.__str__]; Python raises when [__str__] returns [None]. *)
Definition ToolResult_str (r : ToolResult) : Result string :=
  if truthy_opt (error r) then Return ("Error: " +:+ default "" (error r))
  else
    match output r with
    | Some s => Return s
    | None => Raise (new_exc TypeError "__str__ returned non-string (type NoneType)")
    end.

(** What a tool hands back: a [ToolResult], or a plain string. *)
Inductive ToolValue : Type :=
  | ResultObject (r : ToolResult)
  | PlainString (s : string).

Definition value_bool (v : ToolValue) : bool :=
  match v with
  | ResultObject r => ToolResult_bool r
  | PlainString s => truthy s
  end.

Definition value_str (v : ToolValue) : Result string :=
  match v with
  | ResultObject r => ToolResult_str r
  | PlainString s => Return s
  end.

(** [result.base64_image] when [hasattr(result, "base64_image")] and it is
    truthy. *)
Definition value_image (v : ToolValue) : option string :=
  match v with
  | ResultObject r => if truthy_opt (base64_image r) then base64_image r else None
  | PlainString _ => None
  end.

(** ** The agent object *)

Record Agent : Type := mkAgent {
  agent_name : string;
  state : AgentState;
  messages : list Message;               (* self.memory.messages *)
  system_prompt : option string;
  next_step_prompt : option string;
  available_tools : list string;         (* the keys of available_tools.tool_map *)
  tool_choices : ToolChoice;
  special_tool_names : list string;
  tool_calls : list ToolCall;
  _current_base64_image : option string;
  max_observe : option Z                 (* an int, or a bool read as 0 or 1 *)
}.

Definition set_state (s : AgentState) (a : Agent) : Agent :=
  {| agent_name := agent_name a; state := s; messages := messages a;
     system_prompt := system_prompt a; next_step_prompt := next_step_prompt a;
     available_tools := available_tools a; tool_choices := tool_choices a;
     special_tool_names := special_tool_names a; tool_calls := tool_calls a;
     _current_base64_image := _current_base64_image a;
     max_observe := max_observe a |}.

Definition set_messages (ms : list Message) (a : Agent) : Agent :=
  {| agent_name := agent_name a; state := state a; messages := ms;
     system_prompt := system_prompt a; next_step_prompt := next_step_prompt a;
     available_tools := available_tools a; tool_choices := tool_choices a;
     special_tool_names := special_tool_names a; tool_calls := tool_calls a;
     _current_base64_image := _current_base64_image a;
     max_observe := max_observe a |}.

Definition set_tool_calls (cs : list ToolCall) (a : Agent) : Agent :=
  {| agent_name := agent_name a; state := state a; messages := messages a;
     system_prompt := system_prompt a; next_step_prompt := next_step_prompt a;
     available_tools := available_tools a; tool_choices := tool_choices a;
     special_tool_names := special_tool_names a; tool_calls := cs;
     _current_base64_image := _current_base64_image a;
     max_observe := max_observe a |}.

Definition set_current_base64_image (i : option string) (a : Agent) : Agent :=
  {| agent_name := agent_name a; state := state a; messages := messages a;
     system_prompt := system_prompt a; next_step_prompt := next_step_prompt a;
     available_tools := available_tools a; tool_choices := tool_choices a;
     special_tool_names := special_tool_names a; tool_calls := tool_calls a;
     _current_base64_image := i;
     max_observe := max_observe a |}.

(** ** What the agent awaits from outside *)

(** The model's answer: [response.content] and [response.tool_calls]
    ([None] read as no calls). *)
Record Response : Type := mkResponse {
  response_content : option string;
  response_tool_calls : list ToolCall
}.

(** [LLM.ask_tool], [ToolCollection.execute] and [json.loads] are outside
    [src/]: each answers or raises. [ask_tool] takes the message log, the
    system prompt when one is sent, the tool names and the policy, and may
    answer [None]. [should_finish_execution] is the overridable
    [_should_finish_execution]. [str_lower] is [str.lower], Python's own: its
    table of cased characters is no part of the model. *)
Record Env (World JSON : Type) : Type := mkEnv {
  ask_tool : list Message → option string → list string → ToolChoice →
             World → Result (option Response) * World;
  json_loads : string → option JSON;
  tools_execute : string → JSON → World → Result ToolValue * World;
  should_finish_execution : string → ToolValue → bool;
  str_lower : string → string
}.
Arguments ask_tool {World JSON}.
Arguments json_loads {World JSON}.
Arguments tools_execute {World JSON}.
Arguments should_finish_execution {World JSON}.
Arguments str_lower {World JSON}.

(** [ToolCallAgent._should_finish_execution]: always [True]. *)
Definition _should_finish_execution (_ : string) (_ : ToolValue) : bool := true.

Definition TOOL_CALL_REQUIRED : string := "Tool calls required but none provided".

(** The default of [special_tool_names] in every agent class:
    [[Terminate().name]], which [app/agent/mcp.py] spells out as
    [["terminate"]]. *)
Definition default_special_tool_names : list string := ["terminate"].

(** ** The methods of [ToolCallAgent] *)

Section Methods.
Context {World JSON : Type} (env : Env World JSON).

(** The state the methods run over: the outside world and [self]. *)
Definition St : Type := World * Agent.

Definition call {A} (op : World → Result A * World) : M St A :=
  λ '(w, a), let '(r, w') := op w in (r, (w', a)).

Definition lift {A} (r : Result A) : M St A := λ s, (r, s).

Definition get_agent : M St Agent := gets snd.

Definition modify_agent (g : Agent → Agent) : M St unit :=
  modify (λ '(w, a), (w, g a)).

(** [self.memory.add_message(m)]. *)
Definition add_message (m : Message) : M St unit :=
  modify_agent (λ a, set_messages (messages a ++ [m]) a).

(** *** [think] *)

(** The part of [think] after the model has answered. *)
Definition think_process (response : option Response) : M St bool :=
  let calls :=
    match response with Some r => response_tool_calls r | None => [] end in
  let content :=
    match response with Some r => or_default (response_content r) "" | None => "" end in
  modify_agent (set_tool_calls calls);;
  try_except
    (match response with
     | None => raise (new_exc RuntimeError "No response received from the LLM")
     | Some _ =>
         a ← get_agent;
         if bool_decide (tool_choices a = NONE)
         then
           if truthy content
           then add_message (assistant_message content);; mret true
           else mret false
         else
           a' ← get_agent;
           add_message (match tool_calls a' with
                        | [] => assistant_message content
                        | _ :: _ => from_tool_calls content (tool_calls a')
                        end);;
           a'' ← get_agent;
           if bool_decide (tool_choices a'' = REQUIRED)
              && bool_decide (tool_calls a'' = [])
           then mret true
           else if bool_decide (tool_choices a'' = AUTO)
                   && bool_decide (tool_calls a'' = [])
           then mret (truthy content)
           else mret (negb (bool_decide (tool_calls a'' = [])))
     end)
    (λ e,
       add_message (assistant_message
                      ("Error encountered while processing: " +:+ exc_str e));;
       mret false).

Definition think : M St bool :=
  a ← get_agent;
  (if truthy_opt (next_step_prompt a)
   then modify_agent
          (set_messages (messages a ++ [user_message (default "" (next_step_prompt a))]))
   else mret tt);;
  a' ← get_agent;
  asked ← try_except
    (response ← call (ask_tool env (messages a')
                        (if truthy_opt (system_prompt a') then system_prompt a' else None)
                        (available_tools a') (tool_choices a'));
     mret (Some response))
    (λ e,
       if is_ValueError e then raise e
       else
         match token_limit_cause e with
         | Some token_limit_error =>
             add_message (assistant_message
                            ("Maximum token limit reached, cannot continue execution: "
                             +:+ token_limit_error));;
             modify_agent (set_state FINISHED);;
             mret None
         | None => raise e
         end);
  match asked with
  | None => mret false
  | Some response => think_process response
  end.

(** *** [_handle_special_tool] *)

(** [name.lower() in [n.lower() for n in self.special_tool_names]]. *)
Definition _is_special_tool (a : Agent) (name : string) : bool :=
  bool_decide (str_lower env name ∈ str_lower env <$> special_tool_names a).

Definition _handle_special_tool (name : string) (result : ToolValue) : M St unit :=
  a ← get_agent;
  if negb (_is_special_tool a name) then mret tt
  else if should_finish_execution env name result
  then modify_agent (set_state FINISHED)
  else mret tt.

(** *** [execute_tool] *)

(** [json.loads(text)]. *)
Definition loads (text : string) : M St JSON :=
  match json_loads env text with
  | Some args => mret args
  | None => raise (new_exc JSONDecodeError "Invalid JSON")
  end.

(** The observation text of a result. *)
Definition observation_of (name : string) (result : ToolValue) : M St string :=
  if value_bool result
  then
    s ← lift (value_str result);
    mret ("Observed output of cmd `" +:+ name +:+ "` executed:" +:+ nl +:+ s)
  else mret ("Cmd `" +:+ name +:+ "` completed with no output").

Definition execute_tool (command : ToolCall) : M St string :=
  if negb (truthy (name (function command)))
  then mret "Error: Invalid command format"
  else
    let name := name (function command) in
    a ← get_agent;
    if negb (bool_decide (name ∈ available_tools a))
    then mret ("Error: Unknown tool '" +:+ name +:+ "'")
    else
      try_except
        (args ← loads (or_default (Some (arguments (function command))) "{}");
         result ← call (tools_execute env name args);
         _handle_special_tool name result;;
         match value_image result with
         | Some image =>
             modify_agent (set_current_base64_image (Some image));;
             observation_of name result
         | None => observation_of name result
         end)
        (λ e,
           if is_JSONDecodeError e
           then mret ("Error: " +:+ "Error parsing arguments for " +:+ name
                      +:+ ": Invalid JSON format")
           else mret ("Error: " +:+ "⚠️ Tool '" +:+ name
                      +:+ "' encountered a problem: " +:+ exc_str e)).

(** *** [act] *)

(** [result[: self.max_observe]] when [self.max_observe] is truthy. *)
Definition observe (max_observe : option Z) (result : string) : string :=
  match max_observe with
  | Some m => if (m =? 0)%Z then result else slice_to result m
  | None => result
  end.

(** [for command in self.tool_calls], with the list [results] so far. *)
Fixpoint act_loop (commands : list ToolCall) (results : list string)
    : M St (list string) :=
  match commands with
  | [] => mret results
  | command :: rest =>
      modify_agent (set_current_base64_image None);;
      result ← execute_tool command;
      a ← get_agent;
      let result := observe (max_observe a) result in
      add_message (tool_message result (call_id command) (name (function command))
                     (_current_base64_image a));;
      act_loop rest (results ++ [result])
  end.

Definition act : M St string :=
  a ← get_agent;
  match tool_calls a with
  | [] =>
      if bool_decide (tool_choices a = REQUIRED)
      then raise (new_exc ValueError TOOL_CALL_REQUIRED)
      else
        match last (messages a) with
        | Some m => mret (or_default (content m) "No content or commands to execute")
        | None => raise (new_exc IndexError "list index out of range")
        end
  | _ :: _ =>
      results ← act_loop (tool_calls a) [];
      mret (join (nl +:+ nl) results)
  end.

(** *** [ReActAgent.step] *)

Definition step : M St string :=
  should_act ← think;
  if negb should_act then mret "Thinking complete - no action needed"
  else act.

End Methods.

End ToolCallAgent.

(** * Combining tool results ([app/tool/base.py]) *)

Module ToolResults.
Import ToolCallAgent.

(** [combine_fields] of [ToolResult.__add__]: two truthy fields are
    concatenated, or refused when [concatenate] is false; otherwise the
    answer is [field or other_field]. *)
Definition combine_fields (field other_field : option string) (concatenate : bool)
    : Result (option string) :=
  if truthy_opt field && truthy_opt other_field
  then
    if concatenate
    then Return (Some (default "" field +:+ default "" other_field))
    else Raise (new_exc ValueError "Cannot combine tool results")
  else Return (if truthy_opt field then field else other_field).

(** [ToolResult.__add__]: the four fields are combined in the order of the
    keyword arguments. *)
Definition ToolResult_add (self other : ToolResult) : Result ToolResult :=
  match combine_fields (output self) (output other) true with
  | Raise e => Raise e
  | Return o =>
      match combine_fields (error self) (error other) true with
      | Raise e => Raise e
      | Return err =>
          match combine_fields (base64_image self) (base64_image other) false with
          | Raise e => Raise e
          | Return image =>
              match combine_fields (system self) (system other) true with
              | Raise e => Raise e
              | Return sys =>
                  Return {| output := o; error := err;
                            base64_image := image; system := sys |}
              end
          end
      end
  end.

(** [a + b + c], as Python reads it, and [a + (b + c)]. *)
Definition add_left (a b c : ToolResult) : Result ToolResult :=
  match ToolResult_add a b with
  | Return ab => ToolResult_add ab c
  | Raise e => Raise e
  end.

Definition add_right (a b c : ToolResult) : Result ToolResult :=
  match ToolResult_add b c with
  | Return bc => ToolResult_add a bc
  | Raise e => Raise e
  end.

(** [ToolResult()]: every field [None]. *)
Definition empty_result : ToolResult :=
  {| output := None; error := None; base64_image := None; system := None |}.

(** A result whose falsy fields are all [None]. *)
Definition drop_falsy (o : option string) : option string :=
  if truthy_opt o then o else None.

Definition without_falsy (r : ToolResult) : ToolResult :=
  {| output := drop_falsy (output r); error := drop_falsy (error r);
     base64_image := drop_falsy (base64_image r); system := drop_falsy (system r) |}.

(** [x or y] for two fields, and their concatenation when both are truthy. *)
Definition joined (x y : option string) : option string :=
  if truthy_opt x && truthy_opt y then Some (default "" x +:+ default "" y)
  else if truthy_opt x then x else y.

End ToolResults.

(** * Building a flow ([app/flow/base.py], [app/flow/planning.py],
    [app/flow/flow_factory.py]) *)

Module FlowSetup.
Import PlanningFlow.

(** The [agents] argument of the constructors: one agent, a list of agents,
    or a dict of agents, given by its items in insertion order (the keys of
    a dict are distinct). *)
Inductive AgentsArg : Type :=
  | OneAgent (agent : AgentId)
  | AgentList (l : list AgentId)
  | AgentDict (d : list (string * AgentId)).

(** The keyword arguments the constructors read; [None] is a key that was
    not passed. *)
Record FlowData : Type := mkFlowData {
  data_primary_agent_key : option string;
  data_executors : option (list string);
  data_executor_keys : option (list string);
  data_plan_id : option string;
  data_active_plan_id : option string;
  data_current_step_index : option nat
}.

(** [agents_dict] of [BaseFlow.__init__]. *)
Definition agents_dict (agents : AgentsArg) : list (string * AgentId) :=
  match agents with
  | OneAgent agent => [("default", agent)]
  | AgentList l => imap (λ i agent, ("agent_" +:+ str_of_nat i, agent)) l
  | AgentDict d => d
  end.

(** The primary key [BaseFlow.__init__] settles on: the one given, or the
    first key of the dict when none is given and there is an agent. *)
Definition primary_key_of (d : list (string * AgentId)) (given : option string)
    : option string :=
  if negb (truthy_opt given) && negb (bool_decide (d = []))
  then fst <$> head d
  else given.

(** [PlanningFlow.__init__]. [now] is [int(time.time())], and [tool_plans]
    the plans of the planning tool the flow is left with (the one passed in,
    or a new one). *)
Definition PlanningFlow_init (agents : AgentsArg) (data : FlowData) (now : nat)
    (tool_plans : Plans) : Flow :=
  let d := agents_dict agents in
  let keys :=
    match data_executors data with
    | Some l => l
    | None => default [] (data_executor_keys data)
    end in
  {| PlanningFlow.agents := list_to_map d;
     primary_agent_key := primary_key_of d (data_primary_agent_key data);
     executor_keys := if bool_decide (keys = []) then d.*1 else keys;
     active_plan_id :=
       match data_plan_id data with
       | Some plan_id => plan_id
       | None => default ("plan_" +:+ str_of_nat now) (data_active_plan_id data)
       end;
     current_step_index := data_current_step_index data;
     plans := tool_plans |}.

(** [FlowFactory.create_flow]: the only flow type is [planning]. *)
Definition create_flow (flow_type : string) (agents : AgentsArg) (data : FlowData)
    (now : nat) (tool_plans : Plans) : Result Flow :=
  if String.eqb flow_type "planning"
  then Return (PlanningFlow_init agents data now tool_plans)
  else Raise (new_exc ValueError ("未知的流程类型: " +:+ flow_type)).

(** [BaseFlow.get_agent] and [BaseFlow.add_agent]. *)
Definition get_agent (f : Flow) (key : string) : option AgentId :=
  PlanningFlow.agents f !! key.

Definition add_agent (key : string) (agent : AgentId) (f : Flow) : Flow :=
  {| PlanningFlow.agents := <[key := agent]> (PlanningFlow.agents f);
     primary_agent_key := primary_agent_key f;
     executor_keys := executor_keys f; active_plan_id := active_plan_id f;
     current_step_index := current_step_index f; plans := plans f |}.

(** Keyword arguments that pass nothing. *)
Definition no_data : FlowData :=
  {| data_primary_agent_key := None; data_executors := None;
     data_executor_keys := None; data_plan_id := None;
     data_active_plan_id := None; data_current_step_index := None |}.

End FlowSetup.

(** * The command line ([app/main.py]) *)

Module Main.

(** The three variables the argument loop sets. *)
Record Options : Type := mkOptions {
  agent_type : string;
  input_image : option string;
  project_name : option string
}.

Definition default_options : Options :=
  {| agent_type := "manus"; input_image := None; project_name := None |}.

(** [while i < len(args)], from position [i] on, [args] being what is left
    there: [None] when the loop returns from [main] because a flag has no
    value after it. *)
Fixpoint parse_args (args : list string) (o : Options) : option Options :=
  match args with
  | [] => Some o
  | arg :: rest =>
      if String.eqb arg "--agent"
      then
        match rest with
        | value :: rest' =>
            parse_args rest' {| agent_type := value; input_image := input_image o;
                                project_name := project_name o |}
        | [] => None
        end
      else if String.eqb arg "--image"
      then
        match rest with
        | value :: rest' =>
            parse_args rest' {| agent_type := agent_type o; input_image := Some value;
                                project_name := project_name o |}
        | [] => None
        end
      else if String.eqb arg "--project"
      then
        match rest with
        | value :: rest' =>
            parse_args rest' {| agent_type := agent_type o; input_image := input_image o;
                                project_name := Some value |}
        | [] => None
        end
      else parse_args rest o
  end.

(** The agent [main] creates and the arguments of its [run]. *)
Inductive Launch : Type :=
  | RunPipeline (input_image_path : string) (project : option string)
  | RunPlanning
  | RunManus.

Definition choose_agent (o : Options) : Launch :=
  if String.eqb (agent_type o) "pipeline" && truthy_opt (input_image o)
  then RunPipeline (default "" (input_image o)) (project_name o)
  else if String.eqb (agent_type o) "planning" then RunPlanning
  else RunManus.

(** [main] on [sys.argv[1:]]: the agent it runs, or [None] when it returns
    without running one. *)
Definition main (argv : list string) : option Launch :=
  choose_agent <$> parse_args argv default_options.

(** A flag followed by its value, as one option of the command line. *)
Definition is_flag (arg : string) : bool :=
  String.eqb arg "--agent" || String.eqb arg "--image" || String.eqb arg "--project".

Definition set_option (o : Options) (option : string * string) : Options :=
  if String.eqb option.1 "--agent"
  then {| agent_type := option.2; input_image := input_image o;
          project_name := project_name o |}
  else if String.eqb option.1 "--image"
  then {| agent_type := agent_type o; input_image := Some option.2;
          project_name := project_name o |}
  else {| agent_type := agent_type o; input_image := input_image o;
          project_name := Some option.2 |}.

Definition spell (options : list (string * string)) : list string :=
  options ≫= λ option, [option.1; option.2].

End Main.

(** * The pipeline agent ([app/agent/pipeline_agent.py]) *)

Module PipelineAgent.
Import ToolCallAgent.

(** [Message.system_message(content)]. *)
Definition system_message (c : option string) : Message :=
  {| role := System; content := c; msg_tool_calls := [];
     msg_name := None; tool_call_id := None; msg_base64_image := None |}.

(** [self]: the fields of [ToolCallAgent], the dict [pipeline_status] in
    insertion order, and the dict [output_files]. *)
Record Pipeline : Type := mkPipeline {
  base : Agent;
  pipeline_status : list (string * string);
  output_files : gmap string (option string)
}.

Definition set_base (a : Agent) (p : Pipeline) : Pipeline :=
  {| base := a; pipeline_status := pipeline_status p; output_files := output_files p |}.

Definition set_pipeline_status (d : list (string * string)) (p : Pipeline) : Pipeline :=
  {| base := base p; pipeline_status := d; output_files := output_files p |}.

Definition set_output_files (d : gmap string (option string)) (p : Pipeline) : Pipeline :=
  {| base := base p; pipeline_status := pipeline_status p; output_files := d |}.

Definition set_next_step_prompt (prompt : option string) (a : Agent) : Agent :=
  {| agent_name := agent_name a; state := state a; messages := messages a;
     system_prompt := system_prompt a; next_step_prompt := prompt;
     available_tools := available_tools a; tool_choices := tool_choices a;
     special_tool_names := special_tool_names a; tool_calls := tool_calls a;
     _current_base64_image := _current_base64_image a;
     max_observe := max_observe a |}.

(** ** Dicts in insertion order *)

(** [d[key]], when [key in d]. *)
Fixpoint dict_get (key : string) (d : list (string * string)) : option string :=
  match d with
  | [] => None
  | (k, v) :: rest => if String.eqb k key then Some v else dict_get key rest
  end.

(** [d[key] = value]: the entry is replaced where it is, or added at the
    end. *)
Fixpoint dict_set (key value : string) (d : list (string * string))
    : list (string * string) :=
  match d with
  | [] => [(key, value)]
  | (k, v) :: rest =>
      if String.eqb k key then (k, value) :: rest
      else (k, v) :: dict_set key value rest
  end.

(** [self.output_files.get(key)]. *)
Definition files_get (p : Pipeline) (key : string) : option string :=
  default None (output_files p !! key).

(** [NEXT_STEP_PROMPT] of [app/prompt/pipeline.py], before and after its
    placeholder [pipeline_status]. *)
Definition NEXT_STEP_PROMPT_head : string :=
  "基于当前工作流的状态，请思考下一步应该执行什么工具调用。你应该自动化执行从UI图像分析到代码生成的流程。" +:+ nl
  +:+ nl
  +:+ "当前工作流已完成的步骤:" +:+ nl.

Definition NEXT_STEP_PROMPT_tail : string :=
  nl
  +:+ nl
  +:+ "请考虑:" +:+ nl
  +:+ "1. 目前工作流进行到哪一步？" +:+ nl
  +:+ "2. 下一步应该调用哪个工具？" +:+ nl
  +:+ "3. 需要传递什么参数？（确保传递正确的参数，包括新增的可选参数如description_text和package_name）" +:+ nl
  +:+ "4. 如何确保数据的一致性和正确传递？" +:+ nl
  +:+ nl
  +:+ "工具调用注意事项：" +:+ nl
  +:+ "- html_to_api_doc: 可以传入description_text增强API文档生成质量" +:+ nl
  +:+ "- html_to_vue: 确保传入正确的HTML路径和API文档路径，可指定Vue版本和是否使用TypeScript" +:+ nl
  +:+ "- html_to_springboot: 确保传入正确的HTML路径和API文档路径，可使用package_name指定基础包名" +:+ nl
  +:+ nl
  +:+ "请提供详细的下一步工具调用，或者如果工作流已完成，请总结结果并终止执行。" +:+ nl.

(** [str(o)] for an optional string, as an f-string prints it. *)
Definition str_of_opt (o : option string) : string := default "None" o.

(** The five steps of the workflow, and the status dict [initialize]
    starts from. *)
Definition workflow_steps : list string :=
  ["wireframe_generation"; "html_creation"; "api_doc_generation";
   "frontend_generation"; "backend_generation"].

Definition initial_status : list (string * string) :=
  [("wireframe_generation", "pending"); ("html_creation", "pending");
   ("api_doc_generation", "pending"); ("frontend_generation", "pending");
   ("backend_generation", "pending"); ("status", "initialized")].

(** The entries of the status dict but the overall one. *)
Definition step_entries (d : list (string * string)) : list (string * string) :=
  filter (λ entry, entry.1 ≠ "status") d.

(** The overall status the update settles on. *)
Definition overall_status (d : list (string * string)) : string :=
  if forallb (λ entry, String.eqb entry.2 "completed") (step_entries d) then "completed"
  else if existsb (λ entry, String.eqb entry.2 "failed") (step_entries d) then "failed"
  else "in_progress".

(** [output.split("保存到:")[-1].strip()], and its first line. *)
Definition saved_path (output : string) : string :=
  strip (split_last "保存到:" output).

Definition saved_path_line (output : string) : string :=
  split_first nl (saved_path output).

(** [update_pipeline_status]. *)
Definition update_pipeline_status (step status : string) (output : option string)
    (p : Pipeline) : Pipeline :=
  let p1 :=
    if bool_decide (step ∈ (pipeline_status p).*1)
    then
      let p' := set_pipeline_status (dict_set step status (pipeline_status p)) p in
      if truthy_opt output && bool_decide (step ∈ workflow_steps)
      then
        let text := default "" output in
        let store key value :=
          set_output_files (<[key := Some value]> (output_files p')) p' in
        if String.eqb step "wireframe_generation" then store "wireframe_desc" text
        else if String.eqb step "html_creation"
        then if contains "保存到:" text then store "html_path" (saved_path text) else p'
        else if String.eqb step "api_doc_generation"
        then if contains "保存到:" text then store "api_doc_path" (saved_path text) else p'
        else if String.eqb step "frontend_generation"
        then if contains "保存到:" text
             then store "frontend_path" (saved_path_line text) else p'
        else if String.eqb step "backend_generation"
        then if contains "保存到:" text
             then store "backend_path" (saved_path_line text) else p'
        else p'
      else p'
    else p in
  set_pipeline_status
    (dict_set "status" (overall_status (pipeline_status p1)) (pipeline_status p1)) p1.

(** The workflow step a tool works on. *)
Definition step_of_tool (tool_name : string) : option string :=
  if String.eqb tool_name "wireframe_generator" then Some "wireframe_generation"
  else if String.eqb tool_name "wireframe_html" then Some "html_creation"
  else if String.eqb tool_name "html_to_api_doc" then Some "api_doc_generation"
  else if String.eqb tool_name "html_to_vue" then Some "frontend_generation"
  else if String.eqb tool_name "html_to_springboot" then Some "backend_generation"
  else None.

(** [success] of [execute_tool]: none of the three failure marks is in the
    observation. *)
Definition is_success (result : string) : bool :=
  negb (contains "Error:" result) && negb (contains "错误:" result)
  && negb (contains "失败:" result).

(** What [command.function.arguments[key] = value] raises: the arguments of
    a call are a [str], the JSON text that [ToolCallAgent.execute_tool] reads
    with [json.loads] and that the tests [key not in arguments] above search
    as a text. *)
Definition item_assignment_error : PyExc :=
  new_exc TypeError "'str' object does not support item assignment".

(** The override refuses the call: it would add the key [key] to the
    arguments of a call of [tool]. *)
Definition refused (p : Pipeline) (command : ToolCall) : bool :=
  let tool_name := name (function command) in
  let arguments := arguments (function command) in
  if String.eqb tool_name "html_to_api_doc"
     && negb (contains "description_text" arguments)
  then truthy_opt (files_get p "description_text")
  else if String.eqb tool_name "html_to_springboot"
          && negb (contains "package_name" arguments)
  then truthy_opt (files_get p "package_name")
  else false.

Section Methods.
Context {World JSON : Type} (env : Env World JSON).

(** The state the methods run over: the outside world and [self]. *)
Definition St : Type := World * Pipeline.

Definition get_pipeline : M St Pipeline := gets snd.

Definition modify_pipeline (g : Pipeline → Pipeline) : M St unit :=
  modify (λ '(w, p), (w, g p)).

(** A method of [ToolCallAgent], run on [self]. *)
Definition on_agent {A} (m : M (World * Agent) A) : M St A :=
  λ '(w, p),
    let '(r, (w', a')) := m (w, base p) in (r, (w', set_base a' p)).

Definition add_message (m : Message) : M St unit :=
  modify_pipeline (λ p, set_base (set_messages (messages (base p) ++ [m]) (base p)) p).

(** [initialize]. *)
Definition initialize (input_image_path project_name description_text
    package_name : option string) : M St unit :=
  let project := or_default project_name "auto_generated_project" in
  modify_pipeline
    (λ p,
       set_output_files
         (list_to_map
            [("image_path", input_image_path); ("wireframe_desc", Some "");
             ("html_path", Some ""); ("api_doc_path", Some "");
             ("frontend_path", Some ""); ("backend_path", Some "");
             ("project_name", Some project);
             ("description_text", Some (or_default description_text ""));
             ("package_name", Some (or_default package_name "com.demo"))])
         (set_pipeline_status initial_status p));;
  p ← get_pipeline;
  add_message (system_message (system_prompt (base p)));;
  add_message
    (user_message
       ("请使用图像路径 '" +:+ str_of_opt input_image_path
        +:+ "' 执行完整的从UI设计到代码生成的流程，项目名称为 '" +:+ project +:+ "'。"
        +:+ (if truthy_opt description_text
             then nl +:+ nl +:+ "项目描述：" +:+ nl +:+ default "" description_text
             else "")
        +:+ (if truthy_opt package_name
                && negb (bool_decide (package_name = Some "com.demo"))
             then nl +:+ nl +:+ "后端项目使用包名：" +:+ default "" package_name
             else ""))).

(** [think]: the next-step prompt is rebuilt from the status dict, then
    [ToolCallAgent.think] runs. *)
Definition status_text (d : list (string * string)) : string :=
  join nl ((λ entry, entry.1 +:+ ": " +:+ entry.2) <$> step_entries d).

Definition think : M St bool :=
  modify_pipeline
    (λ p,
       set_base
         (set_next_step_prompt
            (Some (NEXT_STEP_PROMPT_head +:+ status_text (pipeline_status p)
                   +:+ NEXT_STEP_PROMPT_tail))
            (base p)) p);;
  on_agent (ToolCallAgent.think env).

(** The update of the step that [tool_name] works on, if any. *)
Definition update_for_tool (tool_name status : string) (output : option string)
    : M St unit :=
  match step_of_tool tool_name with
  | Some step => modify_pipeline (update_pipeline_status step status output)
  | None => mret tt
  end.

(** [execute_tool]: the override. *)
Definition execute_tool (command : ToolCall) : M St string :=
  let tool_name := name (function command) in
  let arguments := arguments (function command) in
  p ← get_pipeline;
  (if String.eqb tool_name "html_to_api_doc"
      && negb (contains "description_text" arguments)
   then
     if truthy_opt (files_get p "description_text")
     then raise item_assignment_error
     else mret tt
   else if String.eqb tool_name "html_to_springboot"
           && negb (contains "package_name" arguments)
   then
     if truthy_opt (files_get p "package_name")
     then raise item_assignment_error
     else mret tt
   else mret tt);;
  update_for_tool tool_name "in_progress" None;;
  result ← on_agent (ToolCallAgent.execute_tool env command);
  let status := if is_success result then "completed" else "failed" in
  update_for_tool tool_name status (Some result);;
  mret result.

(** [act], inherited from [ToolCallAgent]: its [self.execute_tool] is the
    override. *)
Fixpoint act_loop (commands : list ToolCall) (results : list string)
    : M St (list string) :=
  match commands with
  | [] => mret results
  | command :: rest =>
      modify_pipeline (λ p, set_base (set_current_base64_image None (base p)) p);;
      result ← execute_tool command;
      p ← get_pipeline;
      let result := observe (max_observe (base p)) result in
      add_message (tool_message result (call_id command) (name (function command))
                     (_current_base64_image (base p)));;
      act_loop rest (results ++ [result])
  end.

Definition act : M St string :=
  p ← get_pipeline;
  match tool_calls (base p) with
  | [] => on_agent (ToolCallAgent.act env)
  | _ :: _ =>
      results ← act_loop (tool_calls (base p)) [];
      mret (join (nl +:+ nl) results)
  end.

(** [ReActAgent.step]. *)
Definition step : M St string :=
  should_act ← think;
  if negb should_act then mret "Thinking complete - no action needed"
  else act.

End Methods.

End PipelineAgent.

(** * The planning agent ([app/agent/planning.py])

    [think], [act], [get_plan], [update_plan_status] and
    [_get_current_step_index]. The planning tool is reached through
    [self.available_tools.execute(name="planning", tool_input=...)], which is
    [tools_execute] of the agent's environment on a dict built by the
    agent. *)

Module PlanningAgent.
Import ToolCallAgent.

(** An entry of [step_execution_tracker]. *)
Record Tracked : Type := mkTracked {
  step_index : nat;
  tool_name : string;
  status : string;
  result : option string     (* the key [result], once [act] has set it *)
}.

(** [self]: the fields of [ToolCallAgent] and those the class adds. *)
Record Planner : Type := mkPlanner {
  base : Agent;
  active_plan_id : option string;
  step_execution_tracker : gmap string Tracked;
  current_step_index : option nat
}.

Definition set_base (a : Agent) (p : Planner) : Planner :=
  {| base := a; active_plan_id := active_plan_id p;
     step_execution_tracker := step_execution_tracker p;
     current_step_index := current_step_index p |}.

Definition set_tracker (t : gmap string Tracked) (p : Planner) : Planner :=
  {| base := base p; active_plan_id := active_plan_id p;
     step_execution_tracker := t;
     current_step_index := current_step_index p |}.

Definition set_current_step_index (i : option nat) (p : Planner) : Planner :=
  {| base := base p; active_plan_id := active_plan_id p;
     step_execution_tracker := step_execution_tracker p;
     current_step_index := i |}.

(** The dicts handed to the planning tool:
    [{"command": "get", "plan_id": plan_id}] and
    [{"command": "mark_step", "plan_id": plan_id, "step_index": i,
      "step_status": status}]. *)
Record Inputs (JSON : Type) : Type := mkInputs {
  get_input : string → JSON;
  mark_step_input : string → nat → string → JSON
}.
Arguments get_input {JSON}.
Arguments mark_step_input {JSON}.

(** ** Reading the current step off the plan text *)

(** The lines that follow the first line which, stripped, is [Steps:]. *)
Fixpoint after_steps_line (plan_lines : list string) : option (list string) :=
  match plan_lines with
  | [] => None
  | line :: rest =>
      if String.eqb (strip line) "Steps:" then Some rest else after_steps_line rest
  end.

(** [for i, line in enumerate(lines, start=0)], from index [i] on: the first
    line that shows the mark of a step not started or in progress. *)
Fixpoint first_open_line (lines : list string) (i : nat) : option nat :=
  match lines with
  | [] => None
  | line :: rest =>
      if contains "[ ]" line || contains "[→]" line then Some i
      else first_open_line rest (S i)
  end.

(** The index [_get_current_step_index] finds in a plan text. *)
Definition scan_plan_text (plan : string) : option nat :=
  lines ← after_steps_line (splitlines plan);
  first_open_line lines 0.

Section Methods.
Context {World JSON : Type} (env : Env World JSON) (inputs : Inputs JSON).

(** The state the methods run over: the outside world and [self]. *)
Definition St : Type := World * Planner.

Definition get_planner : M St Planner := gets snd.

Definition modify_planner (g : Planner → Planner) : M St unit :=
  modify (λ '(w, p), (w, g p)).

Definition call {A} (op : World → Result A * World) : M St A :=
  λ '(w, p), let '(r, w') := op w in (r, (w', p)).

(** A method of [ToolCallAgent], run on [self]. *)
Definition on_agent {A} (m : M (World * Agent) A) : M St A :=
  λ '(w, p),
    let '(r, (w', a')) := m (w, base p) in (r, (w', set_base a' p)).

(** [get_plan]: the text of the plan, or whatever [result.output] is. *)
Definition get_plan : M St (option string) :=
  p ← get_planner;
  if negb (truthy_opt (active_plan_id p))
  then mret (Some "No active plan. Please create a plan first.")
  else
    result ← call (tools_execute env "planning"
                     (get_input inputs (default "" (active_plan_id p))));
    match result with
    | ResultObject r => mret (output r)
    | PlainString s => mret (Some s)
    end.

(** [_get_current_step_index]. *)
Definition _get_current_step_index : M St (option nat) :=
  p ← get_planner;
  if negb (truthy_opt (active_plan_id p)) then mret None
  else
    plan ← get_plan;
    try_except
      (match plan with
       | None =>
           raise (new_exc AttributeError
                    "'NoneType' object has no attribute 'splitlines'")
       | Some text =>
           match scan_plan_text text with
           | Some i =>
               call (tools_execute env "planning"
                       (mark_step_input inputs (default "" (active_plan_id p))
                          i "in_progress"));;
               mret (Some i)
           | None => mret None
           end
       end)
      (λ _, mret None).

(** The user message [think] starts with. *)
Definition plan_prompt (plan : option string) (next_step_prompt : option string)
    : string :=
  "CURRENT PLAN STATUS:" +:+ nl +:+ default "None" plan +:+ nl +:+ nl
  +:+ default "None" next_step_prompt.

(** What [think] does with the first proposed call once
    [ToolCallAgent.think] has answered [result]. *)
Definition track (result : bool) (p : Planner) : Planner :=
  match tool_calls (base p) with
  | latest_tool_call :: _ =>
      let tool := name (function latest_tool_call) in
      match current_step_index p with
      | Some i =>
          if result
             && negb (String.eqb tool "planning")
             && negb (bool_decide (tool ∈ special_tool_names (base p)))
          then
            set_tracker
              (<[call_id latest_tool_call :=
                   {| step_index := i; tool_name := tool;
                      status := "pending"; result := None |}]>
                 (step_execution_tracker p)) p
          else p
      | None => p
      end
  | [] => p
  end.

Definition think : M St bool :=
  p ← get_planner;
  prompt ←
    (if truthy_opt (active_plan_id p)
     then plan ← get_plan; mret (Some (plan_prompt plan (next_step_prompt (base p))))
     else mret (next_step_prompt (base p)));
  modify_planner
    (λ p', set_base
             (set_messages
                (messages (base p')
                 ++ [{| role := User; content := prompt; msg_tool_calls := [];
                        msg_name := None; tool_call_id := None;
                        msg_base64_image := None |}])
                (base p')) p');;
  index ← _get_current_step_index;
  modify_planner (set_current_step_index index);;
  result ← on_agent (ToolCallAgent.think env);
  modify_planner (track result);;
  mret result.

(** [update_plan_status]. *)
Definition update_plan_status (tool_call_id : string) : M St unit :=
  p ← get_planner;
  if negb (truthy_opt (active_plan_id p)) then mret tt
  else
    match step_execution_tracker p !! tool_call_id with
    | None => mret tt
    | Some tracker =>
        if negb (String.eqb (status tracker) "completed") then mret tt
        else
          try_except
            (call (tools_execute env "planning"
                     (mark_step_input inputs (default "" (active_plan_id p))
                        (step_index tracker) "completed"));;
             mret tt)
            (λ _, mret tt)
    end.

Definition act : M St string :=
  result ← on_agent (ToolCallAgent.act env);
  p ← get_planner;
  match tool_calls (base p) with
  | latest_tool_call :: _ =>
      match step_execution_tracker p !! call_id latest_tool_call with
      | Some tracker =>
          modify_planner
            (set_tracker
               (<[call_id latest_tool_call :=
                    {| step_index := step_index tracker;
                       tool_name := tool_name tracker;
                       status := "completed"; result := Some result |}]>
                  (step_execution_tracker p)));;
          let tool := name (function latest_tool_call) in
          (if negb (String.eqb tool "planning")
              && negb (bool_decide (tool ∈ special_tool_names (base p)))
           then update_plan_status (call_id latest_tool_call)
           else mret tt);;
          mret result
      | None => mret result
      end
  | [] => mret result
  end.

(** [ReActAgent.step]. *)
Definition step : M St string :=
  should_act ← think;
  if negb should_act then mret "Thinking complete - no action needed"
  else act.

End Methods.

End PlanningAgent.

(** * Plan texts, as the planning agent reads them *)

Module PlanTextSpec.
Import PlanningFlow PlanningAgent.

(** No line boundary of [splitlines] starts anywhere in [s]. *)
Fixpoint one_line (s : string) : bool :=
  match s with
  | EmptyString => true
  | String _ s' => negb (bool_decide (is_Some (skip_line_break s))) && one_line s'
  end.

(** A character that starts no line boundary, whatever follows it. *)
Definition plain_char (c : ascii) : bool :=
  let n := nat_of_ascii c in
  negb ((n =? 13) || (10 <=? n) && (n <=? 12) || (28 <=? n) && (n <=? 30)
        || (n =? 194) || (n =? 226))%nat.

(** [s] is empty or starts with an ASCII character. *)
Definition starts_ascii (s : string) : bool :=
  match s with
  | EmptyString => true
  | String c _ => (nat_of_ascii c <? 128)%nat
  end.

(** [sep.join(lines) + sep], for [sep] the newline. *)
Fixpoint unlines (lines : list string) : string :=
  match lines with
  | [] => EmptyString
  | line :: rest => line +:+ nl +:+ unlines rest
  end.

(** The line of step [i]. *)
Definition step_line (i : nat) (status step : string) : string :=
  str_of_nat i +:+ ". " +:+ PlanningFlow.status_mark status +:+ " " +:+ step.

(** A step text that stays on its line and shows no mark of an open step. *)
Definition clean_step (step : string) : bool :=
  one_line step && negb (contains "[ ]" step) && negb (contains "[→]" step).

(** The lines of the steps, as [_generate_plan_text_from_storage] writes
    them when no step has notes. *)
Fixpoint step_lines (i : nat) (steps statuses : list string) : list string :=
  match steps, statuses with
  | step :: steps', status :: statuses' =>
      step_line i status step :: step_lines (S i) steps' statuses'
  | _, _ => []
  end.

(** Every character of [s] is a decimal digit. *)
Fixpoint digits (s : string) : bool :=
  match s with
  | EmptyString => true
  | String c s' =>
      (48 <=? nat_of_ascii c)%nat && (nat_of_ascii c <=? 57)%nat && digits s'
  end.

(** An ASCII character that is not whitespace. *)
Definition solid (c : ascii) : bool :=
  (32 <? nat_of_ascii c)%nat && (nat_of_ascii c <? 128)%nat.

(** A plan that the text scan can read: title, plan id and progress figure
    stay on their line; every step text stays on its line and shows no mark
    of an open step; every status is one of the four; and no step has
    notes. *)
Definition readable {World JSON : Type} (env : PlanningFlow.Env World JSON)
    (plan_id : string) (p : PlanningFlow.PlanData) : Prop :=
  one_line (default "Untitled Plan" (PlanningFlow.title p)) = true
  ∧ one_line plan_id = true
  ∧ (∀ completed total,
       one_line (PlanningFlow.format_progress env completed total) = true)
  ∧ Forall (λ step, clean_step step = true) (PlanningFlow.get_steps p)
  ∧ Forall (λ status, status ∈ PlanningFlow.get_all_statuses)
      (PlanningFlow.get_step_statuses p)
  ∧ Forall (λ notes, notes = "") (PlanningFlow.get_step_notes p).

End PlanTextSpec.

(** * The web search tool ([app/tool/web_search.py]) *)

Module WebSearch.

(** The keys of [_search_engine], in insertion order. *)
Definition engine_names : list string := ["google"; "baidu"; "duckduckgo"; "bing"].

(** What [tenacity] raises when the last attempt has failed. *)
Definition retry_error : PyExc := new_exc OtherException "RetryError".

Section Search.
Context {World : Type}.

(** [str.lower], Python's own: its table of cased characters is no part of
    the model. *)
Context (str_lower : string → string).

(** [_get_engine_order]; [engine] is [config.search_config.engine], [None]
    when there is no search configuration. *)
Definition _get_engine_order (engine : option string) : list string :=
  let preferred :=
    if truthy_opt engine then str_lower (default "" engine) else "google" in
  let engine_order := if bool_decide (preferred ∈ engine_names) then [preferred] else [] in
  foldl (λ order key, if bool_decide (key ∈ order) then order else order ++ [key])
    engine_order engine_names.

(** [engine.perform_search(query, num_results)], read into a list, for the
    engine under a key: it answers links or raises. *)
Context (perform_search : string → string → Z → World → Result (list string) * World).

(** [_perform_search_with_engine] under its [retry] decorator, with
    [attempts] attempts left: a failed attempt is tried again until the
    attempts are used up. *)
Fixpoint search_with_retry (attempts : nat) (engine_name query : string)
    (num_results : Z) : M World (list string) :=
  match attempts with
  | O => raise retry_error
  | S attempts' =>
      try_except
        (perform_search engine_name query num_results)
        (λ _, search_with_retry attempts' engine_name query num_results)
  end.

(** [stop_after_attempt(3)]. *)
Definition _perform_search_with_engine : string → string → Z → M World (list string) :=
  search_with_retry 3.

(** [for engine_name in engine_order] of [execute]. *)
Fixpoint search_engines (engine_order : list string) (query : string)
    (num_results : Z) : M World (list string) :=
  match engine_order with
  | [] => mret []
  | engine_name :: rest =>
      try_except
        (links ← _perform_search_with_engine engine_name query num_results;
         mret (Some links))
        (λ _, mret None) ≫= λ found : option (list string),
      match found with
      | Some (link :: links) => mret (link :: links)
      | _ => search_engines rest query num_results
      end
  end.

Definition execute (engine : option string) (query : string) (num_results : Z)
    : M World (list string) :=
  search_engines (_get_engine_order engine) query num_results.

End Search.

End WebSearch.

(** * Concrete collaborators, for running the model *)

Module Demo.
Import PlanningFlow.

(** Modelled from the spec: the plan store of [app/tool/planning.py], which
    is not under [src/]. Section 3 gives a plan its steps, one status per step
    ([not_started] at creation) and notes; section 6 gives the store the
    operations [create], [get] and [mark_step] and asks for an error on a plan
    id it does not hold. *)
Definition store_create (plan_id title : string) (steps : list string)
    (ps : Plans) : Plans :=
  <[plan_id := {| PlanningFlow.title := Some title;
                  PlanningFlow.steps := Some steps;
                  step_statuses := Some (replicate (length steps) NOT_STARTED);
                  step_notes := Some (replicate (length steps) "") |}]> ps.

Definition store_mark_step (plan_id : string) (i : nat) (status : string)
    (ps : Plans) : Result Plans :=
  match ps !! plan_id with
  | None => Raise (new_exc OtherException ("No plan found with ID: " +:+ plan_id))
  | Some p =>
      if (i <? length (get_steps p))%nat && (i <? length (get_step_statuses p))%nat
      then Return (<[plan_id :=
                       set_step_statuses (<[i := status]> (get_step_statuses p)) p]> ps)
      else Raise (new_exc OtherException ("Invalid step_index: " +:+ str_of_nat i))
  end.

Definition store_down : PyExc := new_exc OtherException "plan store unavailable".

(** A flow environment over a trivial world: the model proposes no tool call,
    the store is the one above when [store_up] and raises otherwise, and
    every executor run ends as [run] says, leaving the agent in [after]. *)
Definition flow_env (store_up : bool) (run : Result string) (after : AgentState)
    : Env unit unit :=
  {| llm_ask_tool := λ _ _ w, (Return (Some []), w);
     llm_ask := λ _ _ w, (Return "summary", w);
     PlanningFlow.json_loads := λ _, None;
     planning_execute := λ _ _ w ps, (Return ps, w);
     planning_create := λ plan_id title steps w ps,
       if store_up then (Return (store_create plan_id title steps ps), w)
       else (Raise store_down, w);
     planning_mark_step := λ plan_id i status w ps,
       if store_up then (store_mark_step plan_id i status ps, w)
       else (Raise store_down, w);
     planning_get := λ plan_id w ps,
       if store_up then (Return ("plan " +:+ plan_id), w) else (Raise store_down, w);
     agent_run := λ _ _ w, (run, w);
     agent_state := λ _ _, Some after;
     format_progress := λ _ _, "0.0" |}.

Definition three_steps : list string :=
  ["Analyze request"; "Execute task"; "Verify results"].

(** A flow with one agent and the plan [plan_1]. *)
Definition flow_with (p : PlanData) : Flow :=
  {| agents := {["default" := 0%nat]};
     primary_agent_key := Some "default";
     executor_keys := ["default"];
     active_plan_id := "plan_1";
     current_step_index := None;
     plans := {["plan_1" := p]} |}.

(** A plan whose status and note lists are not there yet. *)
Definition bare_plan : PlanData :=
  {| PlanningFlow.title := Some "Demo"; PlanningFlow.steps := Some three_steps;
     step_statuses := None; step_notes := None |}.

(** The plan as the store creates it. *)
Definition fresh_plan : PlanData :=
  {| PlanningFlow.title := Some "Demo"; PlanningFlow.steps := Some three_steps;
     step_statuses := Some (replicate 3 NOT_STARTED);
     step_notes := Some (replicate 3 "") |}.

Definition boom : PyExc := new_exc OtherException "boom".

(** The three-step plan with its first step in progress, and the flow that
    is working on that step. *)
Definition in_progress_plan : PlanData :=
  {| PlanningFlow.title := Some "Demo"; PlanningFlow.steps := Some three_steps;
     step_statuses := Some [IN_PROGRESS; NOT_STARTED; NOT_STARTED];
     step_notes := Some (replicate 3 "") |}.

Definition stuck_flow : Flow :=
  set_current_step_index (Some 0%nat) (flow_with in_progress_plan).

(** The three-step plan with every step completed. *)
Definition completed_plan : PlanData :=
  {| PlanningFlow.title := Some "Demo"; PlanningFlow.steps := Some three_steps;
     step_statuses := Some (replicate 3 COMPLETED);
     step_notes := Some (replicate 3 "") |}.

(** An environment whose store is down and whose executors always raise. *)
Definition failing_env : Env unit unit := flow_env false (Raise boom) IDLE.

(** An environment whose store answers a creation and holds no plan
    afterwards. *)
Definition lost_env : Env unit unit :=
  let up := flow_env true (Return "done") IDLE in
  {| llm_ask_tool := llm_ask_tool up; llm_ask := llm_ask up;
     PlanningFlow.json_loads := PlanningFlow.json_loads up;
     planning_execute := planning_execute up;
     planning_create := λ _ _ _ w _, (Return ∅, w);
     planning_mark_step := planning_mark_step up;
     planning_get := planning_get up;
     agent_run := agent_run up; agent_state := agent_state up;
     format_progress := format_progress up |}.

(** A flow whose primary key names no agent. *)
Definition orphan_flow : Flow :=
  {| agents := {["default" := 0%nat]};
     primary_agent_key := Some "missing";
     executor_keys := ["default"];
     active_plan_id := "plan_1";
     current_step_index := None;
     plans := {["plan_1" := fresh_plan]} |}.

(** A plan whose first step is tagged for the agent under the key [code],
    and a flow with that agent beside the default one. *)
Definition tagged_plan : PlanData :=
  {| PlanningFlow.title := Some "Demo";
     PlanningFlow.steps := Some ["[CODE] write the parser"; "review the parser"];
     step_statuses := Some (replicate 2 NOT_STARTED);
     step_notes := Some (replicate 2 "") |}.

Definition team_flow : Flow :=
  {| agents := <["code" := 1%nat]> {["default" := 0%nat]};
     primary_agent_key := Some "default";
     executor_keys := ["default"; "code"];
     active_plan_id := "plan_1";
     current_step_index := None;
     plans := {["plan_1" := tagged_plan]} |}.

End Demo.

(** A trivial world for agents: the log of the tools run so far. *)
Module AgentDemo.
Import ToolCallAgent.

(** An agent environment whose model answers [answer], whose tools answer by
    name through [tool] and log their name, and whose argument texts parse
    unless they are ["not json"]; the parsed payload is kept as its text.
    The tool names of the demos are ASCII, and are lowered as such. *)
Definition agent_env (answer : Result (option Response))
    (tool : string → Result ToolValue) : Env (list string) string :=
  {| ask_tool := λ _ _ _ _ w, (answer, w);
     json_loads := λ s, if String.eqb s "not json" then None else Some s;
     tools_execute := λ name _ w, (tool name, w ++ [name]);
     should_finish_execution := _should_finish_execution;
     str_lower := lower |}.

Definition agent_with (policy : ToolChoice) (calls : list ToolCall)
    (log : list Message) : Agent :=
  {| agent_name := "toolcall";
     state := RUNNING;
     messages := log;
     system_prompt := Some "You are an agent that can execute tool calls";
     next_step_prompt := None;
     available_tools := ["create_chat_completion"; "terminate"; "echo"];
     tool_choices := policy;
     special_tool_names := default_special_tool_names;
     tool_calls := calls;
     _current_base64_image := None;
     max_observe := None |}.

(** An agent whose special-tool list was set empty. *)
Definition agent_without_special : Agent :=
  {| agent_name := "toolcall";
     state := RUNNING;
     messages := [];
     system_prompt := None;
     next_step_prompt := None;
     available_tools := ["create_chat_completion"; "terminate"; "echo"];
     tool_choices := AUTO;
     special_tool_names := [];
     tool_calls := [];
     _current_base64_image := None;
     max_observe := None |}.

Definition call_of (id tool args : string) : ToolCall :=
  {| call_id := id; function := {| name := tool; arguments := args |} |}.

(** Tools that answer with their own name; [echo] also captures an image. *)
Definition name_tool (name : string) : Result ToolValue :=
  if String.eqb name "echo"
  then Return (ResultObject {| output := Some "echoed"; error := None;
                               base64_image := Some "aW1n"; system := None |})
  else Return (PlainString name).

(** Three pending calls: a tool that captures an image, the terminate tool,
    and a tool that is not registered; observations are cut to 30
    characters. *)
Definition three_calls : list ToolCall :=
  [call_of "call_1" "echo" "{}"; call_of "call_2" "terminate" "{}";
   call_of "call_3" "frobnicate" "{}"].

Definition busy_agent : Agent :=
  {| agent_name := "toolcall";
     state := RUNNING;
     messages := [user_message "go"];
     system_prompt := None;
     next_step_prompt := None;
     available_tools := ["create_chat_completion"; "terminate"; "echo"];
     tool_choices := AUTO;
     special_tool_names := default_special_tool_names;
     tool_calls := three_calls;
     _current_base64_image := Some "stale";
     max_observe := Some 30%Z |}.

(** A retry failure whose cause is the token limit, and a [ValueError] with
    the same cause. *)
Definition retry_error : PyExc :=
  {| exc_class := OtherException; exc_str := "RetryError";
     exc_cause := Some (TokenLimitExceeded, "Request may exceed input token limit") |}.

Definition value_error_from_limit : PyExc :=
  {| exc_class := ValueError; exc_str := "invalid request";
     exc_cause := Some (TokenLimitExceeded, "Request may exceed input token limit") |}.

End AgentDemo.

(** A pipeline agent with its six tools, before and after [initialize]. *)
Module PipelineDemo.
Import ToolCallAgent PipelineAgent.

Definition new_pipeline : Pipeline :=
  {| base :=
       {| agent_name := "pipeline_agent";
          state := RUNNING;
          messages := [];
          system_prompt := Some "You run the workflow";
          next_step_prompt := None;
          available_tools :=
            ["wireframe_generator"; "wireframe_html"; "html_to_api_doc";
             "html_to_vue"; "html_to_springboot"; "terminate"];
          tool_choices := AUTO;
          special_tool_names := default_special_tool_names;
          tool_calls := [];
          _current_base64_image := None;
          max_observe := None |};
     pipeline_status := [];
     output_files := ∅ |}.

Definition ready_pipeline : Pipeline :=
  (initialize (World := list string) (Some "ui.png") None None (Some "com.demo")
     ([], new_pipeline)).2.2.

End PipelineDemo.

(** A planning agent at work on step 0 of [plan_1], whose pending call of a
    tool that is not registered is tracked. *)
Module PlannerDemo.
Import ToolCallAgent PlanningAgent.

Definition demo_inputs : Inputs string :=
  {| get_input := λ plan_id, "get " +:+ plan_id;
     mark_step_input := λ plan_id i status,
       "mark_step " +:+ plan_id +:+ " " +:+ str_of_nat i +:+ " " +:+ status |}.

Definition busy_planner : Planner :=
  {| base := AgentDemo.agent_with AUTO [AgentDemo.call_of "call_1" "frobnicate" "{}"]
               [user_message "go"];
     active_plan_id := Some "plan_1";
     step_execution_tracker :=
       {["call_1" := {| step_index := 0; tool_name := "frobnicate";
                        status := "pending"; result := None |}]};
     current_step_index := Some 0%nat |}.

(** A plan whose completed first step has notes. *)
Definition noted_plan : PlanningFlow.PlanData :=
  {| PlanningFlow.title := Some "Demo";
     PlanningFlow.steps := Some ["Analyze request"; "Execute task"];
     PlanningFlow.step_statuses := Some ["completed"; "not_started"];
     PlanningFlow.step_notes := Some ["done early"; ""] |}.

(** A model that proposes one call of [echo], and a planning tool that
    answers a plan text whose step 1 is open. *)
Definition reading_env : Env (list string) string :=
  AgentDemo.agent_env
    (Return (Some (mkResponse (Some "look it up")
                     [AgentDemo.call_of "call_9" "echo" "{}"])))
    (λ name,
       if String.eqb name "planning"
       then Return (PlainString ("Plan: Demo (ID: plan_1)" +:+ nl +:+ "Steps:" +:+ nl
                                 +:+ "0. [✓] Analyze request" +:+ nl
                                 +:+ "1. [ ] Execute task" +:+ nl))
       else AgentDemo.name_tool name).

(** A planning agent that has not thought yet: nothing pending, nothing
    tracked. *)
Definition idle_planner : Planner :=
  {| base := AgentDemo.agent_with AUTO [] [user_message "go"];
     active_plan_id := Some "plan_1";
     step_execution_tracker := ∅;
     current_step_index := None |}.

End PlannerDemo.

(** * Specification-side readings of the flow *)

Module FlowSpec.
Import PlanningFlow.

(** [l[i] = status] as the orchestrator writes it itself: the list is first
    grown with [not_started] entries when it is too short. *)
Definition write_status (l : list string) (i : nat) (status : string) : list string :=
  <[i := status]> (l ++ replicate (S i - length l) NOT_STARTED).

(** The plan store and the orchestrator's own write agree: every [mark_step]
    that answers has left the plan it was asked about with the status list
    that the orchestrator's local write would have left, and nothing else
    changed. (A store that raises on an index its list does not have, and
    otherwise assigns in place, is such a store.) *)
Definition store_agrees {World JSON : Type} (env : Env World JSON) : Prop :=
  ∀ plan_id i status w ps ps' w',
    planning_mark_step env plan_id i status w ps = (Return ps', w') →
    ∃ p, ps !! plan_id = Some p
         ∧ ps' = <[plan_id :=
                     set_step_statuses
                       (write_status (get_step_statuses p) i status) p]> ps.

(** The active plan of a flow, when select-next finds one. *)
Definition active_plan (f : Flow) : option PlanData :=
  if truthy (active_plan_id f) then plans f !! active_plan_id f else None.

(** The first active step of a plan: index and text. *)
Definition first_active (p : PlanData) : option (nat * string) :=
  scan_steps (get_steps p) (get_step_statuses p) 0.

(** What select-next answers on a flow. *)
Definition next_step (f : Flow) : option (nat * StepInfo) :=
  p ← active_plan f;
  '(i, step) ← first_active p;
  Some (i, {| text := step; type := lower <$> re_search_tag step |}).

(** The flow after select-next has marked its step. *)
Definition mark_selected (f : Flow) : Flow :=
  match active_plan f with
  | Some p =>
      match first_active p with
      | Some (i, _) =>
          set_plans
            (<[active_plan_id f :=
                 set_step_statuses
                   (mark_in_progress_locally (get_step_statuses p) i) p]> (plans f)) f
      | None => f
      end
  | None => f
  end.

(** The status list of the active plan, as stored. *)
Definition stored_statuses (f : Flow) : list string :=
  match plans f !! active_plan_id f with
  | Some p => get_step_statuses p
  | None => []
  end.

(** The step list of the active plan. *)
Definition stored_steps (f : Flow) : list string :=
  match plans f !! active_plan_id f with
  | Some p => get_steps p
  | None => []
  end.

(** The flow after step [current_step_index] has been marked completed. *)
Definition mark_completed_flow (f : Flow) : Flow :=
  match current_step_index f, plans f !! active_plan_id f with
  | Some i, Some p =>
      set_plans
        (<[active_plan_id f :=
             set_step_statuses
               (mark_completed_locally (get_step_statuses p) i) p]> (plans f)) f
  | _, _ => f
  end.

(** The flow after the plan text has been rendered from storage. *)
Definition pad_flow (f : Flow) : Flow :=
  match plans f !! active_plan_id f with
  | Some p => set_plans (<[active_plan_id f := pad_plan p]> (plans f)) f
  | None => f
  end.

(** The text rendered from storage. *)
Definition storage_text {World JSON : Type} (env : Env World JSON) (f : Flow) : string :=
  match plans f !! active_plan_id f with
  | Some p => render_plan env (active_plan_id f) p
  | None => "Error: Plan with ID " +:+ active_plan_id f +:+ " not found"
  end.

(** [hasattr(executor, "state") and executor.state == AgentState.FINISHED],
    read in the world [w]. *)
Definition finished_at {World JSON : Type} (env : Env World JSON)
    (executor : option AgentId) (w : World) : bool :=
  match executor with
  | Some a => bool_decide (agent_state env a w = Some FINISHED)
  | None => false
  end.

(** The result text of a step whose executor raised [e]. *)
Definition step_error_text (index : option nat) (e : PyExc) : string :=
  "Error executing step " +:+ str_of_index index +:+ ": " +:+ exc_str e.

(** ** The step type tag, read from the step text *)

(** Every character of [t] is one of [A-Z_]. *)
Fixpoint tag_chars (t : string) : bool :=
  match t with
  | EmptyString => true
  | String c t' => is_tag_char c && tag_chars t'
  end.

(** [step] holds the bracketed tag [t] right after [pre]: a match of the
    pattern at offset [len(pre)]. *)
Definition tag_at (step pre t : string) : Prop :=
  t ≠ "" ∧ tag_chars t = true ∧ ∃ post, step = pre +:+ "[" +:+ t +:+ "]" +:+ post.

(** [t] is the leftmost bracketed tag of [step]. *)
Definition leftmost_tag (step t : string) : Prop :=
  ∃ pre, tag_at step pre t
         ∧ ∀ pre' t', tag_at step pre' t' →
             (String.length pre ≤ String.length pre')%nat.

(** The arguments a proposed call makes the plan from: the call names the
    planning tool and its argument text parses. *)
Definition plan_arguments {World JSON : Type} (env : Env World JSON)
    (tool_call : PlanToolCall) : option JSON :=
  if String.eqb (call_name tool_call) "planning"
  then json_loads env (call_arguments tool_call)
  else None.

End FlowSpec.

(** * Specification-side readings of the agent *)

Module AgentSpec.
Import ToolCallAgent.

(** The agent once [think] has put the next-step prompt in the log. *)
Definition with_prompt (a : Agent) : Agent :=
  if truthy_opt (next_step_prompt a)
  then set_messages (messages a ++ [user_message (default "" (next_step_prompt a))]) a
  else a.

(** The request [think] sends to the model. *)
Definition ask {World JSON : Type} (env : Env World JSON) (a : Agent) (w : World)
    : Result (option Response) * World :=
  ask_tool env (messages a)
    (if truthy_opt (system_prompt a) then system_prompt a else None)
    (available_tools a) (tool_choices a) w.

(** The free text and the proposed calls of an answer. *)
Definition response_text (response : option Response) : string :=
  match response with
  | Some r => or_default (response_content r) ""
  | None => ""
  end.

Definition response_calls (response : option Response) : list ToolCall :=
  match response with
  | Some r => response_tool_calls r
  | None => []
  end.

(** The text of the message [think] logs on a token-limit failure. *)
Definition token_limit_text (token_limit_error : string) : string :=
  "Maximum token limit reached, cannot continue execution: " +:+ token_limit_error.

(** A message that neither proposes nor answers a tool call. *)
Definition no_tool_call (m : Message) : Prop :=
  msg_tool_calls m = [] ∧ tool_call_id m = None ∧ role m ≠ Tool.

(** What one tool call of [act] produced: the observation [execute_tool]
    answered, the observation as logged and returned, and the media
    attached to its message. *)
Record Outcome : Type := mkOutcome {
  raw : string;
  observation : string;
  media : option string
}.

Definition message_of (command : ToolCall) (o : Outcome) : Message :=
  tool_message (observation o) (call_id command) (name (function command)) (media o).

(** The state in which a call starts: the captured media cleared. *)
Definition reset_media {World : Type} (s : World * Agent) : World * Agent :=
  (s.1, set_current_base64_image None s.2).

(** The state a call leaves: its message appended to the log. *)
Definition log_message {World : Type} (m : Message) (s : World * Agent)
    : World * Agent :=
  (s.1, set_messages (messages s.2 ++ [m]) s.2).

(** The media a call captures: the image of its tool's result, when the call
    gets as far as running the tool. *)
Definition captured_media {World JSON : Type} (env : Env World JSON)
    (command : ToolCall) (s : World * Agent) : option string :=
  let name := name (function command) in
  if negb (truthy name) then None
  else if negb (bool_decide (name ∈ available_tools s.2)) then None
  else
    match json_loads env (or_default (Some (arguments (function command))) "{}") with
    | None => None
    | Some args =>
        match tools_execute env name args s.1 with
        | (Return result, _) => value_image result
        | (Raise _, _) => None
        end
    end.

(** The calls are run one after the other, in list order: each starts, media
    cleared, from the state its predecessor left, its observation is cut to
    [max_observe], and its message carries the media captured by that very
    call. *)
Inductive runs_in_order {World JSON : Type} (env : Env World JSON)
    : list ToolCall → World * Agent → list Outcome → World * Agent → Prop :=
  | runs_nil s : runs_in_order env [] s [] s
  | runs_cons command rest s text s1 o outcomes s2 :
      execute_tool env command (reset_media s) = (Return text, s1) →
      o = {| raw := text;
             observation := observe (max_observe s.2) text;
             media := captured_media env command (reset_media s) |} →
      runs_in_order env rest (log_message (message_of command o) s1) outcomes s2 →
      runs_in_order env (command :: rest) s (o :: outcomes) s2.

(** The error observations of [execute_tool]. *)
Definition parse_error_text (name : string) : string :=
  "Error: " +:+ "Error parsing arguments for " +:+ name +:+ ": Invalid JSON format".

Definition tool_problem_text (name : string) (e : PyExc) : string :=
  "Error: " +:+ "⚠️ Tool '" +:+ name +:+ "' encountered a problem: " +:+ exc_str e.

Definition error_observation (name : string) (e : PyExc) : string :=
  if is_JSONDecodeError e then parse_error_text name else tool_problem_text name e.

(** The observation of a result, the failure of [str(result)] included. *)
Definition observation_text (name : string) (result : ToolValue) : string :=
  if value_bool result
  then
    match value_str result with
    | Return s => "Observed output of cmd `" +:+ name +:+ "` executed:" +:+ nl +:+ s
    | Raise e => error_observation name e
    end
  else "Cmd `" +:+ name +:+ "` completed with no output".

(** The agent after the special-tool hook, and after the media capture. *)
Definition after_special {World JSON : Type} (env : Env World JSON)
    (name : string) (result : ToolValue) (a : Agent) : Agent :=
  if _is_special_tool env a name && should_finish_execution env name result
  then set_state FINISHED a
  else a.

Definition after_media (result : ToolValue) (a : Agent) : Agent :=
  match value_image result with
  | Some image => set_current_base64_image (Some image) a
  | None => a
  end.

(** What no method of the agent changes: its name, its prompts, its tools,
    its policy, its special tool names and its observation limit. *)
Definition same_setup (a a' : Agent) : Prop :=
  agent_name a' = agent_name a
  ∧ system_prompt a' = system_prompt a
  ∧ next_step_prompt a' = next_step_prompt a
  ∧ available_tools a' = available_tools a
  ∧ tool_choices a' = tool_choices a
  ∧ special_tool_names a' = special_tool_names a
  ∧ max_observe a' = max_observe a.

(** [a'] is [a] some steps later: the same setup, a message log that has
    only grown at its end, and a state that is the old one or FINISHED. *)
Definition later (a a' : Agent) : Prop :=
  same_setup a a'
  ∧ (∃ appended, messages a' = messages a ++ appended)
  ∧ (state a' = state a ∨ state a' = FINISHED).

(** The observation of a result whose [str] fails. *)
Definition unprintable_text (name : string) : string :=
  "Error: " +:+ "⚠️ Tool '" +:+ name +:+ "' encountered a problem: "
  +:+ "__str__ returned non-string (type NoneType)".

End AgentSpec.

(** * Specification-side reading of the web search *)

Module WebSearchSpec.

Section Fallback.
Context {World : Type}.
Context (perform_search : string → string → Z → World → Result (list string) * World).
Context (query : string) (num_results : Z).

(** Up to [n] attempts of one engine, each starting in the world the one
    before it left: the answer of the first attempt that does not raise, or
    [None] when every attempt has raised. *)
Inductive Attempts (engine_name : string)
    : nat → World → option (list string) → World → Prop :=
  | attempts_used w : Attempts engine_name 0 w None w
  | attempts_answer n w links w' :
      perform_search engine_name query num_results w = (Return links, w') →
      Attempts engine_name (S n) w (Some links) w'
  | attempts_again n w e w1 answer w' :
      perform_search engine_name query num_results w = (Raise e, w1) →
      Attempts engine_name n w1 answer w' →
      Attempts engine_name (S n) w answer w'.

(** The search over the engines in order: each engine has three attempts;
    the first engine that answers links ends the search with them; an engine
    that answers no link, or whose three attempts all raise, passes the turn
    to the next; when no engine is left the answer is the empty list. *)
Inductive Fallback : list string → World → list string → World → Prop :=
  | fallback_none w : Fallback [] w [] w
  | fallback_found engine_name rest w link links w' :
      Attempts engine_name 3 w (Some (link :: links)) w' →
      Fallback (engine_name :: rest) w (link :: links) w'
  | fallback_next engine_name rest w answer w1 links w' :
      Attempts engine_name 3 w answer w1 →
      answer = None ∨ answer = Some [] →
      Fallback rest w1 links w' →
      Fallback (engine_name :: rest) w links w'.

End Fallback.

(** What the decorated search makes of the outcome of its attempts. *)
Definition retried (answer : option (list string)) : Result (list string) :=
  match answer with
  | Some links => Return links
  | None => Raise WebSearch.retry_error
  end.

End WebSearchSpec.

(** * Facts about the planning orchestrator *)

Module FlowFacts.
Import PlanningFlow FlowSpec.

Ltac unfold_monad :=
  unfold mbind, mret, M_bind, M_ret, bind, ret, raise, try_except,
    gets, modify, get_state, put_state in *.

Lemma is_active_in_progress : is_active IN_PROGRESS = true.
Proof. reflexivity. Qed.

Lemma is_active_not_started : is_active NOT_STARTED = true.
Proof. reflexivity. Qed.

Lemma is_active_iff status :
  is_active status = true ↔ status = NOT_STARTED ∨ status = IN_PROGRESS.
Proof.
  unfold is_active, get_active_statuses. rewrite bool_decide_eq_true.
  rewrite !elem_of_cons, elem_of_nil. tauto.
Qed.

(** ** The local writes *)

Lemma length_mark_in_progress_locally l i :
  length (mark_in_progress_locally l i) = Nat.max (length l) (S i).
Proof.
  unfold mark_in_progress_locally.
  destruct (Nat.ltb_spec i (length l)).
  - rewrite length_insert. lia.
  - rewrite !length_app, length_replicate. simpl. lia.
Qed.

Lemma lookup_mark_in_progress_locally l i :
  mark_in_progress_locally l i !! i = Some IN_PROGRESS.
Proof.
  unfold mark_in_progress_locally.
  destruct (Nat.ltb_spec i (length l)).
  - by rewrite list_lookup_insert_eq.
  - rewrite lookup_app_r; rewrite length_app, length_replicate; [|lia].
    by replace (i - (length l + (i - length l)))%nat with 0%nat by lia.
Qed.

Lemma status_at_mark_in_progress_locally_ne l i j :
  j ≠ i → (j < i ∨ i < length l)%nat →
  status_at (mark_in_progress_locally l i) j = status_at l j.
Proof.
  intros Hne Hj. unfold status_at, mark_in_progress_locally.
  destruct (Nat.ltb_spec i (length l)).
  - by rewrite list_lookup_insert_ne.
  - assert (j < i)%nat as Hlt by lia.
    destruct (decide (j < length l)%nat).
    + by rewrite !lookup_app_l by (rewrite ?length_app, ?length_replicate; lia).
    + rewrite lookup_app_l by (rewrite ?length_app, ?length_replicate; lia).
      rewrite lookup_app_r by lia.
      rewrite lookup_replicate_2 by lia.
      by rewrite lookup_ge_None_2 by lia.
Qed.

Lemma mark_in_progress_locally_id l i :
  l !! i = Some IN_PROGRESS → mark_in_progress_locally l i = l.
Proof.
  intros Hi. unfold mark_in_progress_locally.
  pose proof (lookup_lt_Some _ _ _ Hi) as Hlt.
  destruct (Nat.ltb_spec i (length l)); [|lia].
  by apply list_insert_id.
Qed.

Lemma write_status_in_range l i status :
  (i < length l)%nat → write_status l i status = <[i := status]> l.
Proof.
  intros Hlt. unfold write_status.
  replace (S i - length l)%nat with 0%nat by lia.
  simpl. by rewrite app_nil_r.
Qed.

(** The two local writes of the orchestrator are [write_status]. *)
Lemma mark_in_progress_locally_write l i :
  mark_in_progress_locally l i = write_status l i IN_PROGRESS.
Proof.
  unfold mark_in_progress_locally.
  destruct (Nat.ltb_spec i (length l)).
  - by rewrite write_status_in_range.
  - unfold write_status.
    replace (S i - length l)%nat with (S (i - length l)) by lia.
    rewrite replicate_S_end, app_assoc.
    rewrite insert_app_r_alt; rewrite length_app, length_replicate; [|lia].
    by replace (i - (length l + (i - length l)))%nat with 0%nat by lia.
Qed.

Lemma mark_completed_locally_write l i :
  mark_completed_locally l i = write_status l i COMPLETED.
Proof. done. Qed.

(** ** The scan *)

Lemma scan_steps_bounds steps sts k i step :
  scan_steps steps sts k = Some (i, step) →
  (k ≤ i < k + length steps)%nat ∧ steps !! (i - k)%nat = Some step.
Proof.
  revert k. induction steps as [|s steps IH]; intros k; simpl; [done|].
  destruct (is_active (status_at sts k)) eqn:Hact.
  - intros [= <- <-]. split; [lia|]. by rewrite Nat.sub_diag.
  - intros H. apply IH in H as [? Hl]. split; [lia|].
    replace (i - k)%nat with (S (i - S k)) by lia. done.
Qed.

Lemma scan_steps_first steps sts k i step :
  scan_steps steps sts k = Some (i, step) →
  is_active (status_at sts i) = true
  ∧ ∀ j, (k ≤ j < i)%nat → is_active (status_at sts j) = false.
Proof.
  revert k. induction steps as [|s steps IH]; intros k; simpl; [done|].
  destruct (is_active (status_at sts k)) eqn:Hact.
  - intros [= <- <-]. split; [done|]. intros; lia.
  - intros H. destruct (IH _ H) as [? Hbefore]. split; [done|].
    intros j Hj. destruct (decide (j = k)) as [->|]; [done|].
    apply Hbefore. lia.
Qed.

Lemma scan_steps_none steps sts k :
  scan_steps steps sts k = None →
  ∀ j, (k ≤ j < k + length steps)%nat → is_active (status_at sts j) = false.
Proof.
  revert k. induction steps as [|s steps IH]; intros k; simpl.
  - intros _ j; lia.
  - destruct (is_active (status_at sts k)) eqn:Hact; [done|].
    intros H j Hj. destruct (decide (j = k)) as [->|]; [done|].
    apply (IH _ H). lia.
Qed.

(** The scan only looks at the statuses up to the step it stops at. *)
Lemma scan_steps_agree steps sts sts' k i step :
  scan_steps steps sts k = Some (i, step) →
  (∀ j, (k ≤ j < i)%nat → status_at sts' j = status_at sts j) →
  is_active (status_at sts' i) = true →
  scan_steps steps sts' k = Some (i, step).
Proof.
  revert k. induction steps as [|s steps IH]; intros k; simpl; [done|].
  destruct (is_active (status_at sts k)) eqn:Hact.
  - intros [= <- <-] _ ->. done.
  - intros H Hsame Hi.
    pose proof (scan_steps_bounds _ _ _ _ _ H) as [Hb _].
    rewrite Hsame by lia. rewrite Hact.
    apply IH; [done| |done]. intros j Hj. apply Hsame. lia.
Qed.

(** ** Select-next as a function of the flow *)

Section SelectNext.
Context {World JSON : Type} (env : Env World JSON).
Hypothesis store_ok : store_agrees env.

(** Whatever the store does, select-next answers [next_step] and leaves the
    flow as [mark_selected] says. *)
Lemma select_next_run w f :
  ∃ w', _get_current_step_info env (w, f) = (Return (next_step f), (w', mark_selected f)).
Proof.
  unfold _get_current_step_info, next_step, mark_selected, active_plan, first_active.
  unfold_monad. unfold get_flow. unfold_monad. simpl.
  destruct (truthy (active_plan_id f)); simpl; [|by eexists].
  destruct (plans f !! active_plan_id f) as [p|] eqn:Hp; simpl; [|by eexists].
  destruct (scan_steps (get_steps p) (get_step_statuses p) 0)
    as [[i step]|] eqn:Hscan; simpl; [|by eexists].
  unfold store_call, store_step_statuses, modify_flow. unfold_monad.
  destruct (planning_mark_step env (active_plan_id f) i IN_PROGRESS w (plans f))
    as [[ps'|e] w'] eqn:Hmark; simpl.
  - destruct (store_ok _ _ _ _ _ _ _ Hmark) as (p' & Hp' & ->).
    rewrite Hp in Hp'. injection Hp' as <-.
    rewrite mark_in_progress_locally_write. by eexists.
  - by eexists.
Qed.

End SelectNext.

Lemma active_plan_mark_selected f p i step :
  active_plan f = Some p → first_active p = Some (i, step) →
  active_plan (mark_selected f)
  = Some (set_step_statuses (mark_in_progress_locally (get_step_statuses p) i) p).
Proof.
  intros Hp Hscan. unfold mark_selected. rewrite Hp, Hscan.
  unfold active_plan in *. simpl.
  destruct (truthy (active_plan_id f)); [|done].
  by rewrite lookup_insert_eq.
Qed.

Lemma get_step_statuses_set l p : get_step_statuses (set_step_statuses l p) = l.
Proof. done. Qed.

Lemma get_steps_set l p : get_steps (set_step_statuses l p) = get_steps p.
Proof. done. Qed.

Lemma first_active_after_mark p i step :
  first_active p = Some (i, step) →
  first_active (set_step_statuses (mark_in_progress_locally (get_step_statuses p) i) p)
  = Some (i, step).
Proof.
  unfold first_active. intros Hscan.
  rewrite get_step_statuses_set, get_steps_set.
  eapply scan_steps_agree; [exact Hscan| |].
  - intros j Hj. apply status_at_mark_in_progress_locally_ne; lia.
  - unfold status_at. by rewrite lookup_mark_in_progress_locally.
Qed.

Lemma next_step_mark_selected f : next_step (mark_selected f) = next_step f.
Proof.
  unfold next_step.
  destruct (active_plan f) as [p|] eqn:Hp.
  - destruct (first_active p) as [[i step]|] eqn:Hscan.
    + rewrite (active_plan_mark_selected _ _ _ _ Hp Hscan). simpl.
      by rewrite (first_active_after_mark _ _ _ Hscan), Hscan.
    + unfold mark_selected. by rewrite Hp, Hscan, Hp.
  - unfold mark_selected. by rewrite Hp, Hp.
Qed.

Lemma mark_selected_idem f : mark_selected (mark_selected f) = mark_selected f.
Proof.
  destruct (active_plan f) as [p|] eqn:Hp.
  - destruct (first_active p) as [[i step]|] eqn:Hscan.
    + pose proof (active_plan_mark_selected _ _ _ _ Hp Hscan) as Hp'.
      pose proof (first_active_after_mark _ _ _ Hscan) as Hscan'.
      unfold mark_selected at 1. rewrite Hp', Hscan'.
      rewrite get_step_statuses_set.
      rewrite mark_in_progress_locally_id by apply lookup_mark_in_progress_locally.
      unfold mark_selected. rewrite Hp, Hscan. simpl.
      unfold set_plans, set_step_statuses; simpl. f_equal.
      by rewrite insert_insert_eq.
    + unfold mark_selected at 2. rewrite Hp, Hscan.
      unfold mark_selected. by rewrite Hp, Hscan.
  - unfold mark_selected at 2. rewrite Hp. unfold mark_selected. by rewrite Hp.
Qed.

(** ** Mark-completed and plan text as functions of the flow *)

Lemma length_mark_completed_locally l i :
  length (mark_completed_locally l i) = Nat.max (length l) (S i).
Proof.
  unfold mark_completed_locally.
  rewrite length_insert, length_app, length_replicate. lia.
Qed.

Lemma length_pad_to n d l : length (pad_to n d l) = Nat.max (length l) n.
Proof. unfold pad_to. rewrite length_app, length_replicate. lia. Qed.

Lemma status_at_pad_to n l j :
  status_at (pad_to n NOT_STARTED l) j = status_at l j.
Proof.
  unfold status_at, pad_to.
  destruct (decide (j < length l)%nat).
  - by rewrite lookup_app_l by lia.
  - rewrite lookup_app_r by lia.
    rewrite (lookup_ge_None_2 l j) by lia.
    destruct (replicate _ _ !! _) as [x|] eqn:Hx; [|done].
    by apply lookup_replicate in Hx as [-> _].
Qed.

Section Runs.
Context {World JSON : Type} (env : Env World JSON).

Lemma mark_completed_run w f :
  store_agrees env →
  ∃ w', _mark_step_completed env (w, f) = (Return tt, (w', mark_completed_flow f)).
Proof.
  intros store_ok.
  unfold _mark_step_completed, mark_completed_flow.
  unfold_monad. unfold get_flow. unfold_monad. simpl.
  destruct (current_step_index f) as [i|]; [|by eexists].
  unfold store_call, store_step_statuses, modify_flow. unfold_monad.
  destruct (planning_mark_step env (active_plan_id f) i COMPLETED w (plans f))
    as [[ps'|e] w'] eqn:Hmark; simpl.
  - destruct (store_ok _ _ _ _ _ _ _ Hmark) as (p' & Hp' & ->).
    rewrite Hp'. rewrite mark_completed_locally_write. by eexists.
  - destruct (plans f !! active_plan_id f); by eexists.
Qed.

Lemma generate_plan_text_run w f :
  _generate_plan_text_from_storage env (w, f)
  = (Return (storage_text env f), (w, pad_flow f)).
Proof.
  unfold _generate_plan_text_from_storage, storage_text, pad_flow.
  unfold_monad. unfold get_flow, modify_flow. unfold_monad. simpl.
  by destruct (plans f !! active_plan_id f).
Qed.

(** [_get_plan_text] always answers: with the store's text, or with the text
    rendered from storage. *)
Lemma get_plan_text_run w f :
  ∃ plan_text w' f',
    _get_plan_text env (w, f) = (Return plan_text, (w', f'))
    ∧ (f' = f ∨ f' = pad_flow f).
Proof.
  unfold _get_plan_text. unfold_monad. unfold get_flow, store_read. unfold_monad.
  simpl.
  destruct (planning_get env (active_plan_id f) w (plans f)) as [[t|e] w'] eqn:Hget.
  - exists t, w', f. auto.
  - rewrite generate_plan_text_run. exists (storage_text env f), w', (pad_flow f). auto.
Qed.

End Runs.

(** ** The stored lists across the three operations *)

Lemma active_plan_lookup f p : active_plan f = Some p → plans f !! active_plan_id f = Some p.
Proof. unfold active_plan. by destruct (truthy _). Qed.

Lemma next_step_inv f i info :
  next_step f = Some (i, info) →
  ∃ p step, active_plan f = Some p ∧ first_active p = Some (i, step)
            ∧ info = {| text := step; type := lower <$> re_search_tag step |}.
Proof.
  unfold next_step. destruct (active_plan f) as [p|]; [|done]. simpl.
  destruct (first_active p) as [[i' step]|] eqn:Hscan; [|done]. simpl.
  intros [= <- <-]. by exists p, step.
Qed.

Lemma stored_mark_selected f :
  stored_steps (mark_selected f) = stored_steps f
  ∧ (length (stored_statuses f) ≤ length (stored_statuses (mark_selected f)))%nat
  ∧ ∀ i info, next_step f = Some (i, info) →
      stored_statuses (mark_selected f) !! i = Some IN_PROGRESS
      ∧ length (stored_statuses (mark_selected f))
        = Nat.max (length (stored_statuses f)) (S i)
      ∧ ∀ j, j ≠ i → (j < i ∨ i < length (stored_statuses f))%nat →
          status_at (stored_statuses (mark_selected f)) j
          = status_at (stored_statuses f) j.
Proof.
  unfold mark_selected.
  destruct (active_plan f) as [p|] eqn:Hp.
  - pose proof (active_plan_lookup _ _ Hp) as Hl.
    destruct (first_active p) as [[i step]|] eqn:Hscan.
    + unfold stored_steps, stored_statuses. simpl.
      rewrite lookup_insert_eq, Hl, get_step_statuses_set, get_steps_set.
      rewrite length_mark_in_progress_locally.
      split; [done|]. split; [lia|].
      intros i' info Hnext. apply next_step_inv in Hnext as (p' & step' & Hp' & Hs' & _).
      rewrite Hp in Hp'. injection Hp' as <-. rewrite Hscan in Hs'.
      injection Hs' as <- <-.
      split; [apply lookup_mark_in_progress_locally|]. split; [done|].
      intros j ??. by apply status_at_mark_in_progress_locally_ne.
    + split; [done|]. split; [done|].
      intros i info Hnext. apply next_step_inv in Hnext as (p' & step' & Hp' & Hs' & _).
      rewrite Hp in Hp'. injection Hp' as <-. by rewrite Hscan in Hs'.
  - split; [done|]. split; [done|].
    intros i info Hnext. apply next_step_inv in Hnext as (p' & step' & Hp' & _).
    by rewrite Hp in Hp'.
Qed.

Lemma stored_mark_completed_flow f :
  stored_steps (mark_completed_flow f) = stored_steps f
  ∧ (length (stored_statuses f) ≤ length (stored_statuses (mark_completed_flow f)))%nat
  ∧ ∀ i, current_step_index f = Some i → is_Some (plans f !! active_plan_id f) →
      length (stored_statuses (mark_completed_flow f))
      = Nat.max (length (stored_statuses f)) (S i).
Proof.
  unfold mark_completed_flow.
  destruct (current_step_index f) as [i|]; [|by repeat split].
  destruct (plans f !! active_plan_id f) as [p|] eqn:Hp.
  - unfold stored_steps, stored_statuses. simpl.
    rewrite lookup_insert_eq, Hp, get_step_statuses_set, get_steps_set.
    rewrite length_mark_completed_locally.
    split; [done|]. split; [lia|]. by intros ? [= <-] _.
  - split; [done|]. split; [done|]. by intros ? _ [? ?].
Qed.

Lemma stored_pad_flow f :
  stored_steps (pad_flow f) = stored_steps f
  ∧ (length (stored_statuses f) ≤ length (stored_statuses (pad_flow f)))%nat
  ∧ (∀ j, status_at (stored_statuses (pad_flow f)) j = status_at (stored_statuses f) j)
  ∧ ∀ p l, plans f !! active_plan_id f = Some p → step_statuses p = Some l →
      length (stored_statuses (pad_flow f))
      = Nat.max (length l) (length (stored_steps f)).
Proof.
  unfold pad_flow.
  destruct (plans f !! active_plan_id f) as [p|] eqn:Hp; [|by repeat split].
  unfold stored_steps, stored_statuses. simpl.
  rewrite lookup_insert_eq, Hp.
  unfold pad_plan, get_step_statuses, get_steps. simpl.
  destruct (step_statuses p) as [l|] eqn:Hst; simpl.
  - rewrite length_pad_to. split; [done|]. split; [lia|].
    split; [intros j; apply status_at_pad_to|].
    intros ? ? [= <-] Hl. rewrite Hst in Hl. by injection Hl as <-.
  - split; [done|]. split; [done|]. split; [done|].
    intros ? ? [= <-] Hl. by rewrite Hst in Hl.
Qed.

(** ** The type tag of a step *)

(** The tag is the first bracketed run of capitals and underscores, in lower
    case. *)
Example step_type_tags :
  (λ step, lower <$> re_search_tag step) <$>
    ["[SEARCH] find the paper"; "write it up [CODE] [TEST]"; "no tag here";
     "[Search] lower case"; "[] empty"; "[[MY_TAG]] nested"; "[OPEN never closed";
     "[A-B] then [C]"]
  = [Some "search"; Some "code"; None; None; None; Some "my_tag"; None; Some "c"].
Proof. reflexivity. Qed.

(** ** The demo store keeps the store's promise *)

Lemma flow_env_store_agrees store_up run after :
  store_agrees (Demo.flow_env store_up run after).
Proof.
  intros plan_id i status w ps ps' w'. simpl.
  destruct store_up; [|done].
  unfold Demo.store_mark_step.
  destruct (ps !! plan_id) as [p|] eqn:Hp; [|done].
  destruct (Nat.ltb_spec i (length (get_steps p))); [|done].
  destruct (Nat.ltb_spec i (length (get_step_statuses p))); [|done].
  intros [= <- <-]. exists p. by rewrite write_status_in_range.
Qed.

(** ** Select-next twice *)

(** C4. Calling select-next twice in a row, with nothing in between, gives the
    same answer both times: the same index, which is the first step in step
    order whose status is [not_started] or [in_progress], with the same text
    and type tag; and the second call leaves the flow, status list included,
    exactly as the first call left it (the step is already [in_progress]).
    The plan store is outside the code: it may answer or raise at either call,
    and when it answers it has written what the orchestrator's own write
    would have ([store_agrees]). *)
Theorem select_next_idempotent {World JSON : Type} (env : Env World JSON) w f :
  store_agrees env →
  let first := _get_current_step_info env (w, f) in
  let second := _get_current_step_info env first.2 in
  ∃ r, first.1 = Return r
       ∧ second.1 = Return r
       ∧ second.2.2 = first.2.2
       ∧ match r with
         | Some (i, info) =>
             ∃ step, stored_steps f !! i = Some step
                     ∧ info = {| text := step; type := lower <$> re_search_tag step |}
                     ∧ is_active (status_at (stored_statuses f) i) = true
                     ∧ (∀ j, (j < i)%nat →
                          is_active (status_at (stored_statuses f) j) = false)
                     ∧ stored_statuses first.2.2 !! i = Some IN_PROGRESS
         | None =>
             match active_plan f with
             | Some p => ∀ j, (j < length (get_steps p))%nat →
                           is_active (status_at (get_step_statuses p) j) = false
             | None => True
             end
         end.
Proof.
  intros store_ok first second. subst first second.
  destruct (select_next_run env store_ok w f) as [w' ->]. simpl.
  destruct (select_next_run env store_ok w' (mark_selected f)) as [w'' ->]. simpl.
  exists (next_step f). split; [done|].
  split; [by rewrite next_step_mark_selected|].
  split; [apply mark_selected_idem|].
  destruct (next_step f) as [[i info]|] eqn:Hnext.
  - destruct (next_step_inv _ _ _ Hnext) as (p & step & Hp & Hscan & ->).
    pose proof (active_plan_lookup _ _ Hp) as Hl.
    unfold first_active in Hscan.
    destruct (scan_steps_bounds _ _ _ _ _ Hscan) as [_ Hstep].
    destruct (scan_steps_first _ _ _ _ _ Hscan) as [Hact Hbefore].
    rewrite Nat.sub_0_r in Hstep.
    exists step. unfold stored_steps, stored_statuses at 1 2. rewrite Hl.
    repeat split; try done.
    + intros j Hj. apply Hbefore. lia.
    + by destruct (stored_mark_selected f) as (_ & _ & H); destruct (H _ _ Hnext).
  - unfold next_step in Hnext.
    destruct (active_plan f) as [p|]; [|done]. simpl in Hnext.
    destruct (first_active p) as [[i step]|] eqn:Hscan; [done|].
    intros j Hj. apply (scan_steps_none _ _ _ Hscan). lia.
Qed.

(** The theorem at the flow that has just created the three-step default
    plan, the store being up. *)
Lemma select_next_idempotent_witness :
  let env := Demo.flow_env true (Return "done") IDLE in
  let first := _get_current_step_info env (tt, Demo.flow_with Demo.fresh_plan) in
  let second := _get_current_step_info env first.2 in
  store_agrees env
  ∧ ∃ r, first.1 = Return r ∧ second.1 = Return r ∧ second.2.2 = first.2.2
         ∧ match r with
           | Some (i, info) =>
               ∃ step, stored_steps (Demo.flow_with Demo.fresh_plan) !! i = Some step
                       ∧ info = {| text := step; type := lower <$> re_search_tag step |}
                       ∧ is_active (status_at (stored_statuses
                                                 (Demo.flow_with Demo.fresh_plan)) i) = true
                       ∧ (∀ j, (j < i)%nat →
                            is_active (status_at (stored_statuses
                                                    (Demo.flow_with Demo.fresh_plan)) j)
                            = false)
                       ∧ stored_statuses first.2.2 !! i = Some IN_PROGRESS
           | None =>
               match active_plan (Demo.flow_with Demo.fresh_plan) with
               | Some p => ∀ j, (j < length (get_steps p))%nat →
                             is_active (status_at (get_step_statuses p) j) = false
               | None => True
               end
           end.
Proof.
  split.
  - apply flow_env_store_agrees.
  - apply (select_next_idempotent (Demo.flow_env true (Return "done") IDLE) tt
             (Demo.flow_with Demo.fresh_plan)).
    apply flow_env_store_agrees.
Defined.

(** The scenario of the spec: on the fresh three-step plan select-next
    answers index 0 with no type tag and the status becomes in progress; once
    step 0 is completed it answers index 1. *)
Example select_next_scenario :
  let env := Demo.flow_env true (Return "done") IDLE in
  let first := _get_current_step_info env (tt, Demo.flow_with Demo.fresh_plan) in
  let marked :=
    _mark_step_completed env (first.2.1, set_current_step_index (Some 0%nat) first.2.2) in
  let second := _get_current_step_info env marked.2 in
  first.1 = Return (Some (0%nat, {| text := "Analyze request"; type := None |}))
  ∧ stored_statuses first.2.2 = [IN_PROGRESS; NOT_STARTED; NOT_STARTED]
  ∧ second.1 = Return (Some (1%nat, {| text := "Execute task"; type := None |}))
  ∧ stored_statuses second.2.2 = [COMPLETED; IN_PROGRESS; NOT_STARTED].
Proof. vm_compute. done. Qed.

(** ** The length of the status list *)

(** C1, as stated, fails: on a three-step plan whose status list is not there
    yet, with the plan store down, select-next leaves a status list of length
    1; and marking step 0 completed from the same plan does so too. *)
Lemma status_padding_counterexample :
  let env := Demo.flow_env false (Return "done") IDLE in
  let selected :=
    (_get_current_step_info env (tt, Demo.flow_with Demo.bare_plan)).2.2 in
  let completed :=
    (_mark_step_completed env
       (tt, set_current_step_index (Some 0%nat) (Demo.flow_with Demo.bare_plan))).2.2 in
  length (stored_steps selected) = 3%nat
  ∧ stored_statuses selected = [IN_PROGRESS]
  ∧ (length (stored_statuses selected) < length (stored_steps selected))%nat
  ∧ length (stored_steps completed) = 3%nat
  ∧ stored_statuses completed = [COMPLETED]
  ∧ (length (stored_statuses completed) < length (stored_steps completed))%nat.
Proof. vm_compute. repeat split; lia. Qed.

(** C1, amended. The three operations that read or write the plan
    (select-next, mark-completed, plan text) never change the step list and
    never shorten the status list, so a status list at least as long as the
    step list stays so. A shorter list is padded only as far as the
    orchestrator writes: after select-next has answered step [i], and after
    step [i] has been marked completed, the list has length
    [max old (i + 1)]; rendering the plan text from storage pads a stored list
    to the step count. Select-next itself reads a missing entry as
    [not_started] ([status_at]). The plan store, when it answers, has written
    what the orchestrator's own write would have ([store_agrees]). *)
Theorem status_padding {World JSON : Type} (env : Env World JSON) w f :
  store_agrees env →
  let selected := _get_current_step_info env (w, f) in
  let completed := _mark_step_completed env (w, f) in
  let rendered := _generate_plan_text_from_storage env (w, f) in
  let shown := _get_plan_text env (w, f) in
  (∀ f', f' ∈ [selected.2.2; completed.2.2; rendered.2.2; shown.2.2] →
     stored_steps f' = stored_steps f
     ∧ (length (stored_statuses f) ≤ length (stored_statuses f'))%nat
     ∧ ((length (stored_steps f) ≤ length (stored_statuses f))%nat →
        (length (stored_steps f') ≤ length (stored_statuses f'))%nat))
  ∧ (∀ i info, selected.1 = Return (Some (i, info)) →
       length (stored_statuses selected.2.2)
       = Nat.max (length (stored_statuses f)) (S i))
  ∧ (∀ i, current_step_index f = Some i → is_Some (plans f !! active_plan_id f) →
       length (stored_statuses completed.2.2)
       = Nat.max (length (stored_statuses f)) (S i))
  ∧ (∀ p l, plans f !! active_plan_id f = Some p → step_statuses p = Some l →
       length (stored_statuses rendered.2.2)
       = Nat.max (length l) (length (stored_steps f))).
Proof.
  intros store_ok selected completed rendered shown.
  subst selected completed rendered shown.
  destruct (select_next_run env store_ok w f) as [w1 ->].
  destruct (mark_completed_run env w f store_ok) as [w2 ->].
  rewrite generate_plan_text_run.
  destruct (get_plan_text_run env w f) as (t & w3 & f3 & -> & Hf3). simpl.
  destruct (stored_mark_selected f) as (Hs1 & Hl1 & Hi1).
  destruct (stored_mark_completed_flow f) as (Hs2 & Hl2 & Hi2).
  destruct (stored_pad_flow f) as (Hs3 & Hl3 & _ & Hi3).
  split; [|split; [|split]].
  - intros f' Hf'.
    assert (stored_steps f' = stored_steps f
            ∧ (length (stored_statuses f) ≤ length (stored_statuses f'))%nat)
      as [Hs Hl].
    { rewrite !elem_of_cons, elem_of_nil in Hf'.
      destruct Hf' as [->|[->|[->|[->|[]]]]]; try done.
      by destruct Hf3 as [->| ->]. }
    split; [done|]. split; [done|]. rewrite Hs. lia.
  - intros i info [= Hnext]. by destruct (Hi1 _ _ Hnext) as (_ & ? & _).
  - done.
  - done.
Qed.

(** The theorem at the demo flow with the store down: what the
    counterexample runs. *)
Lemma status_padding_witness :
  let env := Demo.flow_env false (Return "done") IDLE in
  let f := Demo.flow_with Demo.bare_plan in
  let selected := _get_current_step_info env (tt, f) in
  store_agrees env
  ∧ (∀ i info, selected.1 = Return (Some (i, info)) →
       length (stored_statuses selected.2.2)
       = Nat.max (length (stored_statuses f)) (S i)).
Proof.
  split.
  - apply flow_env_store_agrees.
  - apply (status_padding (Demo.flow_env false (Return "done") IDLE) tt
             (Demo.flow_with Demo.bare_plan)).
    apply flow_env_store_agrees.
Defined.

(** ** A step whose executor raises *)

Section StepFailure.
Context {World JSON : Type} (env : Env World JSON).

Lemma stored_same_or_padded f f' :
  f' = f ∨ f' = pad_flow f →
  current_step_index f' = current_step_index f
  ∧ stored_steps f' = stored_steps f
  ∧ ∀ j, status_at (stored_statuses f') j = status_at (stored_statuses f) j.
Proof.
  intros [->| ->]; [done|].
  destruct (stored_pad_flow f) as (Hs & _ & Hst & _).
  split; [|done]. unfold pad_flow. by destruct (plans f !! active_plan_id f).
Qed.

(** When the executor's run raises, [_execute_step] answers the error text
    and the flow is as [_get_plan_text] left it. *)
Lemma execute_step_failure w f executor step_info plan_text shown e after :
  _get_plan_text env (w, f) = (Return plan_text, shown) →
  run_executor env executor
    (step_prompt plan_text (current_step_index f) (text step_info)) shown
  = (Raise e, after) →
  _execute_step env executor step_info (w, f)
  = (Return (step_error_text (current_step_index f) e), after)
  ∧ stored_steps after.2 = stored_steps f
  ∧ ∀ j, status_at (stored_statuses after.2) j = status_at (stored_statuses f) j.
Proof.
  intros Hshown Hrun.
  destruct (get_plan_text_run env w f) as (t & w1 & f1 & Hshown' & Hf1).
  rewrite Hshown in Hshown'. injection Hshown' as -> ->.
  destruct (stored_same_or_padded _ _ Hf1) as (Hidx & Hsteps & Hst).
  assert (after.2 = f1) as Hafter.
  { unfold run_executor in Hrun. destruct executor as [a|].
    - unfold call in Hrun. simpl in Hrun.
      destruct (agent_run env a _ w1) as [[r|e'] w2]; simplify_eq. done.
    - unfold raise in Hrun. simplify_eq. done. }
  split; [|by rewrite Hafter].
  unfold _execute_step. unfold_monad. rewrite Hshown. simpl.
  unfold get_flow. unfold_monad. simpl. rewrite Hidx.
  by rewrite Hrun.
Qed.

(** One turn of the loop of [execute] in which the executor raises. *)
Lemma execute_loop_failure w f fuel result i step_info selected plan_text shown e after :
  _get_current_step_info env (w, f) = (Return (Some (i, step_info)), selected) →
  let f1 := set_current_step_index (Some i) selected.2 in
  let executor := get_executor f1 (type step_info) in
  _get_plan_text env (selected.1, f1) = (Return plan_text, shown) →
  run_executor env executor (step_prompt plan_text (Some i) (text step_info)) shown
  = (Raise e, after) →
  execute_loop env (S fuel) result (w, f)
  = if finished_at env executor after.1
    then (Return (Some (result +:+ step_error_text (Some i) e +:+ nl)), after)
    else execute_loop env fuel (result +:+ step_error_text (Some i) e +:+ nl) after.
Proof.
  intros Hsel f1 executor Hshown Hrun.
  destruct (execute_step_failure _ _ executor step_info _ _ _ _ Hshown Hrun)
    as (Hstep & _).
  simpl. unfold_monad. rewrite Hsel.
  unfold modify_flow, get_flow. unfold_monad.
  destruct selected as [w1 f0]. simpl in *.
  fold f1. fold executor. rewrite Hstep.
  unfold executor_finished. destruct after as [w2 f2]. simpl.
  fold (finished_at env executor w2).
  by destruct (finished_at env executor w2).
Qed.

End StepFailure.

(** C9. When the executor's run raises while a plan step is executed, the
    orchestrator catches the exception and answers the text
    [Error executing step <i>: <exception text>] as the step's result; it does
    not mark the step: the step list and the status of every step are as
    select-next left them (in progress, for the step at hand, when the plan
    store agrees with the orchestrator's own write); and the loop of
    [execute] does not abort: it adds the text to its result and goes on to
    its next turn (or ends with that result when the executor reports
    FINISHED). *)
Theorem executor_exception_is_recorded {World JSON : Type} (env : Env World JSON)
    w f fuel result i step_info selected plan_text shown e after :
  _get_current_step_info env (w, f) = (Return (Some (i, step_info)), selected) →
  let f1 := set_current_step_index (Some i) selected.2 in
  let executor := get_executor f1 (type step_info) in
  _get_plan_text env (selected.1, f1) = (Return plan_text, shown) →
  run_executor env executor (step_prompt plan_text (Some i) (text step_info)) shown
  = (Raise e, after) →
  let error_text := "Error executing step " +:+ str_of_nat i +:+ ": " +:+ exc_str e in
  _execute_step env executor step_info (selected.1, f1) = (Return error_text, after)
  ∧ stored_steps after.2 = stored_steps selected.2
  ∧ (∀ j, status_at (stored_statuses after.2) j
          = status_at (stored_statuses selected.2) j)
  ∧ (store_agrees env → status_at (stored_statuses after.2) i = IN_PROGRESS)
  ∧ execute_loop env (S fuel) result (w, f)
    = if finished_at env executor after.1
      then (Return (Some (result +:+ error_text +:+ nl)), after)
      else execute_loop env fuel (result +:+ error_text +:+ nl) after.
Proof.
  intros Hsel f1 executor Hshown Hrun error_text.
  destruct (execute_step_failure env _ _ executor step_info _ _ _ _ Hshown Hrun)
    as (Hstep & Hsteps & Hst).
  split; [exact Hstep|]. split; [exact Hsteps|]. split; [exact Hst|].
  split.
  - intros store_ok.
    destruct (select_next_run env store_ok w f) as [w1 Hrun1].
    rewrite Hsel in Hrun1. injection Hrun1 as Hnext Hselected.
    destruct (stored_mark_selected f) as (_ & _ & Hmarked).
    destruct (Hmarked i step_info) as (Hi & _); [done|].
    rewrite Hst. subst f1. rewrite Hselected. simpl.
    change (stored_statuses (set_current_step_index (Some i) (mark_selected f)))
      with (stored_statuses (mark_selected f)).
    unfold status_at. by rewrite Hi.
  - exact (execute_loop_failure env w f fuel result i step_info selected
             plan_text shown e after Hsel Hshown Hrun).
Qed.

(** The theorem on the fresh three-step plan, with the store down and an
    executor that raises: the result of the step is the error text, step 0
    stays in progress, and the loop goes on. *)
Lemma executor_exception_is_recorded_witness :
  let env := Demo.failing_env in
  let f := Demo.flow_with Demo.fresh_plan in
  let step_info := {| text := "Analyze request"; type := None |} in
  let selected := (_get_current_step_info env (tt, f)).2 in
  let f1 := set_current_step_index (Some 0%nat) selected.2 in
  let shown := _get_plan_text env (selected.1, f1) in
  let after := shown.2 in
  _execute_step env (Some 0%nat) step_info (selected.1, f1)
  = (Return ("Error executing step " +:+ str_of_nat 0 +:+ ": " +:+ "boom"), after)
  ∧ stored_steps after.2 = stored_steps selected.2
  ∧ (∀ j, status_at (stored_statuses after.2) j
          = status_at (stored_statuses selected.2) j)
  ∧ (store_agrees env → status_at (stored_statuses after.2) 0 = IN_PROGRESS)
  ∧ execute_loop env 1 "" (tt, f)
    = execute_loop env 0
        ("" +:+ ("Error executing step " +:+ str_of_nat 0 +:+ ": " +:+ "boom") +:+ nl)
        after.
Proof.
  intros env f step_info selected f1 shown after.
  apply (executor_exception_is_recorded env tt f 0 "" 0 step_info selected
           (storage_text env f1) after Demo.boom after).
  - reflexivity.
  - reflexivity.
  - reflexivity.
Defined.

(** On that run step 0 is, and stays, in progress. *)
Example executor_exception_leaves_in_progress :
  let env := Demo.failing_env in
  let f := Demo.flow_with Demo.fresh_plan in
  let selected := (_get_current_step_info env (tt, f)).2 in
  let after :=
    (_execute_step env (Some 0%nat) {| text := "Analyze request"; type := None |}
       (selected.1, set_current_step_index (Some 0%nat) selected.2)).2 in
  stored_statuses selected.2 = [IN_PROGRESS; NOT_STARTED; NOT_STARTED]
  ∧ stored_statuses after.2 = [IN_PROGRESS; NOT_STARTED; NOT_STARTED].
Proof. vm_compute. done. Qed.

(** ** [execute] never raises *)

(** C10. [execute] never raises: whatever escapes the body of its [try] is
    answered as the string [Execution failed: <message>], a missing primary
    agent included; and when the active plan id is not in the plan store
    after plan creation, the failure string for that case is answered. The
    loop is run for any number of turns; the answer [None] stands for a loop
    that is still running after them. *)
Theorem execute_never_raises {World JSON : Type} (env : Env World JSON)
    fuel input_text w f :
  (∃ r after, execute env fuel input_text (w, f) = (Return r, after))
  ∧ (∀ e after,
       execute_body env fuel input_text (w, f) = (Raise e, after) →
       execute env fuel input_text (w, f)
       = (Return (Some ("Execution failed: " +:+ exc_str e)), after))
  ∧ (primary_agent f = None →
     execute env fuel input_text (w, f)
     = (Return (Some "Execution failed: 没有可用的主代理"), (w, f)))
  ∧ (∀ after,
       is_Some (primary_agent f) → truthy input_text = true →
       _create_initial_plan env input_text (w, f) = (Return tt, after) →
       plans after.2 !! active_plan_id after.2 = None →
       execute env fuel input_text (w, f)
       = (Return (Some ("为: " +:+ input_text +:+ " 创建计划失败")), after)).
Proof.
  split; [|split; [|split]].
  - unfold execute, try_except.
    destruct (execute_body env fuel input_text (w, f)) as [[r|e] after].
    + by exists r, after.
    + unfold_monad. by eexists _, _.
  - intros e after Hbody. unfold execute, try_except. by rewrite Hbody.
  - intros Hnone. unfold execute, execute_body. unfold_monad.
    unfold get_flow. unfold_monad. simpl. by rewrite Hnone.
  - intros after [a Ha] Hin Hcreate Hplan.
    unfold execute, execute_body. unfold_monad.
    unfold get_flow. unfold_monad. simpl. rewrite Ha, Hin. simpl.
    rewrite Hcreate. destruct after as [w' f']. simpl in *. by rewrite Hplan.
Qed.

(** The theorem at three runs of [execute]: with no agent under the primary
    key; with a plan store that raises when the plan is created; and with a
    store that answers the creation without holding the plan afterwards. *)
Lemma execute_never_raises_witness :
  let f := Demo.flow_with Demo.fresh_plan in
  (execute Demo.lost_env 5 "task" (tt, Demo.orphan_flow)
   = (Return (Some "Execution failed: 没有可用的主代理"), (tt, Demo.orphan_flow)))
  ∧ (execute Demo.failing_env 5 "task" (tt, f)
     = (Return (Some ("Execution failed: " +:+ "plan store unavailable")), (tt, f)))
  ∧ (execute Demo.lost_env 5 "task" (tt, f)
     = (Return (Some ("为: " +:+ "task" +:+ " 创建计划失败")),
        (tt, set_plans ∅ f))).
Proof.
  intros f. split; [|split].
  - destruct (execute_never_raises Demo.lost_env 5 "task" tt Demo.orphan_flow)
      as (_ & _ & Hprimary & _).
    by apply Hprimary.
  - destruct (execute_never_raises Demo.failing_env 5 "task" tt f)
      as (_ & Hescape & _).
    exact (Hescape Demo.store_down (tt, f) eq_refl).
  - destruct (execute_never_raises Demo.lost_env 5 "task" tt f)
      as (_ & _ & _ & Hplan).
    apply (Hplan (tt, set_plans ∅ f)); [by eexists|reflexivity|reflexivity|reflexivity].
Defined.

(** ** The loop of [execute] *)

Section Loop.
Context {World JSON : Type} (env : Env World JSON).

(** [_finalize_plan] always answers a summary text. *)
Lemma finalize_plan_returns s :
  ∃ summary after, _finalize_plan env s = (Return summary, after).
Proof.
  destruct s as [w f]. unfold _finalize_plan. unfold_monad.
  destruct (get_plan_text_run env w f) as (t & w1 & f1 & -> & _). simpl.
  unfold call. simpl.
  destruct (llm_ask env _ _ w1) as [[response|e] w2]; simpl; [by eexists _, _|].
  unfold get_flow. unfold_monad. simpl.
  unfold run_executor. destruct (primary_agent f1) as [agent|]; simpl.
  - unfold call. simpl.
    destruct (agent_run env agent _ w2) as [[summary|e'] w3]; by eexists _, _.
  - unfold_monad. by eexists _, _.
Qed.

(** With an empty input and a primary agent, [execute] is its loop. *)
Lemma execute_without_input fuel w f :
  is_Some (primary_agent f) →
  execute env fuel "" (w, f)
  = match execute_loop env fuel "" (w, f) with
    | (Return r, after) => (Return r, after)
    | (Raise e, after) => (Return (Some ("Execution failed: " +:+ exc_str e)), after)
    end.
Proof.
  intros [agent Hagent]. unfold execute, execute_body. unfold_monad.
  unfold get_flow. unfold_monad. simpl. rewrite Hagent. simpl.
  by destruct (execute_loop env fuel "" (w, f)) as [[r|e] after].
Qed.

End Loop.

(** When no step of the active plan is active (every step completed, say),
    select-next answers that there is none and changes nothing, and the loop
    of [execute] finalizes, once, and ends with the summary. *)
Theorem no_active_step_finalizes {World JSON : Type} (env : Env World JSON)
    w f fuel result :
  (∀ j, (j < length (stored_steps f))%nat →
     is_active (status_at (stored_statuses f) j) = false) →
  _get_current_step_info env (w, f) = (Return None, (w, f))
  ∧ ∃ summary after,
      _finalize_plan env (w, set_current_step_index None f) = (Return summary, after)
      ∧ execute_loop env (S fuel) result (w, f)
        = (Return (Some (result +:+ summary)), after).
Proof.
  intros Hdone.
  assert (_get_current_step_info env (w, f) = (Return None, (w, f))) as Hsel.
  { unfold _get_current_step_info. unfold_monad. unfold get_flow. unfold_monad. simpl.
    destruct (truthy (active_plan_id f)); simpl; [|done].
    unfold stored_steps, stored_statuses in Hdone.
    destruct (plans f !! active_plan_id f) as [p|]; simpl; [|done].
    destruct (scan_steps (get_steps p) (get_step_statuses p) 0)
      as [[i step]|] eqn:Hscan; [|done].
    destruct (scan_steps_bounds _ _ _ _ _ Hscan) as [Hb _].
    destruct (scan_steps_first _ _ _ _ _ Hscan) as [Hact _].
    rewrite Hdone in Hact by lia. done. }
  split; [done|].
  destruct (finalize_plan_returns env (w, set_current_step_index None f))
    as (summary & after & Hfin).
  exists summary, after. split; [done|].
  simpl. unfold_monad. rewrite Hsel. unfold modify_flow. unfold_monad. simpl.
  by rewrite Hfin.
Qed.

(** The theorem on the completed three-step plan. *)
Lemma no_active_step_finalizes_witness :
  let env := Demo.flow_env true (Return "done") IDLE in
  let f := Demo.flow_with Demo.completed_plan in
  _get_current_step_info env (tt, f) = (Return None, (tt, f))
  ∧ ∃ summary after,
      _finalize_plan env (tt, set_current_step_index None f) = (Return summary, after)
      ∧ execute_loop env 1 "" (tt, f) = (Return (Some ("" +:+ summary)), after).
Proof.
  intros env f. apply (no_active_step_finalizes env tt f 0 "").
  intros j Hj.
  destruct j as [|[|[|j]]]; [reflexivity|reflexivity|reflexivity|].
  exfalso. revert Hj. vm_compute. lia.
Defined.

(** The loop of [execute] need not end: with the plan store down and an
    executor whose run always raises, step 0 stays in progress and is tried
    again at every turn, so whatever the number of turns the loop is still
    running after them. *)
Lemma stuck_turn fuel result :
  execute_loop Demo.failing_env (S fuel) result (tt, Demo.stuck_flow)
  = execute_loop Demo.failing_env fuel
      (result +:+ step_error_text (Some 0%nat) Demo.boom +:+ nl) (tt, Demo.stuck_flow).
Proof.
  exact (execute_loop_failure Demo.failing_env tt Demo.stuck_flow fuel result 0
           {| text := "Analyze request"; type := None |} (tt, Demo.stuck_flow)
           (storage_text Demo.failing_env Demo.stuck_flow) (tt, Demo.stuck_flow)
           Demo.boom (tt, Demo.stuck_flow) eq_refl eq_refl eq_refl).
Qed.

Lemma stuck_forever fuel :
  ∀ result,
    execute_loop Demo.failing_env fuel result (tt, Demo.stuck_flow)
    = (Return None, (tt, Demo.stuck_flow)).
Proof.
  induction fuel as [|fuel IH]; intros result; [done|].
  by rewrite stuck_turn, IH.
Qed.

Theorem execute_can_run_forever fuel :
  (execute Demo.failing_env fuel "" (tt, Demo.flow_with Demo.fresh_plan)).1
  = Return None.
Proof.
  rewrite execute_without_input by (by eexists).
  destruct fuel as [|fuel]; [done|].
  assert (execute_loop Demo.failing_env (S fuel) ""
            (tt, Demo.flow_with Demo.fresh_plan)
          = execute_loop Demo.failing_env fuel
              ("" +:+ step_error_text (Some 0%nat) Demo.boom +:+ nl)
              (tt, Demo.stuck_flow)) as ->.
  { exact (execute_loop_failure Demo.failing_env tt (Demo.flow_with Demo.fresh_plan)
             fuel "" 0 {| text := "Analyze request"; type := None |}
             (tt, Demo.flow_with Demo.in_progress_plan)
             (storage_text Demo.failing_env Demo.stuck_flow) (tt, Demo.stuck_flow)
             Demo.boom (tt, Demo.stuck_flow) eq_refl eq_refl eq_refl). }
  by rewrite stuck_forever.
Qed.

(** ** Choosing the executor *)

(** The scan of the executor keys answers the agent under the first key
    that names one, and nothing when no key does. *)
Lemma first_executor_first (ags : gmap string AgentId) skipped key rest agent :
  Forall (λ k, ags !! k = None) skipped → ags !! key = Some agent →
  first_executor ags (skipped ++ key :: rest) = Some agent.
Proof.
  intros Hskipped Hkey. induction Hskipped as [|k skipped Hk _ IH]; simpl.
  - by rewrite Hkey.
  - by rewrite Hk.
Qed.

Lemma first_executor_none (ags : gmap string AgentId) keys :
  Forall (λ k, ags !! k = None) keys → first_executor ags keys = None.
Proof. induction 1 as [|k keys Hk _ IH]; simpl; [done|]. by rewrite Hk. Qed.

(** Either some executor key is a key of the agents, and then there is a
    first one, or none is. *)
Lemma executor_keys_cases (ags : gmap string AgentId) keys :
  (∃ skipped key rest agent,
     keys = skipped ++ key :: rest
     ∧ Forall (λ k, ags !! k = None) skipped ∧ ags !! key = Some agent)
  ∨ Forall (λ k, ags !! k = None) keys.
Proof.
  induction keys as [|k keys IH]; [by right|].
  destruct (ags !! k) as [agent|] eqn:Hk.
  - left. by exists [], k, keys, agent.
  - destruct IH as [(skipped & key & rest & agent & -> & Hskipped & Hkey)|Hnone].
    + left. exists (k :: skipped), key, rest, agent.
      split; [done|]. split; [by constructor|done].
    + right. by constructor.
Qed.

(** [get_executor] answers the agent under the step's type tag when the tag
    is not empty and is a key of the agents; otherwise the agent under the
    first executor key that is a key of the agents, the keys before it being
    passed over; and the primary agent when no executor key is a key of the
    agents. One of the last two cases always applies. *)
Theorem get_executor_routes f step_type :
  (∀ t agent, step_type = Some t → t ≠ "" → agents f !! t = Some agent →
     get_executor f step_type = Some agent)
  ∧ ((∀ t, step_type = Some t → t = "" ∨ agents f !! t = None) →
     (∀ skipped key rest agent,
        executor_keys f = skipped ++ key :: rest →
        Forall (λ k, agents f !! k = None) skipped →
        agents f !! key = Some agent →
        get_executor f step_type = Some agent)
     ∧ (Forall (λ k, agents f !! k = None) (executor_keys f) →
        get_executor f step_type = primary_agent f))
  ∧ ((∃ skipped key rest agent,
        executor_keys f = skipped ++ key :: rest
        ∧ Forall (λ k, agents f !! k = None) skipped
        ∧ agents f !! key = Some agent)
     ∨ Forall (λ k, agents f !! k = None) (executor_keys f)).
Proof.
  split; [|split; [|apply executor_keys_cases]].
  - intros t agent -> Ht Hagent. unfold get_executor. simpl.
    destruct t; [done|]. simpl. by rewrite Hagent.
  - intros Hnone.
    assert ((if truthy_opt step_type
             then step_type ≫= λ t, agents f !! t else None) = None) as Htyped.
    { destruct step_type as [t|]; [|done]. simpl.
      destruct (Hnone t eq_refl) as [->|Ht]; [done|].
      by destruct (truthy t). }
    unfold get_executor. rewrite Htyped.
    split.
    + intros skipped key rest agent -> Hskipped Hkey.
      by rewrite (first_executor_first _ _ _ _ _ Hskipped Hkey).
    + intros Hkeys. by rewrite (first_executor_none _ _ Hkeys).
Qed.

(** ** A step whose executor answers, and the end of the loop *)

Lemma status_at_write_status l i status j :
  status_at (write_status l i status) j
  = if decide (j = i) then status else status_at l j.
Proof.
  unfold status_at, write_status.
  destruct (decide (j = i)) as [->|Hne].
  - rewrite list_lookup_insert_eq; [done|].
    rewrite length_app, length_replicate. lia.
  - rewrite list_lookup_insert_ne by done.
    destruct (decide (j < length l)%nat).
    + by rewrite lookup_app_l by lia.
    + rewrite lookup_app_r by lia.
      rewrite (lookup_ge_None_2 l j) by lia.
      destruct (replicate _ _ !! _) as [x|] eqn:Hx; [|done].
      by apply lookup_replicate in Hx as [-> _].
Qed.

Lemma is_active_completed : is_active COMPLETED = false.
Proof. done. Qed.

Lemma stored_statuses_mark_selected f i info :
  next_step f = Some (i, info) →
  stored_statuses (mark_selected f) = write_status (stored_statuses f) i IN_PROGRESS
  ∧ stored_steps (mark_selected f) = stored_steps f
  ∧ active_plan_id (mark_selected f) = active_plan_id f
  ∧ is_Some (plans (mark_selected f) !! active_plan_id f).
Proof.
  intros Hnext.
  destruct (next_step_inv _ _ _ Hnext) as (p & step & Hp & Hscan & _).
  pose proof (active_plan_lookup _ _ Hp) as Hlook.
  unfold mark_selected, stored_statuses, stored_steps. rewrite Hp, Hscan, Hlook. simpl.
  rewrite lookup_insert_eq. simpl.
  by rewrite mark_in_progress_locally_write.
Qed.

Lemma stored_statuses_mark_completed f i :
  current_step_index f = Some i → is_Some (plans f !! active_plan_id f) →
  stored_statuses (mark_completed_flow f) = write_status (stored_statuses f) i COMPLETED
  ∧ stored_steps (mark_completed_flow f) = stored_steps f.
Proof.
  intros Hi [p Hp].
  unfold mark_completed_flow, stored_statuses, stored_steps. rewrite Hi, Hp. simpl.
  rewrite lookup_insert_eq. simpl.
  by rewrite mark_completed_locally_write.
Qed.

Lemma pad_flow_keeps f :
  active_plan_id (pad_flow f) = active_plan_id f
  ∧ current_step_index (pad_flow f) = current_step_index f
  ∧ agents (pad_flow f) = agents f
  ∧ primary_agent_key (pad_flow f) = primary_agent_key f
  ∧ executor_keys (pad_flow f) = executor_keys f
  ∧ (is_Some (plans f !! active_plan_id f) →
     is_Some (plans (pad_flow f) !! active_plan_id f)).
Proof.
  unfold pad_flow. destruct (plans f !! active_plan_id f) as [p|] eqn:Hp; simpl.
  - repeat split; try done. intros _. rewrite lookup_insert_eq. by eexists.
  - by rewrite Hp.
Qed.

Lemma mark_selected_keeps f :
  active_plan_id (mark_selected f) = active_plan_id f
  ∧ agents (mark_selected f) = agents f
  ∧ primary_agent_key (mark_selected f) = primary_agent_key f
  ∧ executor_keys (mark_selected f) = executor_keys f.
Proof.
  unfold mark_selected. destruct (active_plan f); [|done].
  by destruct (first_active _) as [[? ?]|].
Qed.

Lemma mark_completed_flow_keeps f :
  active_plan_id (mark_completed_flow f) = active_plan_id f
  ∧ agents (mark_completed_flow f) = agents f
  ∧ primary_agent_key (mark_completed_flow f) = primary_agent_key f
  ∧ executor_keys (mark_completed_flow f) = executor_keys f.
Proof.
  unfold mark_completed_flow. destruct (current_step_index f); [|done].
  by destruct (plans f !! active_plan_id f).
Qed.

Section StepSuccess.
Context {World JSON : Type} (env : Env World JSON).
Hypothesis store_ok : store_agrees env.

(** When the executor's run answers, [_execute_step] answers its result and
    the step at hand has been marked completed. *)
Lemma execute_step_success w f executor step_info plan_text shown r ran :
  _get_plan_text env (w, f) = (Return plan_text, shown) →
  run_executor env executor
    (step_prompt plan_text (current_step_index f) (text step_info)) shown
  = (Return r, ran) →
  ∃ w', _execute_step env executor step_info (w, f)
        = (Return r, (w', mark_completed_flow shown.2))
        ∧ (shown.2 = f ∨ shown.2 = pad_flow f).
Proof.
  intros Hshown Hrun.
  destruct (get_plan_text_run env w f) as (t & w1 & f1 & Hshown' & Hf1).
  rewrite Hshown in Hshown'. injection Hshown' as -> ->.
  destruct (stored_same_or_padded _ _ Hf1) as (Hidx & _).
  assert (ran.2 = f1) as Hran.
  { unfold run_executor in Hrun. destruct executor as [a|].
    - unfold call in Hrun. simpl in Hrun.
      destruct (agent_run env a _ w1) as [[r'|e'] w2]; simplify_eq. done.
    - unfold raise in Hrun. simplify_eq. }
  destruct ran as [w2 f2]. simpl in Hran. subst f2.
  destruct (mark_completed_run env w2 f1 store_ok) as [w3 Hmark].
  exists w3. split; [|done].
  unfold _execute_step. unfold_monad. rewrite Hshown. simpl.
  unfold get_flow. unfold_monad. simpl. rewrite Hidx.
  rewrite Hrun. simpl. by rewrite Hmark.
Qed.

(** The flow after a turn of the loop whose step succeeded. *)
Lemma turn_success_flow f i info f2 :
  next_step f = Some (i, info) →
  let f1 := set_current_step_index (Some i) (mark_selected f) in
  f2 = f1 ∨ f2 = pad_flow f1 →
  let f3 := mark_completed_flow f2 in
  stored_steps f3 = stored_steps f
  ∧ active_plan_id f3 = active_plan_id f
  ∧ agents f3 = agents f ∧ primary_agent_key f3 = primary_agent_key f
  ∧ executor_keys f3 = executor_keys f
  ∧ ∀ j, status_at (stored_statuses f3) j
         = if decide (j = i) then COMPLETED else status_at (stored_statuses f) j.
Proof.
  intros Hnext f1 Hf2 f3.
  destruct (stored_statuses_mark_selected _ _ _ Hnext) as (Hsel & Hsteps & Hid & Hplan).
  destruct (stored_same_or_padded _ _ Hf2) as (Hidx & Hsteps2 & Hst2).
  destruct (mark_selected_keeps f) as (Hid1 & Hag1 & Hpk1 & Hek1).
  assert (active_plan_id f2 = active_plan_id f
          ∧ agents f2 = agents f ∧ primary_agent_key f2 = primary_agent_key f
          ∧ executor_keys f2 = executor_keys f
          ∧ is_Some (plans f2 !! active_plan_id f2)) as (Hid2 & Hag & Hpk & Hek & Hplan2).
  { destruct Hf2 as [->| ->].
    - subst f1. simpl. by rewrite Hid1, Hag1, Hpk1, Hek1.
    - destruct (pad_flow_keeps f1) as (-> & _ & -> & -> & -> & Hkeep).
      subst f1. simpl in *. rewrite Hid1, Hag1, Hpk1, Hek1 in *.
      repeat split; try done. by apply Hkeep. }
  destruct (stored_statuses_mark_completed f2 i) as (Hdone & Hsteps3); [by rewrite Hidx|done|].
  subst f3.
  split; [by rewrite Hsteps3, Hsteps2|].
  destruct (mark_completed_flow_keeps f2) as (-> & -> & -> & ->).
  repeat split; try done.
  intros j. rewrite Hdone, status_at_write_status.
  destruct (decide (j = i)); [done|].
  rewrite Hst2. subst f1.
  change (stored_statuses (set_current_step_index (Some i) (mark_selected f)))
    with (stored_statuses (mark_selected f)).
  rewrite Hsel, status_at_write_status. by destruct (decide (j = i)).
Qed.


Lemma get_executor_some f step_type :
  is_Some (primary_agent f) → is_Some (get_executor f step_type).
Proof.
  intros [a Ha]. unfold get_executor.
  destruct (if truthy_opt step_type then _ else _); [by eexists|].
  destruct (first_executor _ _); [by eexists|].
  by rewrite Ha.
Qed.

Lemma next_step_first f i info :
  next_step f = Some (i, info) →
  (i < length (stored_steps f))%nat
  ∧ is_active (status_at (stored_statuses f) i) = true
  ∧ ∀ j, (j < i)%nat → is_active (status_at (stored_statuses f) j) = false.
Proof.
  intros Hnext.
  destruct (next_step_inv _ _ _ Hnext) as (p & step & Hp & Hscan & _).
  pose proof (active_plan_lookup _ _ Hp) as Hlook.
  unfold stored_steps, stored_statuses. rewrite Hlook.
  destruct (scan_steps_bounds _ _ _ _ _ Hscan) as [Hb _].
  destruct (scan_steps_first _ _ _ _ _ Hscan) as [Hact Hbefore].
  split; [lia|]. split; [done|]. intros j Hj. apply Hbefore. lia.
Qed.

(** One turn of the loop of [execute] in which the executor's run answers. *)
Lemma execute_loop_success w f fuel result i step_info :
  (∀ a prompt w0, ∃ r w', agent_run env a prompt w0 = (Return r, w')) →
  is_Some (primary_agent f) →
  next_step f = Some (i, step_info) →
  ∃ r w' f',
    (execute_loop env (S fuel) result (w, f) = (Return (Some (result +:+ r +:+ nl)), (w', f'))
     ∨ execute_loop env (S fuel) result (w, f)
       = execute_loop env fuel (result +:+ r +:+ nl) (w', f'))
    ∧ stored_steps f' = stored_steps f
    ∧ primary_agent f' = primary_agent f
    ∧ ∀ j, status_at (stored_statuses f') j
           = if decide (j = i) then COMPLETED else status_at (stored_statuses f) j.
Proof.
  intros runs_ok Hprimary Hnext.
  destruct (select_next_run env store_ok w f) as [w1 Hsel]. rewrite Hnext in Hsel.
  set (f1 := set_current_step_index (Some i) (mark_selected f)).
  destruct (mark_selected_keeps f) as (Hid1 & Hag1 & Hpk1 & Hek1).
  assert (primary_agent f1 = primary_agent f) as Hprim1.
  { unfold primary_agent. subst f1. simpl. by rewrite Hpk1, Hag1. }
  destruct (get_executor_some f1 (type step_info)) as [a Ha]; [by rewrite Hprim1|].
  destruct (get_plan_text_run env w1 f1) as (t & w2 & f2 & Hshown & Hf2).
  destruct (runs_ok a (step_prompt t (Some i) (text step_info)) w2) as (r & w3 & Hrun).
  destruct (execute_step_success w1 f1 (Some a) step_info t (w2, f2) r (w3, f2))
    as (w4 & Hstep & _); [done| |].
  { unfold run_executor, call. simpl. by rewrite Hrun. }
  destruct (turn_success_flow f i step_info f2 Hnext Hf2)
    as (Hsteps & Hid & Hag & Hpk & Hek & Hst).
  exists r, w4, (mark_completed_flow f2).
  split; [|split; [done|split; [|done]]].
  - simpl. unfold_monad. rewrite Hsel.
    unfold modify_flow, get_flow. unfold_monad. simpl.
    fold f1. rewrite Ha. simpl in Hstep. rewrite Hstep.
    unfold executor_finished.
    destruct (bool_decide _); [by left|by right].
  - unfold primary_agent. by rewrite Hpk, Hag.
Qed.

(** The loop ends once every step has had its turn. *)
Lemma execute_loop_ends n :
  (∀ a prompt w0, ∃ r w', agent_run env a prompt w0 = (Return r, w')) →
  ∀ fuel result w f b,
    is_Some (primary_agent f) →
    (∀ j, (j < b)%nat → is_active (status_at (stored_statuses f) j) = false) →
    (length (stored_steps f) - b ≤ n)%nat → (n < fuel)%nat →
    ∃ r after, execute_loop env fuel result (w, f) = (Return (Some r), after).
Proof.
  intros runs_ok. induction n as [|n IH]; intros fuel result w f b Hprimary Hinv Hn Hfuel.
  all: destruct fuel as [|fuel]; [lia|].
  all: destruct (next_step f) as [[i info]|] eqn:Hnext.
  all: try (destruct (select_next_run env store_ok w f) as [w1 Hsel];
            rewrite Hnext in Hsel;
            destruct (finalize_plan_returns env (w1, set_current_step_index None (mark_selected f)))
              as (summary & after & Hfin);
            exists (result +:+ summary), after;
            simpl; unfold_monad; rewrite Hsel;
            unfold modify_flow; unfold_monad; simpl; by rewrite Hfin).
  all: destruct (next_step_first _ _ _ Hnext) as (Hi & Hact & Hbefore).
  all: assert (b ≤ i)%nat as Hbi
      by (destruct (decide (b ≤ i)%nat); [done|]; rewrite Hinv in Hact by lia; done).
  - lia.
  - destruct (execute_loop_success w f fuel result i info runs_ok Hprimary Hnext)
      as (r & w' & f' & [Hend|Hturn] & Hsteps & Hprim & Hst).
    + by eexists _, _.
    + rewrite Hturn. apply (IH fuel _ w' f' (S i)).
      * by rewrite Hprim.
      * intros j Hj. rewrite Hst. destruct (decide (j = i)); [done|].
        apply Hbefore. lia.
      * rewrite Hsteps. lia.
      * lia.
Qed.

End StepSuccess.

(** A step whose executor's run answers is marked completed, the other
    steps keep their status, and select-next then moves on: it answers a
    later step, or none. *)
Theorem successful_step_advances {World JSON : Type} (env : Env World JSON)
    w f i step_info selected plan_text shown r ran :
  store_agrees env →
  _get_current_step_info env (w, f) = (Return (Some (i, step_info)), selected) →
  let f1 := set_current_step_index (Some i) selected.2 in
  let executor := get_executor f1 (type step_info) in
  _get_plan_text env (selected.1, f1) = (Return plan_text, shown) →
  run_executor env executor (step_prompt plan_text (Some i) (text step_info)) shown
  = (Return r, ran) →
  ∃ after,
    _execute_step env executor step_info (selected.1, f1) = (Return r, after)
    ∧ stored_steps after.2 = stored_steps f
    ∧ status_at (stored_statuses after.2) i = COMPLETED
    ∧ (∀ j, j ≠ i →
         status_at (stored_statuses after.2) j = status_at (stored_statuses f) j)
    ∧ ∃ next again,
        _get_current_step_info env after = (Return next, again)
        ∧ match next with
          | Some (k, _) => (i < k)%nat
          | None => True
          end.
Proof.
  intros store_ok Hsel f1 executor Hshown Hrun.
  destruct (select_next_run env store_ok w f) as [w1 Hsel'].
  rewrite Hsel in Hsel'. injection Hsel' as Hnext Hselected.
  symmetry in Hnext. subst selected. simpl in *.
  destruct (execute_step_success env store_ok w1 f1 executor step_info
              plan_text shown r ran Hshown Hrun) as (w4 & Hstep & Hf2).
  destruct (turn_success_flow f i step_info shown.2 Hnext Hf2)
    as (Hsteps & _ & _ & _ & _ & Hst).
  exists (w4, mark_completed_flow shown.2).
  split; [done|]. split; [done|]. simpl.
  split; [rewrite Hst; by destruct (decide (i = i))|].
  split; [intros j Hj; rewrite Hst; by destruct (decide (j = i))|].
  destruct (select_next_run env store_ok w4 (mark_completed_flow shown.2)) as [w5 Hsel2].
  exists (next_step (mark_completed_flow shown.2)), (w5, mark_selected (mark_completed_flow shown.2)).
  split; [done|].
  destruct (next_step (mark_completed_flow shown.2)) as [[k info]|] eqn:Hnext2; [|done].
  destruct (next_step_first _ _ _ Hnext2) as (_ & Hact & _).
  destruct (next_step_first _ _ _ Hnext) as (_ & _ & Hbefore).
  rewrite Hst in Hact.
  destruct (decide (k = i)); [done|].
  destruct (decide (i < k)%nat); [done|].
  rewrite Hbefore in Hact by lia. done.
Qed.

Lemma successful_step_advances_witness :
  let env := Demo.flow_env true (Return "done") IDLE in
  let f := Demo.flow_with Demo.fresh_plan in
  let step_info := {| text := "Analyze request"; type := None |} in
  let selected := (_get_current_step_info env (tt, f)).2 in
  let f1 := set_current_step_index (Some 0%nat) selected.2 in
  store_agrees env
  ∧ ∃ after,
      _execute_step env (Some 0%nat) step_info (selected.1, f1) = (Return "done", after)
      ∧ stored_steps after.2 = stored_steps f
      ∧ status_at (stored_statuses after.2) 0 = COMPLETED
      ∧ (∀ j, j ≠ 0%nat →
           status_at (stored_statuses after.2) j = status_at (stored_statuses f) j)
      ∧ ∃ next again,
          _get_current_step_info env after = (Return next, again)
          ∧ match next with
            | Some (k, _) => (0 < k)%nat
            | None => True
            end.
Proof.
  intros env f step_info selected f1. split; [apply flow_env_store_agrees|].
  apply (successful_step_advances env tt f 0 step_info selected
           "plan plan_1" (tt, f1) "done" (tt, f1)).
  - apply flow_env_store_agrees.
  - reflexivity.
  - reflexivity.
  - reflexivity.
Defined.

(** When every executor run answers and the plan store agrees with the
    orchestrator's own writes, the loop of [execute] ends: one more turn
    than the plan has steps is enough. *)
Theorem execute_ends_when_runs_answer {World JSON : Type} (env : Env World JSON)
    fuel w f :
  store_agrees env →
  (∀ a prompt w0, ∃ r w', agent_run env a prompt w0 = (Return r, w')) →
  is_Some (primary_agent f) →
  (length (stored_steps f) < fuel)%nat →
  ∃ r after, execute env fuel "" (w, f) = (Return (Some r), after).
Proof.
  intros store_ok runs_ok Hprimary Hfuel.
  rewrite execute_without_input by done.
  destruct (execute_loop_ends env store_ok (length (stored_steps f)) runs_ok
              fuel "" w f 0) as (r & after & ->); [done|lia|lia|done|].
  by eexists _, _.
Qed.

Lemma execute_ends_when_runs_answer_witness :
  let env := Demo.flow_env true (Return "done") IDLE in
  ∃ r after, execute env 4 "" (tt, Demo.flow_with Demo.fresh_plan) = (Return (Some r), after).
Proof.
  intros env.
  apply (execute_ends_when_runs_answer env 4 tt (Demo.flow_with Demo.fresh_plan)).
  - apply flow_env_store_agrees.
  - intros a prompt w0. by exists "done", w0.
  - by eexists.
  - vm_compute. lia.
Defined.

(** ** The step type tag *)

Lemma take_tag_app t rest :
  tag_chars t = true →
  match rest with String c _ => is_tag_char c = false | EmptyString => True end →
  take_tag (t +:+ rest) = (t, rest).
Proof.
  intros Ht Hrest. induction t as [|c t IH]; simpl in *.
  - destruct rest as [|c rest]; [done|]. simpl. by rewrite Hrest.
  - apply andb_prop in Ht as [Hc Ht]. rewrite Hc. by rewrite IH.
Qed.

Lemma take_tag_split s :
  s = (take_tag s).1 +:+ (take_tag s).2 ∧ tag_chars (take_tag s).1 = true.
Proof.
  induction s as [|c s [IH1 IH2]]; simpl; [done|].
  destruct (is_tag_char c) eqn:Hc; simpl; [|done].
  destruct (take_tag s) as [tag rest]. simpl in *. rewrite Hc, IH2.
  split; [|done]. rewrite IH1 at 1. done.
Qed.

Lemma match_tag_here_iff s t : match_tag_here s = Some t ↔ tag_at s "" t.
Proof.
  split.
  - unfold match_tag_here. destruct s as [|c s]; [done|].
    destruct (Ascii.eqb_spec c "["%char) as [->|Hc].
    2:{ intros H. exfalso.
        destruct c as [[] [] [] [] [] [] [] []]; try done. }
    destruct (take_tag_split s) as [Hs Htag].
    destruct (take_tag s) as [tag rest]. simpl in *.
    destruct tag as [|c tag]; [done|].
    destruct rest as [|d rest]; [done|].
    destruct (Ascii.eqb_spec d "]"%char) as [->|Hd].
    2:{ intros H. exfalso.
        destruct d as [[] [] [] [] [] [] [] []]; try done. }
    intros [= <-]. split; [done|]. split; [exact Htag|].
    exists rest. simpl. by rewrite Hs.
  - intros (Hne & Htag & post & ->).
    change (match_tag_here (String "[" (t +:+ ("]" +:+ post))) = Some t).
    unfold match_tag_here.
    rewrite (take_tag_app t ("]" +:+ post)); [|done|done].
    by destruct t.
Qed.

Lemma tag_at_nil pre t : ¬ tag_at "" pre t.
Proof. intros (_ & _ & post & H). by destruct pre. Qed.

Lemma tag_at_cons c s pre t :
  tag_at (String c s) pre t ↔
  (pre = "" ∧ tag_at (String c s) "" t) ∨ (∃ pre', pre = String c pre' ∧ tag_at s pre' t).
Proof.
  split.
  - intros (Hne & Htag & post & H). destruct pre as [|d pre].
    + left. split; [done|]. split; [done|]. split; [done|]. by exists post.
    + right. simpl in H. injection H as <- ->. exists pre. split; [done|].
      split; [done|]. split; [done|]. by exists post.
  - intros [[-> H]|(pre' & -> & Hne & Htag & post & ->)]; [done|].
    split; [done|]. split; [done|]. by exists post.
Qed.

Lemma re_search_tag_some s t : re_search_tag s = Some t → leftmost_tag s t.
Proof.
  revert t. induction s as [|c s IH]; intros t; [done|].
  cbn [re_search_tag]. destruct (match_tag_here (String c s)) as [t0|] eqn:Hhere.
  - intros [= <-]. exists "". split; [by apply match_tag_here_iff|].
    intros pre' t' _. simpl. lia.
  - intros Hs. destruct (IH _ Hs) as (pre & Hat & Hleft).
    exists (String c pre). split.
    + apply tag_at_cons. right. by exists pre.
    + intros pre' t' Hat'. apply tag_at_cons in Hat' as [[-> H]|(pre'' & -> & H)].
      * apply match_tag_here_iff in H. congruence.
      * simpl. specialize (Hleft _ _ H). lia.
Qed.

Lemma re_search_tag_none s : re_search_tag s = None → ∀ pre t, ¬ tag_at s pre t.
Proof.
  induction s as [|c s IH]; intros Hs pre t; [apply tag_at_nil|].
  cbn [re_search_tag] in Hs.
  destruct (match_tag_here (String c s)) as [t0|] eqn:Hhere; [done|].
  intros Hat. apply tag_at_cons in Hat as [[-> H]|(pre' & -> & H)].
  - apply match_tag_here_iff in H. congruence.
  - by apply (IH Hs pre' t).
Qed.

Lemma tag_at_same_offset s pre pre' t t' :
  tag_at s pre t → tag_at s pre' t' → String.length pre = String.length pre' → t = t'.
Proof.
  revert pre pre'. induction s as [|c s IH]; intros pre pre' H H' Hlen.
  - by apply tag_at_nil in H.
  - apply tag_at_cons in H as [[-> H]|(p & -> & H)];
      apply tag_at_cons in H' as [[-> H']|(p' & -> & H')]; try done.
    + apply match_tag_here_iff in H, H'. congruence.
    + simpl in Hlen. eapply IH; [done|done|lia].
Qed.

Lemma leftmost_tag_unique s t t' : leftmost_tag s t → leftmost_tag s t' → t = t'.
Proof.
  intros (pre & H & Hleft) (pre' & H' & Hleft').
  eapply tag_at_same_offset; [done|done|].
  specialize (Hleft _ _ H'). specialize (Hleft' _ _ H). lia.
Qed.

Lemma re_search_tag_iff s t : re_search_tag s = Some t ↔ leftmost_tag s t.
Proof.
  split; [apply re_search_tag_some|].
  intros Hleft. destruct (re_search_tag s) as [t0|] eqn:Hs.
  - f_equal. eapply leftmost_tag_unique; [|done]. by apply re_search_tag_some.
  - destruct Hleft as (pre & H & _). by apply re_search_tag_none with (pre := pre) (t := t) in Hs.
Qed.

(** The step type that select-next reads is the leftmost bracketed tag of
    the step text: a non-empty run of capital letters and underscores between
    square brackets. There is a type exactly when the text holds such a tag,
    and it is the first one. *)
Theorem step_type_is_leftmost_tag step :
  (∀ t, re_search_tag step = Some t ↔ leftmost_tag step t)
  ∧ (re_search_tag step = None ↔ ∀ pre t, ¬ tag_at step pre t).
Proof.
  split; [apply re_search_tag_iff|].
  split; [apply re_search_tag_none|].
  intros Hnone. destruct (re_search_tag step) as [t|] eqn:Hs; [|done].
  apply re_search_tag_some in Hs as (pre & H & _). by apply Hnone in H.
Qed.

Lemma lower_truthy t : t ≠ "" → truthy (lower t) = true.
Proof. by destruct t. Qed.

(** Whatever the store does, select-next answers [next_step] and leaves
    the agents of the flow alone. *)
Lemma select_next_result {World JSON : Type} (env : Env World JSON) w f r s :
  _get_current_step_info env (w, f) = (r, s) →
  r = Return (next_step f)
  ∧ agents s.2 = agents f ∧ primary_agent_key s.2 = primary_agent_key f
  ∧ executor_keys s.2 = executor_keys f.
Proof.
  unfold _get_current_step_info, next_step, active_plan, first_active.
  unfold_monad. unfold get_flow. unfold_monad. simpl.
  destruct (truthy (active_plan_id f)); simpl; [|by intros [= <- <-]].
  destruct (plans f !! active_plan_id f) as [p|] eqn:Hp; simpl; [|by intros [= <- <-]].
  destruct (scan_steps (get_steps p) (get_step_statuses p) 0)
    as [[i step]|] eqn:Hscan; simpl; [|by intros [= <- <-]].
  unfold store_call, store_step_statuses, modify_flow. unfold_monad.
  destruct (planning_mark_step env (active_plan_id f) i IN_PROGRESS w (plans f))
    as [[ps'|e] w'] eqn:Hmark; simpl; by intros [= <- <-].
Qed.

(** A step whose leftmost bracketed tag names an agent is run by that agent:
    select-next reads the tag, lowercased, as the step's type, and
    [get_executor] answers the agent registered under it. *)
Theorem tagged_step_runs_its_agent {World JSON : Type} (env : Env World JSON)
    w f i info selected t agent :
  _get_current_step_info env (w, f) = (Return (Some (i, info)), selected) →
  leftmost_tag (text info) t →
  agents f !! lower t = Some agent →
  type info = Some (lower t)
  ∧ get_executor (set_current_step_index (Some i) selected.2) (type info) = Some agent.
Proof.
  intros Hsel Htag Hagent.
  destruct (select_next_result env _ _ _ _ Hsel) as (Hr & Hag & _).
  injection Hr as Hnext. symmetry in Hnext.
  destruct (next_step_inv _ _ _ Hnext) as (p & step & _ & _ & ->). simpl in *.
  apply re_search_tag_iff in Htag. rewrite Htag. simpl. split; [done|].
  unfold get_executor. simpl. rewrite Hag.
  rewrite lower_truthy; [by rewrite Hagent|].
  apply re_search_tag_iff in Htag as (pre & (Hne & _) & _). done.
Qed.

Lemma tagged_step_runs_its_agent_witness :
  let env := Demo.flow_env true (Return "done") IDLE in
  let selected := (_get_current_step_info env (tt, Demo.team_flow)).2 in
  let info := {| text := "[CODE] write the parser"; type := Some "code" |} in
  type info = Some (lower "CODE")
  ∧ get_executor (set_current_step_index (Some 0%nat) selected.2) (type info)
    = Some 1%nat.
Proof.
  intros env selected info.
  apply (tagged_step_runs_its_agent env tt Demo.team_flow 0 info selected "CODE" 1%nat).
  - reflexivity.
  - apply re_search_tag_iff. reflexivity.
  - reflexivity.
Defined.

(** ** Rendering the plan text *)

Lemma pad_to_idem n d l : pad_to n d (pad_to n d l) = pad_to n d l.
Proof.
  unfold pad_to at 1. rewrite length_pad_to.
  replace (n - Nat.max (length l) n)%nat with 0%nat by lia.
  apply app_nil_r.
Qed.

Lemma get_steps_pad_plan p : get_steps (pad_plan p) = get_steps p.
Proof. done. Qed.

Lemma pad_plan_idem p : pad_plan (pad_plan p) = pad_plan p.
Proof.
  unfold pad_plan at 1. rewrite get_steps_pad_plan. unfold pad_plan. simpl.
  f_equal.
  - destruct (step_statuses p); simpl; [|done]. by rewrite pad_to_idem.
  - destruct (step_notes p); simpl; [|done]. by rewrite pad_to_idem.
Qed.

Lemma render_plan_pad_plan {World JSON : Type} (env : Env World JSON) plan_id p :
  render_plan env plan_id (pad_plan p) = render_plan env plan_id p.
Proof.
  unfold render_plan. rewrite get_steps_pad_plan.
  assert (pad_to (length (get_steps p)) NOT_STARTED (get_step_statuses (pad_plan p))
          = pad_to (length (get_steps p)) NOT_STARTED (get_step_statuses p)) as ->.
  { unfold get_step_statuses, pad_plan. simpl.
    destruct (step_statuses p); simpl; [|done]. by rewrite pad_to_idem. }
  assert (pad_to (length (get_steps p)) "" (get_step_notes (pad_plan p))
          = pad_to (length (get_steps p)) "" (get_step_notes p)) as ->.
  { unfold get_step_notes, pad_plan. simpl.
    destruct (step_notes p); simpl; [|done]. by rewrite pad_to_idem. }
  done.
Qed.

Lemma pad_flow_idem f : pad_flow (pad_flow f) = pad_flow f.
Proof.
  unfold pad_flow. destruct (plans f !! active_plan_id f) as [p|] eqn:Hp; simpl.
  - rewrite lookup_insert_eq. unfold set_plans. simpl. f_equal.
    by rewrite insert_insert_eq, pad_plan_idem.
  - by rewrite Hp.
Qed.

Lemma storage_text_pad_flow {World JSON : Type} (env : Env World JSON) f :
  storage_text env (pad_flow f) = storage_text env f.
Proof.
  unfold storage_text, pad_flow.
  destruct (plans f !! active_plan_id f) as [p|] eqn:Hp; simpl.
  - rewrite lookup_insert_eq. apply render_plan_pad_plan.
  - by rewrite Hp.
Qed.

(** Rendering the plan text from storage is repeatable: a second rendering
    answers the same text and leaves the flow as the first one left it (the
    padding of the first rendering changes nothing that is shown, and there
    is nothing left to pad). *)
Theorem plan_text_from_storage_is_repeatable {World JSON : Type}
    (env : Env World JSON) w f :
  let first := _generate_plan_text_from_storage env (w, f) in
  let second := _generate_plan_text_from_storage env first.2 in
  first.1 = Return (storage_text env f)
  ∧ second = first.
Proof.
  simpl. rewrite generate_plan_text_run. simpl. split; [done|].
  rewrite generate_plan_text_run. by rewrite storage_text_pad_flow, pad_flow_idem.
Qed.

(** A status outside the four known ones is shown with the mark of a step
    not started, yet select-next does not count it as active: such a step is
    never selected. *)
Theorem unknown_status_is_shown_but_skipped status :
  status ∉ get_all_statuses →
  status_mark status = status_mark NOT_STARTED ∧ is_active status = false.
Proof.
  intros Hnot.
  assert (∀ known, known ∈ get_all_statuses → String.eqb known status = false) as Hne.
  { intros known Hknown. destruct (String.eqb_spec known status) as [Heq|_]; [|done].
    exfalso. apply Hnot. by rewrite <- Heq. }
  split.
  - unfold status_mark, get_status_marks, lookup_mark.
    rewrite !Hne; [done|unfold get_all_statuses; set_solver..].
  - destruct (is_active status) eqn:Hact; [|done].
    apply is_active_iff in Hact as [->| ->]; exfalso; apply Hnot;
      unfold get_all_statuses; set_solver.
Qed.

Lemma unknown_status_is_shown_but_skipped_witness :
  status_mark "done" = status_mark NOT_STARTED ∧ is_active "done" = false.
Proof.
  apply (unknown_status_is_shown_but_skipped "done").
  exact (bool_decide_unpack ("done" ∉ get_all_statuses) I).
Defined.

(** ** The initial plan *)

Lemma create_from_calls_run {World JSON : Type} (env : Env World JSON) plan_id calls :
  ∀ s : World * Flow,
    create_from_calls env plan_id calls s
    = match head (omap (plan_arguments env) calls) with
      | Some args =>
          match store_call (planning_execute env args plan_id) s with
          | (Return _, s') => (Return true, s')
          | (Raise e, s') => (Raise e, s')
          end
      | None => (Return false, s)
      end.
Proof.
  induction calls as [|tool_call calls IH]; intros s; [done|].
  cbn [create_from_calls omap list_omap]. unfold plan_arguments at 1.
  destruct (String.eqb (call_name tool_call) "planning"); [|apply IH].
  destruct (json_loads env (call_arguments tool_call)) as [args|]; [|apply IH].
  cbn [head]. unfold_monad.
  by destruct (store_call (planning_execute env args plan_id) s) as [[[]|e] s'].
Qed.

(** The initial plan is made from the first proposed call that names the
    planning tool and whose arguments parse, under the flow's own plan id;
    calls of other tools and planning calls with unreadable arguments are
    passed over, and no later call is looked at. The default plan of three
    steps is created only when there is no such call; when the planning tool
    raises on the call, the exception leaves the method and no default plan
    is created. *)
Theorem initial_plan_uses_first_planning_call {World JSON : Type}
    (env : Env World JSON) request w f :
  _create_initial_plan env request (w, f)
  = match llm_ask_tool env
            ("Create a reasonable plan with clear steps to accomplish the task: "
             +:+ request) planning_system_message w with
    | (Raise e, w1) => (Raise e, (w1, f))
    | (Return None, w1) =>
        (Raise (new_exc AttributeError "'NoneType' object has no attribute 'tool_calls'"),
         (w1, f))
    | (Return (Some calls), w1) =>
        match head (omap (plan_arguments env) calls) with
        | Some args => store_call (planning_execute env args (active_plan_id f)) (w1, f)
        | None =>
            store_call
              (planning_create env (active_plan_id f) (default_plan_title request)
                 ["Analyze request"; "Execute task"; "Verify results"]) (w1, f)
        end
    end.
Proof.
  unfold _create_initial_plan. unfold_monad. unfold get_flow. unfold_monad.
  cbn [snd]. unfold call.
  destruct (llm_ask_tool env _ planning_system_message w) as [[[calls|]|e] w1];
    [|done|done].
  rewrite create_from_calls_run.
  destruct (head (omap (plan_arguments env) calls)) as [args|]; [|done].
  by destruct (store_call (planning_execute env args (active_plan_id f)) (w1, f))
    as [[[]|e] s'].
Qed.

(** Characters are counted, not bytes: a request of 19 Chinese characters
    (57 bytes) is taken whole into the default title, one of 51 is cut to 50
    and marked, and the rule under a heading of 22 characters (26 bytes) has
    22 signs. *)
Example titles_count_characters :
  default_plan_title "请帮我规划一次去月球的旅行并列出清单吧"
  = "Plan for: 请帮我规划一次去月球的旅行并列出清单吧"
  ∧ default_plan_title ("月月月月月月月月月月月月月月月月月月月月月月月月月月月月月月月月月月月月月月月月月月月月月月月月月月月")
    = "Plan for: 月月月月月月月月月月月月月月月月月月月月月月月月月月月月月月月月月月月月月月月月月月月月月月月月月月..."
  ∧ char_length ("Plan: 计划 (ID: plan_1)" +:+ nl) = 22%nat.
Proof. by vm_compute. Qed.

End FlowFacts.

(** * Facts about the tool-calling agent *)

Module AgentFacts.
Import ToolCallAgent AgentSpec.

Ltac unfold_monad :=
  unfold mbind, mret, M_bind, M_ret, bind, ret, raise, try_except,
    gets, modify, get_state, put_state in *.

(** ** Strings *)

Lemma starts_with_append p s t :
  starts_with p s = true → starts_with p (s +:+ t) = true.
Proof.
  revert s. induction p as [|a p IH]; intros [|b s]; simpl; try done.
  destruct (Ascii.eqb a b); [apply IH|done].
Qed.

Lemma contains_append needle s t :
  contains needle s = true → contains needle (s +:+ t) = true.
Proof.
  induction s as [|c s IH]; simpl.
  - rewrite orb_false_r. destruct needle; [|done]. by destruct t.
  - intros [H|H]%orb_true_iff.
    + apply orb_true_iff. left. by apply (starts_with_append needle (String c s) t).
    + apply orb_true_iff. right. by apply IH.
Qed.

Lemma truthy_true s : truthy s = true ↔ s ≠ "".
Proof. by destruct s. Qed.

(** ** Running the monad *)

Lemma run_bind {S A B} (m : M S A) (k : A → M S B) s :
  (m ≫= k) s
  = match m s with
    | (Return a, s') => k a s'
    | (Raise e, s') => (Raise e, s')
    end.
Proof. done. Qed.

Lemma run_ret {S A} (a : A) (s : S) : (mret a : M S A) s = (Return a, s).
Proof. done. Qed.

Lemma run_raise {S A} (e : PyExc) (s : S) : raise (A:=A) e s = (Raise e, s).
Proof. done. Qed.

Lemma run_try {S A} (m : M S A) h s :
  try_except m h s
  = match m s with
    | (Return a, s') => (Return a, s')
    | (Raise e, s') => h e s'
    end.
Proof. done. Qed.

Section Run.
Context {World : Type}.

Lemma run_get_agent (w : World) a : get_agent (w, a) = (Return a, (w, a)).
Proof. done. Qed.

Lemma run_modify_agent g (w : World) a : modify_agent g (w, a) = (Return tt, (w, g a)).
Proof. done. Qed.

Lemma run_add_message m (w : World) a :
  add_message m (w, a) = (Return tt, (w, set_messages (messages a ++ [m]) a)).
Proof. done. Qed.

Lemma run_call {A} (op : World → Result A * World) w a :
  call op (w, a) = ((op w).1, ((op w).2, a)).
Proof. unfold call. by destruct (op w). Qed.

Lemma run_lift {A} (r : Result A) (s : World * Agent) : lift r s = (r, s).
Proof. done. Qed.

End Run.

Ltac run :=
  repeat first
    [ rewrite run_bind | rewrite run_ret | rewrite run_raise | rewrite run_try
    | rewrite run_get_agent | rewrite run_modify_agent | rewrite run_add_message
    | rewrite run_call | rewrite run_lift | progress cbn [fst snd]
    | progress simpl (bool_decide _) | progress simpl (andb _ _) | progress simpl (negb _)
    | progress cbn beta iota ].

(** ** [think], unfolded on what the model does *)

Section Think.
Context {World JSON : Type} (env : Env World JSON).

Lemma think_run w a :
  think env (w, a)
  = match ask env (with_prompt a) w with
    | (Return response, w') => think_process response (w', with_prompt a)
    | (Raise e, w') =>
        if is_ValueError e then (Raise e, (w', with_prompt a))
        else
          match token_limit_cause e with
          | Some token_limit_error =>
              (Return false,
               (w', set_state FINISHED
                      (set_messages
                         (messages (with_prompt a)
                          ++ [assistant_message (token_limit_text token_limit_error)])
                         (with_prompt a))))
          | None => (Raise e, (w', with_prompt a))
          end
    end.
Proof.
  unfold think, ask. run.
  assert ((if truthy_opt (next_step_prompt a)
           then modify_agent
                  (set_messages
                     (messages a ++ [user_message (default "" (next_step_prompt a))]))
           else mret ()) (w, a) = (Return tt, (w, with_prompt a))) as ->.
  { unfold with_prompt. by destruct (truthy_opt (next_step_prompt a)). }
  run.
  destruct (ask_tool env _ _ _ _ w) as [[response|e] w']; run; [done|].
  destruct (is_ValueError e); run; [done|].
  destruct (token_limit_cause e); run; done.
Qed.

(** The answer of [think_process] under each policy. *)
Lemma think_process_run response (w : World) a :
  think_process response (w, a)
  = let a1 := set_tool_calls (response_calls response) a in
    let content := response_text response in
    let logged m := set_messages (messages a1 ++ [m]) a1 in
    match response with
    | None =>
        (Return false,
         (w, logged (assistant_message
                       ("Error encountered while processing: "
                        +:+ "No response received from the LLM"))))
    | Some _ =>
        match tool_choices a with
        | NONE =>
            if truthy content
            then (Return true, (w, logged (assistant_message content)))
            else (Return false, (w, a1))
        | REQUIRED =>
            match response_calls response with
            | [] => (Return true, (w, logged (assistant_message content)))
            | calls => (Return true, (w, logged (from_tool_calls content calls)))
            end
        | AUTO =>
            match response_calls response with
            | [] => (Return (truthy content), (w, logged (assistant_message content)))
            | calls => (Return true, (w, logged (from_tool_calls content calls)))
            end
        end
    end.
Proof.
  unfold think_process, response_calls, response_text. cbv zeta. run.
  destruct response as [r|]; run; [|done].
  change (tool_choices (set_tool_calls _ a)) with (tool_choices a).
  change (tool_calls (set_tool_calls ?c a)) with c.
  destruct (tool_choices a) eqn:Hpolicy; run.
  - destruct (truthy (or_default (response_content r) "")); run; done.
  - rewrite ?Hpolicy. simpl (tool_calls _).
    destruct (response_tool_calls r); run; done.
  - rewrite ?Hpolicy. simpl (tool_calls _).
    destruct (response_tool_calls r); run; done.
Qed.

End Think.

(** ** [think] when the model call fails *)

Lemma step_run {World JSON : Type} (env : Env World JSON) w a :
  step env (w, a)
  = match think env (w, a) with
    | (Return true, s') => act env s'
    | (Return false, s') => (Return "Thinking complete - no action needed", s')
    | (Raise e, s') => (Raise e, s')
    end.
Proof.
  unfold step. run. destruct (think env (w, a)) as [[[|]|e] s']; run; done.
Qed.

(** C2, as stated, fails: a model call that fails with a [ValueError] whose
    cause is the token limit is raised again; no message is logged and the
    state stays RUNNING. *)
Lemma think_token_limit_counterexample :
  let e := AgentDemo.value_error_from_limit in
  let env := AgentDemo.agent_env (Raise e) AgentDemo.name_tool in
  let a := AgentDemo.agent_with AUTO [] [] in
  token_limit_cause e = Some "Request may exceed input token limit"
  ∧ think env ([], a) = (Raise e, ([], a))
  ∧ step env ([], a) = (Raise e, ([], a))
  ∧ state a = RUNNING.
Proof. vm_compute. done. Qed.

(** C2, amended. When the model call inside [think] fails with an exception
    that is not a [ValueError] and whose cause is a token-limit error, the
    agent logs an assistant message whose text contains [token limit], its
    state becomes FINISHED, [think] answers false and [step] answers
    [Thinking complete - no action needed]. Every other failure of the call,
    every [ValueError] included, is raised to the caller unchanged. *)
Theorem think_token_limit {World JSON : Type} (env : Env World JSON) w a e w' :
  ask env (with_prompt a) w = (Raise e, w') →
  (is_ValueError e = false →
   ∀ token_limit_error, token_limit_cause e = Some token_limit_error →
     let text := token_limit_text token_limit_error in
     let a' := set_state FINISHED
                 (set_messages (messages (with_prompt a) ++ [assistant_message text])
                    (with_prompt a)) in
     think env (w, a) = (Return false, (w', a'))
     ∧ step env (w, a) = (Return "Thinking complete - no action needed", (w', a'))
     ∧ state a' = FINISHED
     ∧ last (messages a') = Some (assistant_message text)
     ∧ contains "token limit" text = true)
  ∧ (is_ValueError e = true ∨ token_limit_cause e = None →
     think env (w, a) = (Raise e, (w', with_prompt a))
     ∧ step env (w, a) = (Raise e, (w', with_prompt a))).
Proof.
  intros Hask. split.
  - intros Hve msg Hcause text a'.
    assert (think env (w, a) = (Return false, (w', a'))) as Hthink.
    { by rewrite think_run, Hask, Hve, Hcause. }
    split; [done|]. split; [by rewrite step_run, Hthink|].
    split; [done|]. split.
    + subst a'. simpl. by rewrite last_snoc.
    + subst text. unfold token_limit_text. by apply contains_append.
  - intros Hother.
    assert (think env (w, a) = (Raise e, (w', with_prompt a))) as Hthink.
    { rewrite think_run, Hask. destruct (is_ValueError e); [done|].
      destruct Hother as [?|Hnone]; [done|]. by rewrite Hnone. }
    split; [done|]. by rewrite step_run, Hthink.
Qed.

(** The theorem at a retry failure caused by the token limit. *)
Lemma think_token_limit_witness :
  let e := AgentDemo.retry_error in
  let env := AgentDemo.agent_env (Raise e) AgentDemo.name_tool in
  let a := AgentDemo.agent_with AUTO [] [] in
  let text := token_limit_text "Request may exceed input token limit" in
  let a' := set_state FINISHED (set_messages [assistant_message text] a) in
  think env ([], a) = (Return false, ([], a'))
  ∧ step env ([], a) = (Return "Thinking complete - no action needed", ([], a'))
  ∧ state a' = FINISHED
  ∧ last (messages a') = Some (assistant_message text)
  ∧ contains "token limit" text = true.
Proof.
  intros e env a text a'.
  destruct (think_token_limit env [] a e [] eq_refl) as [Hlimit _].
  exact (Hlimit eq_refl "Request may exceed input token limit" eq_refl).
Defined.

(** ** [think] under the NONE policy *)

Lemma no_tool_call_user c : no_tool_call (user_message c).
Proof. done. Qed.

Lemma no_tool_call_assistant c : no_tool_call (assistant_message c).
Proof. done. Qed.

Lemma messages_with_prompt a :
  ∃ prompt, messages (with_prompt a) = messages a ++ prompt
            ∧ Forall no_tool_call prompt.
Proof.
  unfold with_prompt. destruct (truthy_opt (next_step_prompt a)).
  - eexists [_]. split; [done|]. repeat constructor; done.
  - exists []. by rewrite app_nil_r.
Qed.

(** The part of C7 that holds of the code, the message log. Under the NONE
    policy [think] never logs a message that proposes or answers a tool call,
    whatever the model does and whatever calls it proposes: every message it
    appends is a user or assistant message with no tool call in it. When the model answers, [think] answers true exactly
    when the free text is not empty; a text that is not empty is appended as
    an assistant message, right after the prompt, and an empty one is not
    appended. *)
Theorem think_none_appends_no_tool_call {World JSON : Type} (env : Env World JSON)
    w a :
  tool_choices a = NONE →
  (∃ appended,
     messages (think env (w, a)).2.2 = messages a ++ appended
     ∧ Forall no_tool_call appended)
  ∧ ∀ response w', ask env (with_prompt a) w = (Return response, w') →
      let content := response_text response in
      ∃ a', think env (w, a) = (Return (truthy content), (w', a'))
            ∧ (truthy content = true →
               messages a' = messages (with_prompt a) ++ [assistant_message content])
            ∧ (truthy content = false → response ≠ None →
               messages a' = messages (with_prompt a)).
Proof.
  intros Hnone.
  assert (tool_choices (with_prompt a) = NONE) as Hnone'.
  { unfold with_prompt. by destruct (truthy_opt _). }
  destruct (messages_with_prompt a) as (prompt & Hprompt & Hplain).
  split.
  - rewrite think_run.
    destruct (ask env (with_prompt a) w) as [[response|e] w'].
    + rewrite think_process_run. cbv zeta.
      destruct response as [r|].
      * rewrite Hnone'.
        destruct (truthy (response_text (Some r))); simpl.
        -- exists (prompt ++ [assistant_message (response_text (Some r))]).
           rewrite Hprompt, <-app_assoc. split; [done|].
           apply Forall_app. split; [done|]. repeat constructor; done.
        -- exists prompt. by rewrite Hprompt.
      * simpl. eexists (prompt ++ [_]).
        rewrite Hprompt, <-app_assoc. split; [done|].
        apply Forall_app. split; [done|]. repeat constructor; done.
    + destruct (is_ValueError e); simpl; [by exists prompt|].
      destruct (token_limit_cause e); simpl; [|by exists prompt].
      eexists (prompt ++ [_]).
      rewrite Hprompt, <-app_assoc. split; [done|].
      apply Forall_app. split; [done|]. repeat constructor; done.
  - intros response w' Hask content. subst content.
    rewrite think_run, Hask, think_process_run. cbv zeta.
    destruct response as [r|].
    + rewrite Hnone'.
      destruct (truthy (response_text (Some r))); eexists; (split; [done|]);
        split; done.
    + simpl. eexists. split; [done|]. split; done.
Qed.

(** The theorem when the model proposes a call next to its free text. *)
Lemma think_none_appends_no_tool_call_witness :
  let proposal :=
    {| response_content := Some "hi";
       response_tool_calls := [AgentDemo.call_of "1" "echo" "{}"] |} in
  let env := AgentDemo.agent_env (Return (Some proposal)) AgentDemo.name_tool in
  let a := AgentDemo.agent_with NONE [] [] in
  (∃ appended,
     messages (think env ([], a)).2.2 = messages a ++ appended
     ∧ Forall no_tool_call appended)
  ∧ ∃ a', think env ([], a) = (Return true, ([], a'))
          ∧ (true = true → messages a' = [assistant_message "hi"])
          ∧ (true = false → Some proposal ≠ None → messages a' = []).
Proof.
  intros proposal env a.
  destruct (think_none_appends_no_tool_call env [] a eq_refl) as [Hlog Hanswer].
  split; [exact Hlog|].
  exact (Hanswer (Some proposal) [] eq_refl).
Defined.

(** ** [execute_tool], unfolded on what the tool does *)

Section ExecuteTool.
Context {World JSON : Type} (env : Env World JSON).

Lemma handle_special_tool_run name result (w : World) a :
  _handle_special_tool env name result (w, a)
  = (Return tt, (w, after_special env name result a)).
Proof.
  unfold _handle_special_tool, after_special. run.
  destruct (_is_special_tool env a name); run; [|done].
  destruct (should_finish_execution env name result); run; done.
Qed.

Lemma observation_of_run name result (s : World * Agent) :
  observation_of name result s
  = match (if value_bool result then value_str result
           else Return ("Cmd `" +:+ name +:+ "` completed with no output")) with
    | Return _ => (Return (observation_text name result), s)
    | Raise e => (Raise e, s)
    end.
Proof.
  unfold observation_of, observation_text.
  destruct (value_bool result); run; [|done].
  destruct (value_str result); run; done.
Qed.

Lemma execute_tool_run command w a :
  execute_tool env command (w, a)
  = let name := name (function command) in
    if negb (truthy name) then (Return "Error: Invalid command format", (w, a))
    else if negb (bool_decide (name ∈ available_tools a))
    then (Return ("Error: Unknown tool '" +:+ name +:+ "'"), (w, a))
    else
      match json_loads env (or_default (Some (arguments (function command))) "{}") with
      | None => (Return (parse_error_text name), (w, a))
      | Some args =>
          match tools_execute env name args w with
          | (Return result, w') =>
              (Return (observation_text name result),
               (w', after_media result (after_special env name result a)))
          | (Raise e, w') => (Return (error_observation name e), (w', a))
          end
      end.
Proof.
  unfold execute_tool. cbv zeta.
  destruct (negb (truthy (name (function command)))); run; [done|].
  destruct (negb (bool_decide (name (function command) ∈ available_tools a)));
    run; [done|].
  unfold loads.
  destruct (json_loads env _) as [args|]; run; [|reflexivity].
  destruct (tools_execute env _ args w) as [[result|e] w']; run.
  - rewrite handle_special_tool_run. run.
    unfold after_media.
    destruct (value_image result) as [image|]; run;
      rewrite observation_of_run; unfold observation_text;
      destruct (value_bool result); try reflexivity;
      destruct (value_str result) as [text|e]; try reflexivity;
      unfold error_observation; destruct (is_JSONDecodeError e); reflexivity.
  - unfold error_observation. destruct (is_JSONDecodeError e); reflexivity.
Qed.

(** [execute_tool] always answers an observation. *)
Lemma execute_tool_returns command s :
  ∃ text s', execute_tool env command s = (Return text, s').
Proof.
  destruct s as [w a]. rewrite execute_tool_run. cbv zeta.
  destruct (negb _); [by eexists _, _|].
  destruct (negb _); [by eexists _, _|].
  destruct (json_loads env _) as [args|]; [|by eexists _, _].
  destruct (tools_execute env _ args w) as [[result|e] w']; by eexists _, _.
Qed.

(** A call of a registered tool. *)
Lemma execute_tool_known command w a :
  name (function command) ≠ "" → name (function command) ∈ available_tools a →
  execute_tool env command (w, a)
  = let name := name (function command) in
    match json_loads env (or_default (Some (arguments (function command))) "{}") with
    | None => (Return (parse_error_text name), (w, a))
    | Some args =>
        match tools_execute env name args w with
        | (Return result, w') =>
            (Return (observation_text name result),
             (w', after_media result (after_special env name result a)))
        | (Raise e, w') => (Return (error_observation name e), (w', a))
        end
    end.
Proof.
  intros Hname%truthy_true Hknown. rewrite execute_tool_run. cbv zeta.
  rewrite Hname, bool_decide_eq_true_2 by done. reflexivity.
Qed.

End ExecuteTool.

(** ** [execute_tool] never raises *)

(** C6. [execute_tool] never raises: it always answers an observation. A call
    with no tool name is answered [Error: Invalid command format]; a name
    that is not a registered tool, [Error: Unknown tool '<name>']; an argument
    text that does not parse, an error observation that names the tool and
    the parse problem; and a tool that raises, an error observation too. In
    the first three cases nothing else changes. *)
Theorem execute_tool_never_raises {World JSON : Type} (env : Env World JSON)
    command w a :
  let name := name (function command) in
  let payload := or_default (Some (arguments (function command))) "{}" in
  (∃ text after, execute_tool env command (w, a) = (Return text, after))
  ∧ (name = "" →
     execute_tool env command (w, a) = (Return "Error: Invalid command format", (w, a)))
  ∧ (name ≠ "" → name ∉ available_tools a →
     execute_tool env command (w, a)
     = (Return ("Error: Unknown tool '" +:+ name +:+ "'"), (w, a)))
  ∧ (name ≠ "" → name ∈ available_tools a → json_loads env payload = None →
     execute_tool env command (w, a)
     = (Return ("Error: Error parsing arguments for " +:+ name
                +:+ ": Invalid JSON format"), (w, a)))
  ∧ (∀ args e w',
       name ≠ "" → name ∈ available_tools a → json_loads env payload = Some args →
       tools_execute env name args w = (Raise e, w') →
       ∃ text, execute_tool env command (w, a) = (Return text, (w', a))
               ∧ starts_with "Error: " text = true).
Proof.
  intros name payload. subst name payload.
  split; [apply execute_tool_returns|].
  rewrite execute_tool_run. cbv zeta.
  split; [|split; [|split]].
  - by intros ->.
  - intros Hname%truthy_true Hunknown. rewrite Hname. simpl.
    by rewrite bool_decide_eq_false_2.
  - intros Hname Hknown Hparse.
    rewrite <-execute_tool_run, execute_tool_known by done. cbv zeta.
    by rewrite Hparse.
  - intros args e w' Hname Hknown Hparse Hrun.
    rewrite <-execute_tool_run, execute_tool_known by done. cbv zeta.
    rewrite Hparse, Hrun.
    eexists. split; [done|].
    unfold error_observation. by destruct (is_JSONDecodeError e).
Qed.

(** The theorem at three calls of the demo agent: the unknown tool
    [frobnicate] of the spec's scenario, a call with no tool name, and a call
    whose arguments do not parse. *)
Lemma execute_tool_never_raises_witness :
  let env := AgentDemo.agent_env (Return None) AgentDemo.name_tool in
  let a := AgentDemo.agent_with AUTO [] [] in
  execute_tool env (AgentDemo.call_of "call_1" "frobnicate" "{}") ([], a)
  = (Return "Error: Unknown tool 'frobnicate'", ([], a))
  ∧ execute_tool env (AgentDemo.call_of "call_2" "" "{}") ([], a)
    = (Return "Error: Invalid command format", ([], a))
  ∧ execute_tool env (AgentDemo.call_of "call_3" "echo" "not json") ([], a)
    = (Return "Error: Error parsing arguments for echo: Invalid JSON format", ([], a)).
Proof.
  intros env a. split; [|split].
  - destruct (execute_tool_never_raises env
                (AgentDemo.call_of "call_1" "frobnicate" "{}") [] a)
      as (_ & _ & Hunknown & _).
    apply Hunknown; [done|].
    exact (bool_decide_unpack ("frobnicate" ∉ available_tools a) I).
  - destruct (execute_tool_never_raises env
                (AgentDemo.call_of "call_2" "" "{}") [] a) as (_ & Hmissing & _).
    by apply Hmissing.
  - destruct (execute_tool_never_raises env
                (AgentDemo.call_of "call_3" "echo" "not json") [] a)
      as (_ & _ & _ & Hparse & _).
    apply Hparse; [done| |reflexivity].
    exact (bool_decide_unpack ("echo" ∈ available_tools a) I).
Defined.

(** ** Special tools *)

(** A tool is special exactly when its name, lowered, is the lowered form
    of a name in the list. *)
Lemma is_special_tool_iff {World JSON : Type} (env : Env World JSON) a name :
  _is_special_tool env a name = true
  ↔ ∃ special, special ∈ special_tool_names a
               ∧ str_lower env special = str_lower env name.
Proof.
  unfold _is_special_tool. rewrite bool_decide_eq_true, list_elem_of_fmap.
  split; intros (special & Hsame & Hin); exists special; done.
Qed.

Lemma is_special_tool_false {World JSON : Type} (env : Env World JSON) a name :
  (∀ special, special ∈ special_tool_names a →
     str_lower env special ≠ str_lower env name) →
  _is_special_tool env a name = false.
Proof.
  intros Hnone. apply not_true_is_false. intros Hspecial.
  apply is_special_tool_iff in Hspecial as (special & Hin & Hsame).
  by apply (Hnone special).
Qed.

(** With the default list the terminate tool is special. *)
Lemma terminate_is_special_by_default {World JSON : Type} (env : Env World JSON) a :
  special_tool_names a = default_special_tool_names →
  _is_special_tool env a "terminate" = true.
Proof.
  intros Hdefault. apply is_special_tool_iff. exists "terminate".
  rewrite Hdefault. split; [apply list_elem_of_here|done].
Qed.

(** What the hook and [execute_tool] make of the state, for a tool that is
    special and for one that is not. *)
Lemma special_tool_state {World JSON : Type} (env : Env World JSON)
    command args result w w' a :
  let name := name (function command) in
  name ≠ "" → name ∈ available_tools a →
  json_loads env (or_default (Some (arguments (function command))) "{}") = Some args →
  tools_execute env name args w = (Return result, w') →
  (_is_special_tool env a name = true → should_finish_execution env name result = true →
   _handle_special_tool env name result (w', a) = (Return tt, (w', set_state FINISHED a))
   ∧ state (execute_tool env command (w, a)).2.2 = FINISHED)
  ∧ (_is_special_tool env a name = false →
     _handle_special_tool env name result (w', a) = (Return tt, (w', a))
     ∧ state (execute_tool env command (w, a)).2.2 = state a).
Proof.
  intros name Hname Hknown Hparse Hrun. subst name. split.
  - intros Hspecial Hfinish. rewrite handle_special_tool_run.
    unfold after_special at 1. rewrite Hspecial, Hfinish. simpl.
    split; [done|].
    rewrite execute_tool_known by done. cbv zeta. rewrite Hparse, Hrun. simpl.
    unfold after_special. rewrite Hspecial, Hfinish. simpl.
    unfold after_media. by destruct (value_image result).
  - intros Hplain. rewrite handle_special_tool_run.
    unfold after_special at 1. rewrite Hplain. simpl. split; [done|].
    rewrite execute_tool_known by done. cbv zeta. rewrite Hparse, Hrun. simpl.
    unfold after_special. rewrite Hplain. simpl.
    unfold after_media. by destruct (value_image result).
Qed.

(** C8, against the claim as stated. The special-tool list is a field of
    the agent: an agent whose list was set empty runs the terminate tool with
    success and stays RUNNING. And membership is tested on lowered names: with
    the default list, the hook finishes the agent on the name [TERMINATE],
    which is no member of the list. *)
Lemma special_tool_set_counterexample :
  let env := AgentDemo.agent_env (Return None) AgentDemo.name_tool in
  let a := AgentDemo.agent_without_special in
  let command := AgentDemo.call_of "call_1" "terminate" "{}" in
  let b := AgentDemo.agent_with AUTO [] [] in
  (special_tool_names a = []
   ∧ state a = RUNNING
   ∧ should_finish_execution env "terminate" (PlainString "terminate") = true
   ∧ execute_tool env command ([], a)
     = (Return ("Observed output of cmd `terminate` executed:" +:+ nl +:+ "terminate"),
        (["terminate"], a))
   ∧ state (execute_tool env command ([], a)).2.2 = RUNNING)
  ∧ (special_tool_names b = ["terminate"]
     ∧ bool_decide ("TERMINATE" ∈ special_tool_names b) = false
     ∧ state b = RUNNING
     ∧ state (_handle_special_tool env "TERMINATE" (PlainString "done") ([], b)).2.2
       = FINISHED).
Proof. vm_compute. done. Qed.

(** C8, amended. A tool is special when its name, lowered, is the lowered
    form of a name in the agent's special-tool list; the list is a field of
    the agent whose default holds the terminate tool alone. When a special
    tool has run and the decision predicate says so (that of the base class
    always does), the hook moves the agent, RUNNING before, to FINISHED, and
    so does [execute_tool] around it; so the terminate tool finishes an agent
    that has the default list. For a tool that is not special the hook
    changes nothing, and [execute_tool] leaves the state as it was. *)
Theorem special_tool_finishes {World JSON : Type} (env : Env World JSON)
    command args result w w' a :
  let name := name (function command) in
  name ≠ "" → name ∈ available_tools a →
  json_loads env (or_default (Some (arguments (function command))) "{}") = Some args →
  tools_execute env name args w = (Return result, w') →
  state a = RUNNING →
  _should_finish_execution name result = true
  ∧ ((∃ special, special ∈ special_tool_names a
                 ∧ str_lower env special = str_lower env name) →
     should_finish_execution env name result = true →
     _handle_special_tool env name result (w', a) = (Return tt, (w', set_state FINISHED a))
     ∧ state (set_state FINISHED a) = FINISHED
     ∧ state (execute_tool env command (w, a)).2.2 = FINISHED)
  ∧ (special_tool_names a = default_special_tool_names → name = "terminate" →
     should_finish_execution env name result = true →
     state (execute_tool env command (w, a)).2.2 = FINISHED)
  ∧ ((∀ special, special ∈ special_tool_names a →
        str_lower env special ≠ str_lower env name) →
     _handle_special_tool env name result (w', a) = (Return tt, (w', a))
     ∧ state (execute_tool env command (w, a)).2.2 = RUNNING).
Proof.
  intros name Hname Hknown Hparse Hrun Hstate.
  destruct (special_tool_state env command args result w w' a Hname Hknown Hparse Hrun)
    as [Hspecial Hplain].
  split; [done|]. split; [|split].
  - intros Hin Hfinish. apply is_special_tool_iff in Hin.
    destruct (Hspecial Hin Hfinish) as [Hhook Hafter]. done.
  - intros Hdefault Hterminate Hfinish. apply Hspecial; [|done].
    fold name. rewrite Hterminate. by apply terminate_is_special_by_default.
  - intros Hnone. apply is_special_tool_false in Hnone.
    destruct (Hplain Hnone) as [Hhook Hafter]. by rewrite <- Hstate.
Qed.

(** The theorem at the terminate tool of the demo agent, whose list is the
    default one. *)
Lemma special_tool_finishes_witness :
  let env := AgentDemo.agent_env (Return None) AgentDemo.name_tool in
  let a := AgentDemo.agent_with AUTO [] [] in
  let command := AgentDemo.call_of "call_1" "terminate" "{}" in
  _handle_special_tool env "terminate" (PlainString "terminate") (["terminate"], a)
  = (Return tt, (["terminate"], set_state FINISHED a))
  ∧ state (set_state FINISHED a) = FINISHED
  ∧ state (execute_tool env command ([], a)).2.2 = FINISHED.
Proof.
  intros env a command.
  destruct (special_tool_finishes env command "{}" (PlainString "terminate")
              [] ["terminate"] a) as (_ & Hspecial & _).
  - done.
  - apply list_elem_of_further, list_elem_of_here.
  - reflexivity.
  - reflexivity.
  - reflexivity.
  - apply Hspecial; [|reflexivity].
    exists "terminate". split; [apply list_elem_of_here|reflexivity].
Defined.

(** ** Cutting an observation *)

Lemma char_length_take_chars n s :
  char_length (take_chars n s) = Nat.min n (char_length s).
Proof.
  revert n. induction s as [|c s IH]; intros n; simpl; [lia|].
  destruct (is_continuation c) eqn:Hc; simpl; rewrite ?Hc; [apply IH|].
  destruct n as [|n]; simpl; [done|]. by rewrite Hc, IH.
Qed.

Lemma starts_with_take_chars n s : starts_with (take_chars n s) s = true.
Proof.
  revert n. induction s as [|c s IH]; intros n; simpl; [done|].
  destruct (is_continuation c); simpl; [by rewrite Ascii.eqb_refl|].
  destruct n as [|n]; simpl; [done|]. by rewrite Ascii.eqb_refl.
Qed.

Lemma take_chars_all n s : (char_length s ≤ n)%nat → take_chars n s = s.
Proof.
  revert n. induction s as [|c s IH]; intros n; simpl; [done|].
  destruct (is_continuation c).
  - intros Hle. f_equal. by apply IH.
  - destruct n as [|n]; [lia|]. intros Hle. f_equal. apply IH. lia.
Qed.

(** With a positive [max_observe] the observation is cut to its first
    [max_observe] characters; with none, or with 0, it is left whole. *)
Lemma observe_spec max_observe text :
  match max_observe with
  | None => observe max_observe text = text
  | Some m =>
      (m = 0%Z → observe max_observe text = text)
      ∧ ((0 < m)%Z →
         observe max_observe text = take_chars (Z.to_nat m) text
         ∧ char_length (observe max_observe text)
           = Nat.min (Z.to_nat m) (char_length text)
         ∧ starts_with (observe max_observe text) text = true)
  end.
Proof.
  destruct max_observe as [m|]; [|done]. split.
  - by intros ->.
  - intros Hpos. unfold observe, slice_to.
    destruct (Z.eqb_spec m 0); [lia|].
    destruct (Z.ltb_spec m 0); [lia|].
    assert (take_chars (Z.to_nat (m `min` Z.of_nat (char_length text))) text
            = take_chars (Z.to_nat m) text) as ->.
    { destruct (Z.le_gt_cases m (Z.of_nat (char_length text))).
      - by rewrite Z.min_l.
      - rewrite Z.min_r by lia. rewrite Nat2Z.id.
        rewrite !take_chars_all; [done|lia|lia]. }
    split; [done|]. split; [apply char_length_take_chars|apply starts_with_take_chars].
Qed.

(** Characters are counted, not bytes: the warning sign in the error text
    of [execute_tool] is two code points of three bytes each, and a cut at 20
    characters keeps 24 bytes. *)
Example observe_counts_characters :
  observe (Some 20%Z) "Error: ⚠️ Tool 'echo' encountered a problem: boom"
  = "Error: ⚠️ Tool 'echo"
  ∧ String.length (observe (Some 20%Z) "Error: ⚠️ Tool 'echo' encountered a problem: boom") = 24%nat.
Proof. by vm_compute. Qed.

(** ** [act] *)

Section Act.
Context {World JSON : Type} (env : Env World JSON).

(** [execute_tool] touches nothing but the state and the captured media, and
    the media it leaves, when it started with none, is what the call
    captured. *)
Lemma execute_tool_frame command w a text w' a' :
  execute_tool env command (w, a) = (Return text, (w', a')) →
  messages a' = messages a
  ∧ max_observe a' = max_observe a
  ∧ tool_calls a' = tool_calls a
  ∧ tool_choices a' = tool_choices a
  ∧ (_current_base64_image a = None →
     _current_base64_image a' = captured_media env command (w, a)).
Proof.
  rewrite execute_tool_run. unfold captured_media. cbv zeta. cbn [fst snd].
  destruct (negb (truthy _)); [by intros [= <- <- <-]|].
  destruct (negb (bool_decide _)); [by intros [= <- <- <-]|].
  destruct (json_loads env _) as [args|]; [|by intros [= <- <- <-]].
  destruct (tools_execute env _ args w) as [[result|e] w1]; [|by intros [= <- <- <-]].
  intros [= <- <- <-].
  unfold after_media, after_special.
  destruct (value_image result) as [image|];
    destruct (_is_special_tool env a _ && should_finish_execution env _ result); done.
Qed.

Lemma act_loop_run commands :
  ∀ results (s : World * Agent),
    ∃ outcomes s',
      act_loop env commands results s
      = (Return (results ++ (observation <$> outcomes)), s')
      ∧ runs_in_order env commands s outcomes s'
      ∧ messages s'.2 = messages s.2 ++ zip_with message_of commands outcomes
      ∧ length outcomes = length commands
      ∧ max_observe s'.2 = max_observe s.2
      ∧ tool_calls s'.2 = tool_calls s.2
      ∧ Forall (λ o, observation o = observe (max_observe s.2) (raw o)) outcomes.
Proof.
  induction commands as [|command rest IH]; intros results [w a].
  - exists [], (w, a). simpl. rewrite !app_nil_r. repeat split; try done. constructor.
  - destruct (execute_tool_returns env command (reset_media (w, a)))
      as (text & [w1 a1] & Hrun).
    destruct (execute_tool_frame _ _ _ _ _ _ Hrun) as (Hm & Hmax & Hcalls & _ & Himg).
    specialize (Himg eq_refl). simpl in Hm, Hmax, Hcalls.
    set (o := {| raw := text;
                 observation := observe (max_observe a) text;
                 media := captured_media env command (reset_media (w, a)) |}).
    destruct (IH (results ++ [observation o])
                (log_message (message_of command o) (w1, a1)))
      as (outcomes & s' & Hloop & Horder & Hlog & Hlen & Hmax' & Hcalls' & Hcut).
    exists (o :: outcomes), s'.
    split; [|split; [|split; [|split; [|split; [|split]]]]].
    + simpl. run. change (w, set_current_base64_image None a) with (reset_media (w, a)).
      rewrite Hrun. run. rewrite Hmax, Himg.
      change (tool_message _ _ _ _) with (message_of command o).
      change (observe (max_observe a) text) with (observation o).
      change (w1, set_messages (messages a1 ++ [message_of command o]) a1)
        with (log_message (message_of command o) (w1, a1)).
      rewrite Hloop. by rewrite <-app_assoc.
    + by econstructor.
    + rewrite Hlog. simpl. rewrite Hm. by rewrite <-app_assoc.
    + simpl. by rewrite Hlen.
    + rewrite Hmax'. simpl. done.
    + rewrite Hcalls'. simpl. done.
    + constructor; [done|]. simpl in Hcut. by rewrite Hmax in Hcut.
Qed.

Lemma act_run w a :
  act env (w, a)
  = match tool_calls a with
    | [] =>
        if bool_decide (tool_choices a = REQUIRED)
        then (Raise (new_exc ValueError TOOL_CALL_REQUIRED), (w, a))
        else
          match last (messages a) with
          | Some m =>
              (Return (or_default (content m) "No content or commands to execute"),
               (w, a))
          | None => (Raise (new_exc IndexError "list index out of range"), (w, a))
          end
    | _ :: _ =>
        match act_loop env (tool_calls a) [] (w, a) with
        | (Return results, s') => (Return (join (nl +:+ nl) results), s')
        | (Raise e, s') => (Raise e, s')
        end
    end.
Proof.
  unfold act. run. destruct (tool_calls a) as [|command rest]; run.
  - destruct (bool_decide (tool_choices a = REQUIRED)); run; [done|].
    destruct (last (messages a)); run; done.
  - destruct (act_loop env (command :: rest) [] (w, a)) as [[results|e] s']; run; done.
Qed.

End Act.

(** C3. With tool calls pending, [act] runs them one after the other in the
    proposed order ([runs_in_order]: each call starts, captured media
    cleared, from the state the call before it left). It appends exactly one
    tool-role message per call, in the same order, carrying the call's
    observation, id and tool name and the media that call captured. Each
    observation is cut to its first [max_observe] characters (code points,
    as [len] counts them) when a positive one is set, and left whole when
    none is. The answer is the observations in call
    order, joined by a blank line. *)
Theorem act_runs_calls_in_order {World JSON : Type} (env : Env World JSON) w a :
  tool_calls a ≠ [] →
  ∃ outcomes after,
    act env (w, a) = (Return (join (nl +:+ nl) (observation <$> outcomes)), after)
    ∧ runs_in_order env (tool_calls a) (w, a) outcomes after
    ∧ messages after.2 = messages a ++ zip_with message_of (tool_calls a) outcomes
    ∧ length outcomes = length (tool_calls a)
    ∧ (∀ k command, tool_calls a !! k = Some command →
         ∃ o, outcomes !! k = Some o
              ∧ messages after.2 !! (length (messages a) + k)%nat
                = Some (tool_message (observation o) (call_id command)
                          (name (function command)) (media o)))
    ∧ (max_observe a = None → Forall (λ o, observation o = raw o) outcomes)
    ∧ (∀ m, max_observe a = Some m → (0 < m)%Z →
         Forall (λ o, observation o = take_chars (Z.to_nat m) (raw o)
                      ∧ char_length (observation o)
                        = Nat.min (Z.to_nat m) (char_length (raw o))) outcomes).
Proof.
  intros Hpending.
  destruct (act_loop_run env (tool_calls a) [] (w, a))
    as (outcomes & after & Hloop & Horder & Hlog & Hlen & _ & _ & Hcut).
  exists outcomes, after. simpl in Hlog, Hcut.
  split; [|split; [done|split; [done|split; [done|split; [|split]]]]].
  - rewrite act_run. destruct (tool_calls a); [done|]. by rewrite Hloop.
  - intros k command Hk.
    destruct (lookup_lt_is_Some_2 outcomes k) as [o Ho].
    { rewrite Hlen. by eapply lookup_lt_Some. }
    exists o. split; [done|].
    rewrite Hlog, lookup_app_r by lia.
    replace (length (messages a) + k - length (messages a))%nat with k by lia.
    rewrite lookup_zip_with, Hk. simpl. by rewrite Ho.
  - intros Hnone. rewrite Hnone in Hcut. done.
  - intros m Hm Hpos. rewrite Hm in Hcut.
    eapply Forall_impl; [exact Hcut|]. intros o Ho. cbv beta in Ho.
    pose proof (observe_spec (Some m) (raw o)) as [_ Hspec].
    destruct (Hspec Hpos) as (Hsub & Hlength & _).
    rewrite Ho. split; done.
Qed.

(** The theorem at the demo agent with three pending calls. *)
Lemma act_runs_calls_in_order_witness :
  let env := AgentDemo.agent_env (Return None) AgentDemo.name_tool in
  let a := AgentDemo.busy_agent in
  ∃ outcomes after,
    act env ([], a) = (Return (join (nl +:+ nl) (observation <$> outcomes)), after)
    ∧ runs_in_order env (tool_calls a) ([], a) outcomes after
    ∧ messages after.2 = messages a ++ zip_with message_of (tool_calls a) outcomes
    ∧ length outcomes = length (tool_calls a)
    ∧ (∀ k command, tool_calls a !! k = Some command →
         ∃ o, outcomes !! k = Some o
              ∧ messages after.2 !! (length (messages a) + k)%nat
                = Some (tool_message (observation o) (call_id command)
                          (name (function command)) (media o)))
    ∧ (max_observe a = None → Forall (λ o, observation o = raw o) outcomes)
    ∧ (∀ m, max_observe a = Some m → (0 < m)%Z →
         Forall (λ o, observation o = take_chars (Z.to_nat m) (raw o)
                      ∧ char_length (observation o)
                        = Nat.min (Z.to_nat m) (char_length (raw o))) outcomes).
Proof.
  intros env a.
  apply (act_runs_calls_in_order env [] a).
  discriminate.
Defined.

(** That run, spelled out: the tools ran in the order echo, terminate (the
    unknown tool never ran); the three messages follow the log in call order;
    the image reaches the first message only, and the stale one none. *)
Example act_three_calls :
  let env := AgentDemo.agent_env (Return None) AgentDemo.name_tool in
  let run := act env ([], AgentDemo.busy_agent) in
  run.1 = Return ("Observed output of cmd `echo` " +:+ nl +:+ nl
                  +:+ "Observed output of cmd `termin" +:+ nl +:+ nl
                  +:+ "Error: Unknown tool 'frobnicat")
  ∧ run.2.1 = ["echo"; "terminate"]
  ∧ messages run.2.2
    = [user_message "go";
       tool_message "Observed output of cmd `echo` " "call_1" "echo" (Some "aW1n");
       tool_message "Observed output of cmd `termin" "call_2" "terminate" None;
       tool_message "Error: Unknown tool 'frobnicat" "call_3" "frobnicate" None]
  ∧ state run.2.2 = FINISHED.
Proof. vm_compute. done. Qed.

(** ** [act] with no pending call *)

(** C5, as stated, fails: under the AUTO policy, with no pending call and a
    latest message whose content is empty, [act] does not answer that
    content: it answers a fixed text. *)
Lemma act_without_calls_counterexample :
  let env := AgentDemo.agent_env (Return None) AgentDemo.name_tool in
  let a := AgentDemo.agent_with AUTO [] [user_message "go"; assistant_message ""] in
  tool_calls a = []
  ∧ content <$> last (messages a) = Some (Some "")
  ∧ act env ([], a) = (Return "No content or commands to execute", ([], a)).
Proof. vm_compute. done. Qed.

(** C5, amended. Under the REQUIRED policy [think] answers true even when the
    model's answer proposes no tool call, and the [act] that follows, finding
    no pending call, raises an error with the message
    [Tool calls required but none provided]. Under any other policy, [act]
    with no pending call and a message log that is not empty raises nothing
    and changes nothing: it answers the latest message's content verbatim
    when that content is not empty, and the fixed text
    [No content or commands to execute] when it is empty or absent. *)
Theorem required_policy_defers_to_act {World JSON : Type} (env : Env World JSON)
    w a :
  (tool_choices a = REQUIRED →
   ∀ r w', ask env (with_prompt a) w = (Return (Some r), w') →
     response_tool_calls r = [] →
     ∃ a', think env (w, a) = (Return true, (w', a'))
           ∧ tool_calls a' = []
           ∧ act env (w', a')
             = (Raise (new_exc ValueError "Tool calls required but none provided"),
                (w', a'))
           ∧ step env (w, a)
             = (Raise (new_exc ValueError "Tool calls required but none provided"),
                (w', a')))
  ∧ (tool_calls a = [] → tool_choices a = REQUIRED →
     act env (w, a)
     = (Raise (new_exc ValueError "Tool calls required but none provided"), (w, a)))
  ∧ (tool_calls a = [] → tool_choices a ≠ REQUIRED →
     ∀ m, last (messages a) = Some m →
       (∀ c, content m = Some c → c ≠ "" → act env (w, a) = (Return c, (w, a)))
       ∧ (truthy_opt (content m) = false →
          act env (w, a) = (Return "No content or commands to execute", (w, a)))).
Proof.
  assert (∀ w0 a0, tool_calls a0 = [] → tool_choices a0 = REQUIRED →
            act env (w0, a0)
            = (Raise (new_exc ValueError "Tool calls required but none provided"),
               (w0, a0))) as Hraise.
  { intros w0 a0 Hcalls Hpolicy. rewrite act_run, Hcalls, Hpolicy. done. }
  split; [|split].
  - intros Hpolicy r w' Hask Hno.
    assert (tool_choices (with_prompt a) = REQUIRED) as Hpolicy'.
    { unfold with_prompt. by destruct (truthy_opt _). }
    assert (∃ a', think env (w, a) = (Return true, (w', a'))
                  ∧ tool_calls a' = [] ∧ tool_choices a' = REQUIRED)
      as (a' & Hthink & Hcalls & Hpolicy'').
    { rewrite think_run, Hask, think_process_run. cbv zeta.
      rewrite Hpolicy'. simpl. rewrite Hno. by eexists. }
    exists a'. split; [done|]. split; [done|].
    split; [by apply Hraise|].
    rewrite step_run, Hthink. by apply Hraise.
  - apply Hraise.
  - intros Hcalls Hpolicy m Hlast.
    rewrite act_run, Hcalls, Hlast.
    rewrite bool_decide_eq_false_2 by done.
    split.
    + intros c -> Hc. apply truthy_true in Hc. simpl. by rewrite Hc.
    + intros Hfalsy. unfold or_default. destruct (content m) as [c|]; [|done].
      simpl in Hfalsy. by rewrite Hfalsy.
Qed.

(** The theorem at the demo agent: under REQUIRED, a model answer with text
    and no call; under AUTO, no pending call and a latest message that says
    [done]. *)
Lemma required_policy_defers_to_act_witness :
  let answer := {| response_content := Some "thinking"; response_tool_calls := [] |} in
  let env := AgentDemo.agent_env (Return (Some answer)) AgentDemo.name_tool in
  let required := AgentDemo.agent_with REQUIRED [] [] in
  let auto := AgentDemo.agent_with AUTO [] [user_message "go"; assistant_message "done"] in
  (∃ a', think env ([], required) = (Return true, ([], a'))
         ∧ tool_calls a' = []
         ∧ act env ([], a')
           = (Raise (new_exc ValueError "Tool calls required but none provided"),
              ([], a'))
         ∧ step env ([], required)
           = (Raise (new_exc ValueError "Tool calls required but none provided"),
              ([], a')))
  ∧ act env ([], auto) = (Return "done", ([], auto)).
Proof.
  intros answer env required auto. split.
  - destruct (required_policy_defers_to_act env [] required) as (Hthink & _).
    exact (Hthink eq_refl answer [] eq_refl eq_refl).
  - destruct (required_policy_defers_to_act env [] auto) as (_ & _ & Hlatest).
    assert (tool_choices auto ≠ REQUIRED) as Hpolicy by discriminate.
    destruct (Hlatest eq_refl Hpolicy (assistant_message "done") eq_refl)
      as [Hverbatim _].
    by apply (Hverbatim "done").
Defined.

(** ** What the NONE policy leaves pending *)

(** C7, where the code departs from it. Under NONE the proposed calls are
    not discarded: they are left out of the log but stay in [tool_calls], and
    when the answer also has free text, so that [think] answers true, the
    [act] that follows runs them: the tool [echo] is run and its tool message
    is logged. *)
Example none_policy_keeps_pending_calls :
  let proposal :=
    {| response_content := Some "hi";
       response_tool_calls := [AgentDemo.call_of "1" "echo" "{}"] |} in
  let env := AgentDemo.agent_env (Return (Some proposal)) AgentDemo.name_tool in
  let a := AgentDemo.agent_with NONE [] [] in
  tool_calls (think env ([], a)).2.2 = [AgentDemo.call_of "1" "echo" "{}"]
  ∧ (step env ([], a)).2.1 = ["echo"]
  ∧ role <$> messages (step env ([], a)).2.2 = [Assistant; Tool].
Proof. vm_compute. done. Qed.

(** Whatever the policy, [think] stores the calls the model proposed in
    [tool_calls]; when the model call fails, [tool_calls] stays as it was. *)
Theorem think_keeps_proposed_calls {World JSON : Type} (env : Env World JSON) w a :
  tool_calls (think env (w, a)).2.2
  = match ask env (with_prompt a) w with
    | (Return response, _) => response_calls response
    | (Raise _, _) => tool_calls a
    end.
Proof.
  assert (tool_calls (with_prompt a) = tool_calls a) as Hcalls.
  { unfold with_prompt. by destruct (truthy_opt _). }
  rewrite think_run.
  destruct (ask env (with_prompt a) w) as [[response|e] w'].
  - rewrite think_process_run. cbv zeta.
    destruct response as [r|]; [|done].
    destruct (tool_choices (with_prompt a)).
    + by destruct (truthy _).
    + by destruct (response_calls (Some r)).
    + by destruct (response_calls (Some r)).
  - destruct (is_ValueError e); [done|].
    by destruct (token_limit_cause e).
Qed.

(** ** [think] under the AUTO policy *)

(** Under AUTO, when the model answers, [think] answers true exactly when a
    tool call was proposed or the free text is not empty, and logs one
    assistant message, which carries the proposed calls. *)
Theorem think_auto_policy {World JSON : Type} (env : Env World JSON) w a :
  match tool_choices a, ask env (with_prompt a) w with
  | AUTO, (Return (Some r), w') =>
      let content := response_text (Some r) in
      ∃ a', think env (w, a)
            = (Return (negb (bool_decide (response_tool_calls r = []))
                       || truthy content), (w', a'))
            ∧ messages a'
              = messages (with_prompt a)
                ++ [{| role := Assistant; content := Some content;
                       msg_tool_calls := response_tool_calls r;
                       msg_name := None; tool_call_id := None;
                       msg_base64_image := None |}]
  | _, _ => True
  end.
Proof.
  destruct (tool_choices a) eqn:Hpolicy; try done.
  destruct (ask env (with_prompt a) w) as [[[r|]|e] w'] eqn:Hask; try done.
  assert (tool_choices (with_prompt a) = AUTO) as Hpolicy'.
  { unfold with_prompt. by destruct (truthy_opt _). }
  cbv zeta. rewrite think_run, Hask, think_process_run. cbv zeta.
  rewrite Hpolicy'. simpl.
  destruct (response_tool_calls r); eexists; split; done.
Qed.

(** ** What a step never does *)

Lemma later_refl a : later a a.
Proof. split; [done|]. split; [exists []; by rewrite app_nil_r|by left]. Qed.

Lemma later_trans a b c : later a b → later b c → later a c.
Proof.
  intros ((H1 & H2 & H3 & H4 & H5 & H6 & H7) & [l Hl] & Hs)
         ((G1 & G2 & G3 & G4 & G5 & G6 & G7) & [l' Hl'] & Hs').
  split; [|split].
  - repeat split; congruence.
  - exists (l ++ l'). by rewrite Hl', Hl, app_assoc.
  - destruct Hs' as [->| ->]; [done|by right].
Qed.

Lemma later_log a l : later a (set_messages (messages a ++ l) a).
Proof. split; [done|]. split; [by exists l|by left]. Qed.

Lemma later_set_tool_calls a calls : later a (set_tool_calls calls a).
Proof. split; [done|]. split; [exists []; by rewrite app_nil_r|by left]. Qed.

Lemma later_finished a : later a (set_state FINISHED a).
Proof. split; [done|]. split; [exists []; by rewrite app_nil_r|by right]. Qed.

Lemma later_media a image : later a (set_current_base64_image image a).
Proof. split; [done|]. split; [exists []; by rewrite app_nil_r|by left]. Qed.

Lemma later_with_prompt a : later a (with_prompt a).
Proof.
  unfold with_prompt. destruct (truthy_opt (next_step_prompt a));
    [apply later_log|apply later_refl].
Qed.

Section Later.
Context {World JSON : Type} (env : Env World JSON).

Lemma think_process_later response (w : World) a :
  later a (think_process response (w, a)).2.2.
Proof.
  rewrite think_process_run. cbv zeta.
  pose proof (later_set_tool_calls a (response_calls response)) as Hcalls.
  assert (∀ m, later a (set_messages
                          (messages (set_tool_calls (response_calls response) a) ++ [m])
                          (set_tool_calls (response_calls response) a))) as Hlog.
  { intros m. eapply later_trans; [exact Hcalls|apply later_log]. }
  destruct response as [r|]; [|apply Hlog].
  destruct (tool_choices a).
  - destruct (truthy _); [apply Hlog|exact Hcalls].
  - destruct (response_calls (Some r)); apply Hlog.
  - destruct (response_calls (Some r)); apply Hlog.
Qed.

Lemma think_later (w : World) a : later a (think env (w, a)).2.2.
Proof.
  rewrite think_run.
  pose proof (later_with_prompt a) as Hprompt.
  destruct (ask env (with_prompt a) w) as [[response|e] w'].
  - eapply later_trans; [exact Hprompt|apply think_process_later].
  - destruct (is_ValueError e); [exact Hprompt|].
    destruct (token_limit_cause e); [|exact Hprompt].
    eapply later_trans; [exact Hprompt|].
    eapply later_trans; [apply later_log|apply later_finished].
Qed.

Lemma execute_tool_later command (w : World) a :
  later a (execute_tool env command (w, a)).2.2.
Proof.
  rewrite execute_tool_run. cbv zeta.
  destruct (negb (truthy _)); [apply later_refl|].
  destruct (negb (bool_decide _)); [apply later_refl|].
  destruct (json_loads env _) as [args|]; [|apply later_refl].
  destruct (tools_execute env _ args w) as [[result|e] w1]; [|apply later_refl].
  cbn [fst snd]. unfold after_media, after_special.
  destruct (_is_special_tool env a _ && should_finish_execution env _ result).
  - eapply later_trans; [apply later_finished|].
    destruct (value_image result); [apply later_media|apply later_refl].
  - destruct (value_image result); [apply later_media|apply later_refl].
Qed.

Lemma runs_in_order_later commands (s : World * Agent) outcomes s' :
  runs_in_order env commands s outcomes s' → later s.2 s'.2.
Proof.
  induction 1 as [s|command rest s text s1 o outcomes s2 Hrun Ho _ IH].
  - apply later_refl.
  - eapply later_trans; [apply later_media|].
    eapply later_trans; [|exact IH].
    pose proof (execute_tool_later command s.1 (set_current_base64_image None s.2))
      as Htool.
    change (s.1, set_current_base64_image None s.2) with (reset_media s) in Htool.
    rewrite Hrun in Htool.
    eapply later_trans; [exact Htool|]. apply later_log.
Qed.

Lemma act_later (w : World) a :
  later a (act env (w, a)).2.2 ∧ tool_calls (act env (w, a)).2.2 = tool_calls a.
Proof.
  rewrite act_run. destruct (tool_calls a) as [|command rest] eqn:Hcalls.
  - destruct (bool_decide _); [split; [apply later_refl|done]|].
    destruct (last (messages a)); split; try apply later_refl; done.
  - destruct (act_loop_run env (command :: rest) [] (w, a))
      as (outcomes & s' & -> & Horder & _ & _ & _ & Hkeep & _).
    split; [exact (runs_in_order_later _ _ _ _ Horder)|].
    simpl in *. by rewrite Hkeep.
Qed.

End Later.

(** No method of the agent rewrites the past: [think], [act] and [step]
    leave the agent's setup alone, only append to the message log, and change
    the state to FINISHED or not at all; and [act] leaves the pending calls
    in place, so that acting again runs them again. *)
Theorem step_only_appends {World JSON : Type} (env : Env World JSON) w a :
  later a (think env (w, a)).2.2
  ∧ later a (act env (w, a)).2.2
  ∧ later a (step env (w, a)).2.2
  ∧ tool_calls (act env (w, a)).2.2 = tool_calls a.
Proof.
  split; [apply think_later|]. split; [apply act_later|]. split; [|apply act_later].
  rewrite step_run. pose proof (think_later env w a) as Hthink.
  destruct (think env (w, a)) as [[[|]|e] [w1 a1]]; [|done|done].
  eapply later_trans; [exact Hthink|apply act_later].
Qed.

(** ** The observation of a tool result *)

(** What [execute_tool] observes of a [ToolResult] that a registered tool
    answers: the error text when there is one, else the output; a result with
    no truthy field counts as no output; and a result with neither error nor
    output but with an image is reported as a problem of the tool, although
    its image has been captured for the tool message. *)
Theorem tool_result_observation {World JSON : Type} (env : Env World JSON)
    command args r w w' a :
  let name := name (function command) in
  name ≠ "" → name ∈ available_tools a →
  json_loads env (or_default (Some (arguments (function command))) "{}") = Some args →
  tools_execute env name args w = (Return (ResultObject r), w') →
  ∃ a',
    execute_tool env command (w, a)
    = (Return (if negb (ToolResult_bool r)
               then "Cmd `" +:+ name +:+ "` completed with no output"
               else if truthy_opt (error r)
               then "Observed output of cmd `" +:+ name +:+ "` executed:" +:+ nl
                    +:+ "Error: " +:+ default "" (error r)
               else match output r with
                    | Some text =>
                        "Observed output of cmd `" +:+ name +:+ "` executed:" +:+ nl
                        +:+ text
                    | None => unprintable_text name
                    end), (w', a'))
    ∧ _current_base64_image a'
      = if truthy_opt (base64_image r) then base64_image r
        else _current_base64_image a.
Proof.
  intros name Hname Hknown Hargs Hrun.
  rewrite execute_tool_known by done. cbv zeta. fold name. rewrite Hargs, Hrun.
  eexists. split; [f_equal|].
  - unfold observation_text, value_bool, value_str, ToolResult_str.
    destruct (ToolResult_bool r); [|done]. simpl.
    destruct (truthy_opt (error r)); [done|].
    by destruct (output r).
  - unfold after_media, after_special, value_image.
    destruct (truthy_opt (base64_image r)) eqn:Himage.
    + by destruct (base64_image r) as [image|] eqn:Hr.
    + by destruct (_is_special_tool env a name && should_finish_execution env name _).
Qed.

Lemma tool_result_observation_witness :
  let env := AgentDemo.agent_env (Return None)
               (λ _, Return (ResultObject {| output := None; error := None;
                                             base64_image := Some "aW1n";
                                             system := None |})) in
  let a := AgentDemo.agent_with AUTO [] [] in
  ∃ a',
    execute_tool env (AgentDemo.call_of "call_1" "echo" "{}") ([], a)
    = (Return (unprintable_text "echo"), (["echo"], a'))
    ∧ _current_base64_image a' = Some "aW1n".
Proof.
  intros env a.
  apply (tool_result_observation env (AgentDemo.call_of "call_1" "echo" "{}") "{}"
           {| output := None; error := None; base64_image := Some "aW1n";
              system := None |} [] ["echo"] a).
  - done.
  - exact (bool_decide_unpack ("echo" ∈ available_tools a) I).
  - reflexivity.
  - reflexivity.
Defined.

End AgentFacts.

(** * Facts about combining tool results *)

Module ToolResultFacts.
Import ToolCallAgent ToolResults.

Lemma combine_fields_concat x y : combine_fields x y true = Return (joined x y).
Proof. unfold combine_fields, joined. by destruct (truthy_opt x && truthy_opt y). Qed.

Lemma append_assoc (s t u : string) : (s +:+ t) +:+ u = s +:+ (t +:+ u).
Proof.
  induction s as [|c s IH]; [done|].
  change (String c ((s +:+ t) +:+ u) = String c (s +:+ t +:+ u)). by rewrite IH.
Qed.

Lemma append_nil_r (s : string) : s +:+ "" = s.
Proof.
  induction s as [|c s IH]; [done|].
  change (String c (s +:+ "") = String c s). by rewrite IH.
Qed.

Lemma truthy_app s t : truthy (s +:+ t) = truthy s || truthy t.
Proof. by destruct s, t. Qed.

Lemma truthy_joined x y : truthy_opt (joined x y) = truthy_opt x || truthy_opt y.
Proof.
  unfold joined. destruct x as [[|c x]|], y as [[|d y]|]; done.
Qed.

Lemma joined_assoc x y z : joined (joined x y) z = joined x (joined y z).
Proof.
  destruct x as [[|c x]|], y as [[|d y]|], z as [[|e z]|]; try done.
  change (Some ((String c x +:+ String d y) +:+ String e z)
          = Some (String c x +:+ (String d y +:+ String e z))).
  by rewrite append_assoc.
Qed.

Lemma ToolResult_add_run a b :
  ToolResult_add a b
  = if truthy_opt (base64_image a) && truthy_opt (base64_image b)
    then Raise (new_exc ValueError "Cannot combine tool results")
    else Return {| output := joined (output a) (output b);
                   error := joined (error a) (error b);
                   base64_image := joined (base64_image a) (base64_image b);
                   system := joined (system a) (system b) |}.
Proof.
  unfold ToolResult_add. rewrite !combine_fields_concat.
  unfold combine_fields, joined.
  by destruct (truthy_opt (base64_image a) && truthy_opt (base64_image b)).
Qed.

(** Adding two tool results raises [ValueError] exactly when both carry an
    image; otherwise the sum exists, it is truthy exactly when one of the
    two is, and an error text of either makes the sum print as an error. *)
Theorem ToolResult_add_raises_on_two_images a b :
  (truthy_opt (base64_image a) && truthy_opt (base64_image b) = true →
   ToolResult_add a b = Raise (new_exc ValueError "Cannot combine tool results"))
  ∧ (truthy_opt (base64_image a) && truthy_opt (base64_image b) = false →
     ∃ c, ToolResult_add a b = Return c
          ∧ ToolResult_bool c = ToolResult_bool a || ToolResult_bool b
          ∧ (truthy_opt (error a) || truthy_opt (error b) = true →
             ToolResult_str c
             = Return ("Error: " +:+ or_default (error a) "" +:+ or_default (error b) ""))).
Proof.
  rewrite ToolResult_add_run. split; intros ->; [done|].
  eexists. split; [done|]. split.
  - unfold ToolResult_bool. simpl. rewrite !truthy_joined.
    destruct (truthy_opt (output a)), (truthy_opt (output b)),
      (truthy_opt (error a)), (truthy_opt (error b)),
      (truthy_opt (base64_image a)), (truthy_opt (base64_image b)),
      (truthy_opt (system a)), (truthy_opt (system b)); done.
  - intros Herr. unfold ToolResult_str. simpl. rewrite truthy_joined, Herr.
    f_equal. f_equal. unfold joined.
    destruct (error a) as [[|c x]|], (error b) as [[|d y]|]; try done.
    all: change (String c x = String c x +:+ ""); by rewrite append_nil_r.
Qed.

(** Addition of tool results is associative, failures included, and the
    empty result is neutral: on the left as it is, on the right up to falsy
    fields, which come back as [None]. *)
Theorem ToolResult_add_is_associative a b c :
  add_left a b c = add_right a b c
  ∧ ToolResult_add empty_result a = Return a
  ∧ ToolResult_add a empty_result = Return (without_falsy a).
Proof.
  split; [|split].
  - unfold add_left, add_right. rewrite !ToolResult_add_run.
    destruct (truthy_opt (base64_image a)) eqn:Ha,
      (truthy_opt (base64_image b)) eqn:Hb,
      (truthy_opt (base64_image c)) eqn:Hc; simpl;
      rewrite ?ToolResult_add_run; simpl; rewrite ?truthy_joined, ?Ha, ?Hb, ?Hc; simpl;
      try done; by rewrite !joined_assoc.
  - rewrite ToolResult_add_run. by destruct a.
  - rewrite ToolResult_add_run. rewrite andb_false_r.
    unfold without_falsy, drop_falsy, joined. simpl. rewrite !andb_false_r. done.
Qed.

End ToolResultFacts.

(** * Facts about building a flow *)

Module FlowSetupFacts.
Import PlanningFlow FlowSpec FlowFacts FlowSetup.

Lemma str_of_nat_inj n m : str_of_nat n = str_of_nat m → n = m.
Proof.
  unfold str_of_nat. intros H.
  apply Unsigned.to_uint_inj.
  assert (Some (Nat.to_uint n) = Some (Nat.to_uint m)) as [=]; [|done].
  by rewrite <- !NilEmpty.usu, H.
Qed.

Lemma agent_key_inj n m :
  "agent_" +:+ str_of_nat n = "agent_" +:+ str_of_nat m → n = m.
Proof. intros H. apply str_of_nat_inj. by simplify_eq. Qed.

(** The dict built from a list holds the [i]-th agent under the [i]-th key. *)
Lemma lookup_keyed {A} (key : nat → string) (l : list A) i :
  (∀ n m, key n = key m → n = m) →
  (list_to_map (imap (λ j x, (key j, x)) l) : gmap string A) !! key i = l !! i.
Proof.
  intros Hinj. revert key Hinj i. induction l as [|x l IH]; intros key Hinj i; [done|].
  simpl. destruct i as [|i].
  - by rewrite lookup_insert_eq.
  - rewrite lookup_insert_ne by (intros H; by apply Hinj in H).
    apply (IH (key ∘ S)). intros n m H. apply Hinj in H. lia.
Qed.

Lemma fst_keyed {A} (key : nat → string) (l : list A) :
  (imap (λ j x, (key j, x)) l).*1 = key <$> seq 0 (length l).
Proof.
  revert key. induction l as [|x l IH]; intros key; [done|].
  simpl. f_equal. etrans; [apply (IH (key ∘ S))|].
  by rewrite <- fmap_S_seq, <- list_fmap_compose.
Qed.

Lemma first_executor_head (ags : gmap string AgentId) key keys a :
  ags !! key = Some a → first_executor ags (key :: keys) = Some a.
Proof. intros H. simpl. by rewrite H. Qed.

(** A flow built from a list of agents, with no keys passed, names the
    agents [agent_0], [agent_1], ... in list order, takes the first one as
    its primary agent, and runs every step that carries no agent's key as
    its type tag with that first agent. *)
Theorem flow_of_agent_list l data now tool_plans :
  truthy_opt (data_primary_agent_key data) = false →
  data_executors data = None → data_executor_keys data = None →
  let f := PlanningFlow_init (AgentList l) data now tool_plans in
  (∀ i, get_agent f ("agent_" +:+ str_of_nat i) = l !! i)
  ∧ executor_keys f = (λ i, "agent_" +:+ str_of_nat i) <$> seq 0 (length l)
  ∧ (l ≠ [] → primary_agent f = head l)
  ∧ (∀ step_type,
       (∀ t, step_type = Some t → t = "" ∨ agents f !! t = None) →
       l ≠ [] → get_executor f step_type = head l).
Proof.
  intros Hprimary Hexec Hkeys f.
  assert (∀ i, agents f !! ("agent_" +:+ str_of_nat i) = l !! i) as Hlook.
  { intros i. subst f. simpl.
    apply (lookup_keyed (λ i, "agent_" +:+ str_of_nat i)). apply agent_key_inj. }
  assert (executor_keys f = (λ i, "agent_" +:+ str_of_nat i) <$> seq 0 (length l))
    as Hkeys'.
  { subst f. simpl. rewrite Hexec, Hkeys. simpl.
    apply (fst_keyed (λ i, "agent_" +:+ str_of_nat i)). }
  split; [exact Hlook|]. split; [exact Hkeys'|]. split.
  - intros Hl. destruct l as [|a l]; [done|].
    unfold primary_agent. subst f. simpl. unfold primary_key_of.
    rewrite Hprimary. simpl. by rewrite lookup_insert_eq.
  - intros step_type Hnone Hl. destruct l as [|a l]; [done|].
    unfold get_executor.
    assert ((if truthy_opt step_type
             then step_type ≫= λ t, agents f !! t else None) = None) as ->.
    { destruct step_type as [t|]; [|done]. simpl.
      destruct (Hnone t eq_refl) as [->|Ht]; [done|].
      by destruct (truthy t). }
    rewrite Hkeys'.
    change (seq 0 (length (a :: l))) with (0%nat :: seq 1 (length l)).
    rewrite fmap_cons, (first_executor_head _ _ _ a); [done|].
    by rewrite (Hlook 0%nat).
Qed.

Lemma flow_of_agent_list_witness :
  let f := PlanningFlow_init (AgentList [7; 8; 9]%nat) no_data 17 ∅ in
  (∀ i, get_agent f ("agent_" +:+ str_of_nat i) = [7; 8; 9]%nat !! i)
  ∧ executor_keys f = (λ i, "agent_" +:+ str_of_nat i) <$> seq 0 3
  ∧ ([7; 8; 9]%nat ≠ [] → primary_agent f = Some 7%nat)
  ∧ (∀ step_type,
       (∀ t, step_type = Some t → t = "" ∨ agents f !! t = None) →
       [7; 8; 9]%nat ≠ [] → get_executor f step_type = Some 7%nat).
Proof.
  apply (flow_of_agent_list [7; 8; 9]%nat no_data 17 ∅); reflexivity.
Defined.

(** When no primary key is passed, the primary agent of a new flow is the
    first agent given; a flow built from no agent at all has none, and its
    [execute] answers the failure text at once, without touching anything. *)
Theorem flow_without_agents_fails {World JSON : Type} (env : Env World JSON)
    agents data now tool_plans fuel input_text w :
  truthy_opt (data_primary_agent_key data) = false →
  let f := PlanningFlow_init agents data now tool_plans in
  primary_agent f = snd <$> head (agents_dict agents)
  ∧ (agents_dict agents = [] →
     execute env fuel input_text (w, f)
     = (Return (Some "Execution failed: 没有可用的主代理"), (w, f))).
Proof.
  intros Hprimary f.
  assert (primary_agent f = snd <$> head (agents_dict agents)) as Hhead.
  { unfold primary_agent. subst f. simpl. unfold primary_key_of. rewrite Hprimary.
    destruct (agents_dict agents) as [|[k a] d]; simpl.
    - by destruct (data_primary_agent_key data).
    - by rewrite lookup_insert_eq. }
  split; [done|]. intros Hempty.
  rewrite Hempty in Hhead. simpl in Hhead.
  unfold execute, execute_body. unfold_monad.
  unfold get_flow. unfold_monad. simpl. by rewrite Hhead.
Qed.

Lemma flow_without_agents_fails_witness :
  let env := Demo.flow_env true (Return "done") IDLE in
  let f := PlanningFlow_init (AgentList []) no_data 17 ∅ in
  primary_agent f = None
  ∧ (agents_dict (AgentList []) = [] →
     execute env 5 "task" (tt, f)
     = (Return (Some "Execution failed: 没有可用的主代理"), (tt, f))).
Proof.
  intros env.
  apply (flow_without_agents_fails env (AgentList []) no_data 17 ∅ 5 "task" tt).
  reflexivity.
Defined.

End FlowSetupFacts.

(** * Facts about the command line *)

Module MainFacts.
Import Main.

Lemma parse_args_option flag value rest o :
  is_flag flag = true →
  parse_args (flag :: value :: rest) o = parse_args rest (set_option o (flag, value)).
Proof.
  unfold is_flag, set_option. simpl.
  destruct (String.eqb flag "--agent"); [done|].
  destruct (String.eqb flag "--image"); [done|].
  destruct (String.eqb flag "--project"); done.
Qed.

Lemma parse_args_spell options rest o :
  Forall (λ option, is_flag option.1 = true) options →
  parse_args (spell options ++ rest) o = parse_args rest (foldl set_option o options).
Proof.
  intros Hflags. revert o. induction Hflags as [|[flag value] options Hflag _ IH]; intros o.
  - done.
  - change (spell ((flag, value) :: options) ++ rest)
      with (flag :: value :: (spell options ++ rest)).
    rewrite parse_args_option by done. apply IH.
Qed.

(** The command line is read as flag-value pairs, left to right, a later
    value replacing an earlier one; a flag that ends the line without a value
    makes [main] return without running any agent; and the pipeline agent
    runs only when the last agent type is [pipeline] and an image path was
    given, the Manus agent standing in otherwise. *)
Theorem main_reads_flag_pairs options :
  Forall (λ option, is_flag option.1 = true) options →
  main (spell options) = Some (choose_agent (foldl set_option default_options options))
  ∧ (∀ flag, is_flag flag = true → main (spell options ++ [flag]) = None)
  ∧ (∀ arg rest, is_flag arg = false →
       main (spell options ++ arg :: rest)
       = choose_agent <$> parse_args rest (foldl set_option default_options options)).
Proof.
  intros Hflags. unfold main. split; [|split].
  - rewrite <- (app_nil_r (spell options)). by rewrite parse_args_spell.
  - intros flag Hflag. rewrite parse_args_spell by done.
    unfold is_flag in Hflag. simpl.
    destruct (String.eqb flag "--agent"); [done|].
    destruct (String.eqb flag "--image"); [done|].
    by destruct (String.eqb flag "--project").
  - intros arg rest Harg. rewrite parse_args_spell by done.
    unfold is_flag in Harg. simpl.
    destruct (String.eqb arg "--agent"); [done|].
    destruct (String.eqb arg "--image"); [done|].
    by destruct (String.eqb arg "--project").
Qed.

Lemma main_reads_flag_pairs_witness :
  let options := [("--agent", "planning"); ("--image", "ui.png"); ("--agent", "pipeline")] in
  main (spell options) = Some (RunPipeline "ui.png" None)
  ∧ (∀ flag, is_flag flag = true → main (spell options ++ [flag]) = None)
  ∧ (∀ arg rest, is_flag arg = false →
       main (spell options ++ arg :: rest)
       = choose_agent <$> parse_args rest (foldl set_option default_options options)).
Proof.
  intros options. apply (main_reads_flag_pairs options).
  repeat constructor.
Defined.

(** What the loop leaves in [input_image]: the value it started with, or a
    token of the command line that follows an [--image]. *)
Lemma parse_args_image n :
  ∀ args o o', (length args ≤ n)%nat →
    parse_args args o = Some o' →
    input_image o' = input_image o
    ∨ ∃ before value after,
        args = before ++ "--image" :: value :: after ∧ input_image o' = Some value.
Proof.
  induction n as [|n IH]; intros args o o' Hlen.
  { destruct args; [|simpl in Hlen; lia]. intros [= <-]. by left. }
  destruct args as [|arg rest]; [intros [= <-]; by left|].
  simpl in Hlen. cbn [parse_args].
  assert (∀ value rest' o1, rest = value :: rest' →
            parse_args rest' o1 = Some o' →
            input_image o' = input_image o1
            ∨ ∃ before v after,
                arg :: rest = before ++ "--image" :: v :: after
                ∧ input_image o' = Some v) as Hskip.
  { intros value rest' o1 -> Hparse.
    destruct (IH rest' o1 o') as [Hsame|(before & v & after & -> & Hv)];
      [simpl in Hlen; lia|done|by left|].
    right. by exists (arg :: value :: before), v, after. }
  destruct (String.eqb_spec arg "--agent") as [->|_].
  { destruct rest as [|value rest']; [done|]. intros Hparse.
    destruct (Hskip value rest' _ eq_refl Hparse) as [Hsame|?]; [by left|by right]. }
  destruct (String.eqb_spec arg "--image") as [->|_].
  { destruct rest as [|value rest']; [done|]. intros Hparse.
    destruct (Hskip value rest' _ eq_refl Hparse) as [Hsame|?]; [|by right].
    right. by exists [], value, rest'. }
  destruct (String.eqb_spec arg "--project") as [->|_].
  { destruct rest as [|value rest']; [done|]. intros Hparse.
    destruct (Hskip value rest' _ eq_refl Hparse) as [Hsame|?]; [by left|by right]. }
  intros Hparse.
  destruct (IH rest o o') as [Hsame|(before & v & after & -> & Hv)];
    [lia|done|by left|].
  right. by exists (arg :: before), v, after.
Qed.

(** Whatever the command line, the pipeline agent is run only on an image
    path that is not empty and that follows an [--image] on the line; a line
    without [--image] never runs it. *)
Theorem pipeline_needs_image argv image project :
  main argv = Some (RunPipeline image project) →
  image ≠ ""
  ∧ ∃ before after, argv = before ++ "--image" :: image :: after.
Proof.
  unfold main. destruct (parse_args argv default_options) as [o|] eqn:Hparse; [|done].
  simpl. unfold choose_agent.
  destruct (String.eqb (agent_type o) "pipeline"); simpl.
  2:{ by destruct (String.eqb (agent_type o) "planning"). }
  destruct (input_image o) as [[|c v]|] eqn:Himage; simpl.
  1,3: by destruct (String.eqb (agent_type o) "planning").
  intros [= <- <-]. split; [done|].
  destruct (parse_args_image (length argv) argv default_options o)
    as [Hsame|(before & value & after & -> & Hv)]; [done|done| |].
  - rewrite Himage in Hsame. done.
  - rewrite Himage in Hv. injection Hv as <-. by exists before, after.
Qed.

Lemma pipeline_needs_image_witness :
  "ui.png" ≠ ""
  ∧ ∃ before after,
      ["--project"; "shop"; "--image"; "ui.png"; "--agent"; "pipeline"]
      = before ++ "--image" :: "ui.png" :: after.
Proof.
  apply (pipeline_needs_image
           ["--project"; "shop"; "--image"; "ui.png"; "--agent"; "pipeline"]
           "ui.png" (Some "shop")).
  reflexivity.
Defined.

End MainFacts.

(** * Facts about the pipeline agent *)

Module PipelineFacts.
Import ToolCallAgent AgentSpec AgentFacts PipelineAgent.

(** ** The status dict *)

Lemma dict_get_set key value d : dict_get key (dict_set key value d) = Some value.
Proof.
  induction d as [|[k v] d IH]; simpl.
  - by rewrite String.eqb_refl.
  - destruct (String.eqb k key) eqn:Hk; simpl; by rewrite Hk.
Qed.

Lemma dict_get_set_ne key key' value d :
  key ≠ key' → dict_get key' (dict_set key value d) = dict_get key' d.
Proof.
  intros Hne. induction d as [|[k v] d IH]; simpl.
  - destruct (String.eqb_spec key key'); done.
  - destruct (String.eqb_spec k key) as [->|Hk]; simpl.
    + by destruct (String.eqb_spec key key').
    + by rewrite IH.
Qed.

Lemma step_entries_set_overall value d :
  step_entries (dict_set "status" value d) = step_entries d.
Proof.
  unfold step_entries. induction d as [|[k v] d IH]; simpl.
  - by rewrite filter_cons_False by (simpl; naive_solver).
  - destruct (String.eqb_spec k "status") as [->|Hk].
    + by rewrite !filter_cons_False by (simpl; naive_solver).
    + rewrite !filter_cons_True by done. by rewrite IH.
Qed.

Lemma overall_status_set_overall value d :
  overall_status (dict_set "status" value d) = overall_status d.
Proof. unfold overall_status. by rewrite step_entries_set_overall. Qed.

Lemma step_entries_not_in step status d :
  step ∉ d.*1 → step_entries (dict_set step status d) = step_entries d ++
    (if bool_decide (step = "status") then [] else [(step, status)]).
Proof.
  unfold step_entries. induction d as [|[k v] d IH]; simpl; intros Hnot.
  - case_bool_decide as Hs.
    + by rewrite filter_cons_False by (simpl; naive_solver).
    + by rewrite filter_cons_True by done.
  - apply not_elem_of_cons in Hnot as [Hk Hd].
    destruct (String.eqb_spec k step) as [->|_]; [done|].
    destruct (decide (k = "status")) as [->|Hks].
    + rewrite !filter_cons_False by (simpl; naive_solver). by apply IH.
    + rewrite !filter_cons_True by done. rewrite IH by done. done.
Qed.

(** The status dict that [update_pipeline_status] works on before it
    settles the overall status. *)
Lemma update_pipeline_status_dict step status output p :
  pipeline_status (update_pipeline_status step status output p)
  = let d := if bool_decide (step ∈ (pipeline_status p).*1)
             then dict_set step status (pipeline_status p)
             else pipeline_status p in
    dict_set "status" (overall_status d) d.
Proof.
  unfold update_pipeline_status. cbv zeta.
  case_bool_decide; [|done].
  destruct (truthy_opt output && bool_decide (step ∈ workflow_steps)); [|done].
  repeat (match goal with
          | |- context [if ?b then _ else _] => destruct b
          end; try done).
Qed.

(** After an update, the overall status is the one the step entries give,
    and a step entry that the dict holds has the new status. *)
Lemma update_pipeline_status_entry step status output p :
  let p' := update_pipeline_status step status output p in
  dict_get "status" (pipeline_status p') = Some (overall_status (pipeline_status p'))
  ∧ (step ∈ (pipeline_status p).*1 → step ≠ "status" →
     dict_get step (pipeline_status p') = Some status).
Proof.
  cbv zeta. rewrite update_pipeline_status_dict. cbv zeta. split.
  - by rewrite overall_status_set_overall, dict_get_set.
  - intros Hin Hne. rewrite bool_decide_eq_true_2 by done.
    rewrite dict_get_set_ne by done. apply dict_get_set.
Qed.

(** Every update leaves the overall status in line with the steps: it is
    [completed] when every step entry is, else [failed] when one of them is,
    else [in_progress]; a step name that the dict does not hold changes no
    entry; and on the empty dict, which is what the agent has before
    [initialize], any update reports the workflow as completed. *)
Theorem overall_status_follows_steps step status output p :
  let p' := update_pipeline_status step status output p in
  dict_get "status" (pipeline_status p') = Some (overall_status (pipeline_status p'))
  ∧ (step ∈ (pipeline_status p).*1 → step ≠ "status" →
     dict_get step (pipeline_status p') = Some status)
  ∧ (step ∉ (pipeline_status p).*1 →
     step_entries (pipeline_status p') = step_entries (pipeline_status p)
     ∧ output_files p' = output_files p)
  ∧ (pipeline_status p = [] → pipeline_status p' = [("status", "completed")]).
Proof.
  cbv zeta. rewrite update_pipeline_status_dict. cbv zeta.
  split; [|split; [|split]].
  - by rewrite overall_status_set_overall, dict_get_set.
  - intros Hin Hne. rewrite bool_decide_eq_true_2 by done.
    rewrite dict_get_set_ne by done. apply dict_get_set.
  - intros Hnot. rewrite bool_decide_eq_false_2 by done.
    split; [apply step_entries_set_overall|].
    unfold update_pipeline_status. by rewrite bool_decide_eq_false_2 by done.
  - intros ->. reflexivity.
Qed.

(** ** The override of [execute_tool] *)

Section Execute.
Context {World JSON : Type} (env : Env World JSON).

Lemma run_get_pipeline (w : World) p : get_pipeline (w, p) = (Return p, (w, p)).
Proof. done. Qed.

Lemma run_modify_pipeline g (w : World) p :
  modify_pipeline g (w, p) = (Return tt, (w, g p)).
Proof. done. Qed.

Lemma run_update_for_tool tool_name status output (w : World) p :
  update_for_tool tool_name status output (w, p)
  = (Return tt,
     (w, match step_of_tool tool_name with
         | Some step => update_pipeline_status step status output p
         | None => p
         end)).
Proof. unfold update_for_tool. by destruct (step_of_tool tool_name). Qed.

Lemma base_update_pipeline_status step status output p :
  base (update_pipeline_status step status output p) = base p.
Proof.
  unfold update_pipeline_status. cbv zeta.
  case_bool_decide; [|done].
  destruct (truthy_opt output && bool_decide (step ∈ workflow_steps)); [|done].
  repeat (match goal with
          | |- context [if ?b then _ else _] => destruct b
          end; try done).
Qed.

Lemma base_started tool_name status output p :
  base (match step_of_tool tool_name with
        | Some step => update_pipeline_status step status output p
        | None => p
        end) = base p.
Proof. destruct (step_of_tool tool_name); [apply base_update_pipeline_status|done]. Qed.

(** The override as a function of the state: it raises when the call is
    refused, and otherwise runs [ToolCallAgent.execute_tool] between two
    updates of the step the tool works on. *)
Lemma pipeline_execute_tool_run command w p :
  execute_tool env command (w, p)
  = if refused p command then (Raise item_assignment_error, (w, p))
    else
      let tool_name := name (function command) in
      let started :=
        match step_of_tool tool_name with
        | Some step => update_pipeline_status step "in_progress" None p
        | None => p
        end in
      match ToolCallAgent.execute_tool env command (w, base p) with
      | (Return text, (w', a')) =>
          (Return text,
           (w', match step_of_tool tool_name with
                | Some step =>
                    update_pipeline_status step
                      (if is_success text then "completed" else "failed") (Some text)
                      (set_base a' started)
                | None => set_base a' started
                end))
      | (Raise e, (w', a')) => (Raise e, (w', set_base a' started))
      end.
Proof.
  unfold execute_tool, refused. cbv zeta. rewrite run_bind, run_get_pipeline.
  rewrite run_bind.
  destruct (String.eqb _ "html_to_api_doc" && _);
    [destruct (truthy_opt (files_get p "description_text"))
    |destruct (String.eqb _ "html_to_springboot" && _);
       [destruct (truthy_opt (files_get p "package_name"))|]];
    rewrite ?run_raise, ?run_ret; try reflexivity.
  all: rewrite run_bind, run_update_for_tool, run_bind.
  all: unfold on_agent; rewrite base_started.
  all: destruct (ToolCallAgent.execute_tool env command (w, base p))
         as [[text|e] [w' a']]; [|done].
  all: by rewrite run_bind, run_update_for_tool, run_ret.
Qed.

Lemma pipeline_act_refused command rest w p :
  tool_calls (base p) = command :: rest → refused p command = true →
  act env (w, p)
  = (Raise item_assignment_error,
     (w, set_base (set_current_base64_image None (base p)) p)).
Proof.
  intros Hcalls Hrefused. unfold act. rewrite run_bind, run_get_pipeline, Hcalls.
  rewrite run_bind. cbn [act_loop]. rewrite run_bind, run_modify_pipeline.
  rewrite run_bind, pipeline_execute_tool_run.
  assert (refused (set_base (set_current_base64_image None (base p)) p) command = true)
    as -> by done.
  done.
Qed.

End Execute.

Lemma elem_of_dict_set_keys key key' value d :
  key ∈ d.*1 → key ∈ (dict_set key' value d).*1.
Proof.
  induction d as [|[k v] d IH]; simpl; [by intros ?%elem_of_nil|].
  intros [->|Hin]%elem_of_cons.
  - destruct (String.eqb k key'); simpl; apply elem_of_cons; by left.
  - destruct (String.eqb k key'); simpl; apply elem_of_cons; right; [done|by apply IH].
Qed.

Lemma step_of_tool_not_overall tool_name step :
  step_of_tool tool_name = Some step → step ≠ "status" ∧ step ∈ workflow_steps.
Proof.
  unfold step_of_tool, workflow_steps.
  repeat (match goal with
          | |- context [if ?b then _ else _] => destruct b
          end; [intros [= <-]; split; [done|set_solver]|]).
  done.
Qed.

(** The override of [execute_tool] raises [TypeError], before any tool is
    run, when it sets out to add an argument to the call: the arguments are
    a [str], which takes no item assignment. [act] raises with it. Once
    [initialize] has run, this is the case of every call of
    [html_to_springboot] whose arguments do not mention [package_name], and,
    when a project description was given, of every call of [html_to_api_doc]
    whose arguments do not mention [description_text]. *)
Theorem call_without_expected_argument_raises {World JSON : Type}
    (env : Env World JSON) command w p image project description package :
  let tool := name (function command) in
  let arguments := arguments (function command) in
  let ready := (initialize image project description package (w, p)).2.2 in
  (refused p command = true →
   execute_tool env command (w, p) = (Raise item_assignment_error, (w, p))
   ∧ ∀ rest, tool_calls (base p) = command :: rest →
       act env (w, p)
       = (Raise item_assignment_error,
          (w, set_base (set_current_base64_image None (base p)) p)))
  ∧ (tool = "html_to_springboot" → contains "package_name" arguments = false →
     refused ready command = true)
  ∧ (tool = "html_to_api_doc" → contains "description_text" arguments = false →
     truthy_opt description = true → refused ready command = true).
Proof.
  cbv zeta. split; [|split].
  - intros Hrefused. split.
    + by rewrite pipeline_execute_tool_run, Hrefused.
    + intros rest Hcalls. by apply (pipeline_act_refused env command rest).
  - intros Htool Hargs. unfold refused. rewrite Htool, Hargs. simpl.
    unfold files_get. simpl.
    rewrite !lookup_insert_ne by done. rewrite lookup_insert_eq. simpl.
    by destruct package as [[|c s]|].
  - intros Htool Hargs Hdesc. unfold refused. rewrite Htool, Hargs. simpl.
    unfold files_get. simpl.
    rewrite !lookup_insert_ne by done. rewrite lookup_insert_eq. simpl.
    by destruct description as [[|c s]|].
Qed.

(** A call of one of the five workflow tools that the override does not
    refuse answers what [ToolCallAgent.execute_tool] answers, and leaves the
    tool's step [completed] when the observation holds none of the three
    failure marks, [failed] otherwise (never [in_progress]), with the overall
    status in line with the steps. *)
Theorem pipeline_step_outcome {World JSON : Type} (env : Env World JSON)
    command w p step :
  step_of_tool (name (function command)) = Some step →
  step ∈ (pipeline_status p).*1 →
  refused p command = false →
  ∃ text w' p',
    execute_tool env command (w, p) = (Return text, (w', p'))
    ∧ ToolCallAgent.execute_tool env command (w, base p) = (Return text, (w', base p'))
    ∧ dict_get step (pipeline_status p')
      = Some (if is_success text then "completed" else "failed")
    ∧ dict_get "status" (pipeline_status p')
      = Some (overall_status (pipeline_status p')).
Proof.
  intros Hstep Hin Hok.
  destruct (step_of_tool_not_overall _ _ Hstep) as [Hne _].
  rewrite pipeline_execute_tool_run, Hok. cbv zeta. rewrite Hstep.
  destruct (execute_tool_returns env command (w, base p)) as (text & [w' a'] & Hrun).
  rewrite Hrun.
  set (started := update_pipeline_status step "in_progress" None p).
  set (status := if is_success text then "completed" else "failed").
  exists text, w', (update_pipeline_status step status (Some text) (set_base a' started)).
  split; [done|]. split; [by rewrite base_update_pipeline_status|].
  destruct (update_pipeline_status_entry step status (Some text) (set_base a' started))
    as (Hoverall & Hentry).
  split; [|exact Hoverall].
  apply Hentry; [|done].
  change (pipeline_status (set_base a' started)) with (pipeline_status started).
  subst started.
  rewrite update_pipeline_status_dict. cbv zeta.
  rewrite bool_decide_eq_true_2 by done.
  by do 2 apply elem_of_dict_set_keys.
Qed.

Lemma pipeline_step_outcome_witness :
  let env := AgentDemo.agent_env (Return None) (λ _, Return (PlainString "保存到: out/index.html")) in
  ∃ text w' p',
    execute_tool env (AgentDemo.call_of "call_1" "wireframe_html" "{}")
      ([], PipelineDemo.ready_pipeline)
    = (Return text, (w', p'))
    ∧ ToolCallAgent.execute_tool env (AgentDemo.call_of "call_1" "wireframe_html" "{}")
        ([], base PipelineDemo.ready_pipeline)
      = (Return text, (w', base p'))
    ∧ dict_get "html_creation" (pipeline_status p')
      = Some (if is_success text then "completed" else "failed")
    ∧ dict_get "status" (pipeline_status p')
      = Some (overall_status (pipeline_status p')).
Proof.
  intros env.
  apply (pipeline_step_outcome env (AgentDemo.call_of "call_1" "wireframe_html" "{}")
           [] PipelineDemo.ready_pipeline "html_creation").
  - reflexivity.
  - exact (bool_decide_unpack
             ("html_creation" ∈ (pipeline_status PipelineDemo.ready_pipeline).*1) I).
  - reflexivity.
Defined.

(** On that run the path of the page is read off the observation. *)
Example pipeline_html_step :
  let env := AgentDemo.agent_env (Return None)
               (λ _, Return (PlainString "保存到: out/index.html")) in
  let run := execute_tool env (AgentDemo.call_of "call_1" "wireframe_html" "{}")
               ([], PipelineDemo.ready_pipeline) in
  dict_get "html_creation" (pipeline_status run.2.2) = Some "completed"
  ∧ dict_get "status" (pipeline_status run.2.2) = Some "in_progress"
  ∧ files_get run.2.2 "html_path" = Some "out/index.html"
  ∧ refused PipelineDemo.ready_pipeline
      (AgentDemo.call_of "call_2" "html_to_springboot" "{}") = true.
Proof. vm_compute. done. Qed.

End PipelineFacts.

(** * Facts about the planning agent *)

Module PlanningAgentFacts.
Import ToolCallAgent AgentSpec AgentFacts PlanningAgent.

Section Planner.
Context {World JSON : Type} (env : Env World JSON) (inputs : Inputs JSON).

Lemma run_get_planner (w : World) p : get_planner (w, p) = (Return p, (w, p)).
Proof. done. Qed.

Lemma run_modify_planner g (w : World) p :
  modify_planner g (w, p) = (Return tt, (w, g p)).
Proof. done. Qed.

Lemma run_on_agent {A} (m : M (World * Agent) A) w p :
  on_agent m (w, p) = ((m (w, base p)).1, ((m (w, base p)).2.1, set_base (m (w, base p)).2.2 p)).
Proof. unfold on_agent. by destruct (m (w, base p)) as [r [w' a']]. Qed.

(** [update_plan_status] never raises and touches nothing of [self]. *)
Lemma update_plan_status_run tool_call_id w p :
  ∃ w', update_plan_status env inputs tool_call_id (w, p) = (Return tt, (w', p))
        ∧ (∀ plan_id tracker,
             active_plan_id p = Some plan_id → plan_id ≠ "" →
             step_execution_tracker p !! tool_call_id = Some tracker →
             status tracker = "completed" →
             w' = (tools_execute env "planning"
                     (mark_step_input inputs plan_id (step_index tracker) "completed")
                     w).2).
Proof.
  unfold update_plan_status. rewrite run_bind, run_get_planner.
  destruct (truthy_opt (active_plan_id p)) eqn:Hid; simpl.
  2:{ exists w. split; [done|]. intros plan_id tracker Hp Hne.
      rewrite Hp in Hid. by destruct plan_id. }
  destruct (step_execution_tracker p !! tool_call_id) as [t|] eqn:Ht.
  2:{ exists w. split; [done|]. by intros plan_id tracker _ _ [=]. }
  destruct (String.eqb_spec (status t) "completed") as [Hs|Hs]; simpl.
  2:{ exists w. split; [done|]. intros plan_id tracker _ _ [= <-] Hdone. done. }
  rewrite run_try, run_bind. unfold call.
  destruct (tools_execute env "planning" _ w) as [[r|e] w'] eqn:Hmark.
  - exists w'. split; [by rewrite run_ret|].
    intros plan_id tracker Hp _ [= <-] _. rewrite Hp in Hmark. simpl in Hmark.
    by rewrite Hmark.
  - exists w'. split; [by rewrite run_ret|].
    intros plan_id tracker Hp _ [= <-] _. rewrite Hp in Hmark. simpl in Hmark.
    by rewrite Hmark.
Qed.

(** [act] as a function of what [ToolCallAgent.act] does. *)
Lemma planning_act_run w p :
  ∃ w' tracker',
    act env inputs (w, p)
    = ((ToolCallAgent.act env (w, base p)).1,
       (w', set_tracker tracker' (set_base (ToolCallAgent.act env (w, base p)).2.2 p))).
Proof.
  unfold act. rewrite run_bind, run_on_agent.
  destruct (ToolCallAgent.act env (w, base p)) as [[text|e] [w1 a1]]; cbn [fst snd].
  2:{ exists w1, (step_execution_tracker p). by destruct p. }
  rewrite run_bind, run_get_planner.
  change (base (set_base a1 p)) with a1.
  change (step_execution_tracker (set_base a1 p)) with (step_execution_tracker p).
  destruct (tool_calls a1) as [|c rest].
  { exists w1, (step_execution_tracker p). rewrite run_ret. by destruct p. }
  destruct (step_execution_tracker p !! call_id c) as [t|].
  2:{ exists w1, (step_execution_tracker p). rewrite run_ret. by destruct p. }
  rewrite run_bind, run_modify_planner, run_bind.
  destruct (negb _ && negb _).
  - destruct (update_plan_status_run (call_id c) w1
                (set_tracker (<[call_id c := {| step_index := step_index t;
                                                tool_name := tool_name t;
                                                status := "completed";
                                                result := Some text |}]>
                                (step_execution_tracker p)) (set_base a1 p)))
      as (w2 & -> & _).
    rewrite run_ret. by eexists _, _.
  - rewrite !run_ret. by eexists _, _.
Qed.

(** [get_plan] and [_get_current_step_index] leave [self] alone. *)
Lemma get_plan_run w p : ∃ r w', get_plan env inputs (w, p) = (r, (w', p)).
Proof.
  unfold get_plan. rewrite run_bind, run_get_planner.
  destruct (negb (truthy_opt (active_plan_id p))); [by eexists _, _|].
  rewrite run_bind. unfold call.
  destruct (tools_execute env "planning" _ w) as [[[r|s]|e] w']; by eexists _, _.
Qed.

Lemma get_current_step_index_run w p :
  ∃ r w', _get_current_step_index env inputs (w, p) = (r, (w', p)).
Proof.
  unfold _get_current_step_index. rewrite run_bind, run_get_planner.
  destruct (negb (truthy_opt (active_plan_id p))); [by eexists _, _|].
  rewrite run_bind. destruct (get_plan_run w p) as ([plan|e] & w1 & ->);
    [|by eexists _, _].
  rewrite run_try. destruct plan as [text|]; [|by eexists _, _].
  destruct (scan_plan_text text) as [i|]; [|by eexists _, _].
  rewrite run_bind. unfold call.
  destruct (tools_execute env "planning" _ w1) as [[r|e] w2]; by eexists _, _.
Qed.

(** [think] either leaves the tracker alone or, having been answered [b] by
    [ToolCallAgent.think], ends with [track b]. *)
Lemma planning_think_run w p :
  ∃ r w' p',
    think env inputs (w, p) = (r, (w', p'))
    ∧ (step_execution_tracker p' = step_execution_tracker p
       ∨ ∃ b p0, r = Return b ∧ p' = track b p0
                 ∧ step_execution_tracker p0 = step_execution_tracker p).
Proof.
  unfold think. rewrite run_bind, run_get_planner, run_bind.
  assert (∃ r w1,
            (if truthy_opt (active_plan_id p)
             then plan ← get_plan env inputs;
                  mret (Some (plan_prompt plan (next_step_prompt (base p))))
             else mret (next_step_prompt (base p))) (w, p) = (r, (w1, p)))
    as (prompt & w1 & ->).
  { destruct (truthy_opt (active_plan_id p)); [|by eexists _, _].
    rewrite run_bind. destruct (get_plan_run w p) as ([plan|e] & w1 & ->);
      by eexists _, _. }
  destruct prompt as [prompt|e]; [|eexists _, _, _; split; [done|by left]].
  rewrite run_bind, run_modify_planner, run_bind.
  match goal with
  | |- context [_get_current_step_index env inputs (w1, ?p1)] =>
      destruct (get_current_step_index_run w1 p1) as ([index|e] & w2 & ->)
  end; [|eexists _, _, _; split; [done|by left]].
  rewrite run_bind, run_modify_planner, run_bind, run_on_agent.
  match goal with
  | |- context [ToolCallAgent.think env ?s] =>
      destruct (ToolCallAgent.think env s) as [[b|e] [w3 a3]]
  end; cbn [fst snd]; [|eexists _, _, _; split; [done|by left]].
  rewrite run_bind, run_modify_planner, run_ret.
  eexists _, _, _. split; [done|]. right. by eexists _, _.
Qed.

End Planner.

(** [PlanningAgent.act] answers, or raises, exactly what [ToolCallAgent.act]
    does, and leaves the agent part of [self] as that method leaves it: the
    tracking and the update of the plan never change the result and never
    raise, whatever the planning tool does. *)
Theorem planning_act_answers_as_act {World JSON : Type} (env : Env World JSON)
    (inputs : Inputs JSON) w p :
  let plain := ToolCallAgent.act env (w, base p) in
  let tracked := act env inputs (w, p) in
  tracked.1 = plain.1
  ∧ base tracked.2.2 = plain.2.2
  ∧ active_plan_id tracked.2.2 = active_plan_id p
  ∧ current_step_index tracked.2.2 = current_step_index p.
Proof.
  cbv zeta. destruct (planning_act_run env inputs w p) as (w' & tracker' & ->). done.
Qed.

(** When the first pending call is tracked and is neither a planning call
    nor a special tool, [act] asks the planning tool to mark the tracked step
    completed, whatever the observation of the call was: the text of a
    failure marks the step completed as well. *)
Theorem tracked_call_completes_its_step {World JSON : Type} (env : Env World JSON)
    (inputs : Inputs JSON) w p command rest tracker plan_id :
  tool_calls (base p) = command :: rest →
  step_execution_tracker p !! call_id command = Some tracker →
  name (function command) ≠ "planning" →
  name (function command) ∉ special_tool_names (base p) →
  active_plan_id p = Some plan_id → plan_id ≠ "" →
  ∃ text w1 a1,
    ToolCallAgent.act env (w, base p) = (Return text, (w1, a1))
    ∧ act env inputs (w, p)
      = (Return text,
         ((tools_execute env "planning"
             (mark_step_input inputs plan_id (step_index tracker) "completed") w1).2,
          set_tracker
            (<[call_id command :=
                 {| step_index := step_index tracker; tool_name := tool_name tracker;
                    status := "completed"; result := Some text |}]>
               (step_execution_tracker p))
            (set_base a1 p))).
Proof.
  intros Hcalls Htracker Hplanning Hspecial Hid Hne.
  pose proof (act_later env w (base p)) as [Hlater Hkeep].
  destruct (act_loop_run env (tool_calls (base p)) [] (w, base p))
    as (outcomes & [w1 a1] & Hloop & _).
  assert (ToolCallAgent.act env (w, base p)
          = (Return (join (nl +:+ nl) (observation <$> outcomes)), (w1, a1))) as Hact.
  { rewrite act_run, Hloop. by rewrite Hcalls. }
  rewrite Hact in Hlater, Hkeep. cbn [fst snd] in Hlater, Hkeep.
  destruct Hlater as ((_ & _ & _ & _ & _ & Hnames & _) & _).
  eexists _, w1, a1. split; [exact Hact|].
  unfold act. rewrite run_bind, run_on_agent, Hact. cbn [fst snd].
  rewrite run_bind, run_get_planner.
  change (base (set_base a1 p)) with a1.
  change (step_execution_tracker (set_base a1 p)) with (step_execution_tracker p).
  rewrite Hkeep, Hcalls, Htracker.
  rewrite run_bind, run_modify_planner, run_bind.
  rewrite Hnames.
  destruct (String.eqb_spec (name (function command)) "planning") as [?|_]; [done|].
  rewrite bool_decide_eq_false_2 by done. simpl.
  match goal with
  | |- context [update_plan_status env inputs ?id (?w0, ?p0)] =>
      destruct (update_plan_status_run env inputs id w0 p0) as (w2 & -> & Hw2)
  end.
  rewrite run_ret.
  by rewrite (Hw2 plan_id _ Hid Hne (lookup_insert_eq _ _ _) eq_refl).
Qed.

Lemma tracked_call_completes_its_step_witness :
  let env := AgentDemo.agent_env (Return None) AgentDemo.name_tool in
  ∃ text w1 a1,
    ToolCallAgent.act env ([], base PlannerDemo.busy_planner) = (Return text, (w1, a1))
    ∧ act env PlannerDemo.demo_inputs ([], PlannerDemo.busy_planner)
      = (Return text,
         ((tools_execute env "planning"
             (mark_step_input PlannerDemo.demo_inputs "plan_1" 0 "completed") w1).2,
          set_tracker
            (<["call_1" :=
                 {| step_index := 0; tool_name := "frobnicate";
                    status := "completed"; result := Some text |}]>
               (step_execution_tracker PlannerDemo.busy_planner))
            (set_base a1 PlannerDemo.busy_planner))).
Proof.
  intros env.
  apply (tracked_call_completes_its_step env PlannerDemo.demo_inputs []
           PlannerDemo.busy_planner (AgentDemo.call_of "call_1" "frobnicate" "{}") []
           {| step_index := 0; tool_name := "frobnicate";
              status := "pending"; result := None |} "plan_1").
  - reflexivity.
  - reflexivity.
  - done.
  - exact (bool_decide_unpack
             ("frobnicate" ∉ special_tool_names (base PlannerDemo.busy_planner)) I).
  - reflexivity.
  - done.
Defined.

(** On that run the observation is the text of a failure, and the planning
    tool is asked to mark step 0 completed all the same. *)
Example failed_call_completes_its_step :
  let env := AgentDemo.agent_env (Return None) AgentDemo.name_tool in
  let run := act env PlannerDemo.demo_inputs ([], PlannerDemo.busy_planner) in
  run.1 = Return "Error: Unknown tool 'frobnicate'"
  ∧ run.2.1 = ["planning"]
  ∧ status <$> step_execution_tracker run.2.2 !! "call_1" = Some "completed".
Proof. vm_compute. done. Qed.

(** [_get_current_step_index] at its edges: without a plan id it answers
    [None] and asks nothing; a planning tool that raises on [get] makes it
    raise; a result without a text, or a text in which the scan finds no
    open step, gives [None]; and when the scan finds step [i], the planning
    tool is asked to mark it in progress and [i] is answered, unless that
    call raises, in which case the answer is [None]. *)
Theorem current_step_index_edges {World JSON : Type} (env : Env World JSON)
    (inputs : Inputs JSON) w p :
  (truthy_opt (active_plan_id p) = false →
   _get_current_step_index env inputs (w, p) = (Return None, (w, p)))
  ∧ (∀ plan_id, active_plan_id p = Some plan_id → plan_id ≠ "" →
       _get_current_step_index env inputs (w, p)
       = match tools_execute env "planning" (get_input inputs plan_id) w with
         | (Raise e, w1) => (Raise e, (w1, p))
         | (Return result, w1) =>
             let plan := match result with
                         | ResultObject r => output r
                         | PlainString s => Some s
                         end in
             match plan ≫= scan_plan_text with
             | None => (Return None, (w1, p))
             | Some i =>
                 match tools_execute env "planning"
                         (mark_step_input inputs plan_id i "in_progress") w1 with
                 | (Return _, w2) => (Return (Some i), (w2, p))
                 | (Raise _, w2) => (Return None, (w2, p))
                 end
             end
         end).
Proof.
  split.
  - intros Hid. unfold _get_current_step_index.
    rewrite run_bind, (run_get_planner w p). by rewrite Hid.
  - intros plan_id Hid Hne.
    assert (truthy_opt (active_plan_id p) = true) as Htruthy
      by (rewrite Hid; by destruct plan_id).
    assert (get_plan env inputs (w, p)
            = match tools_execute env "planning" (get_input inputs plan_id) w with
              | (Return result, w1) =>
                  (Return (match result with
                           | ResultObject r => output r
                           | PlainString s => Some s
                           end), (w1, p))
              | (Raise e, w1) => (Raise e, (w1, p))
              end) as Hplan.
    { unfold get_plan. rewrite run_bind, (run_get_planner w p), Htruthy.
      change (negb true) with false. cbv iota. rewrite run_bind. unfold call. rewrite Hid. simpl default.
      by destruct (tools_execute env "planning" (get_input inputs plan_id) w)
        as [[[r|s]|e] w1]. }
    unfold _get_current_step_index.
    rewrite run_bind, (run_get_planner w p), Htruthy.
    change (negb true) with false. cbv iota. rewrite run_bind, Hplan.
    destruct (tools_execute env "planning" (get_input inputs plan_id) w)
      as [[result|e] w1]; [|done].
    cbv zeta. rewrite run_try.
    destruct (match result with
              | ResultObject r => output r
              | PlainString s => Some s
              end) as [text|]; [|done].
    simpl. destruct (scan_plan_text text) as [i|]; [|done].
    rewrite run_bind. unfold call. rewrite Hid. simpl default.
    by destruct (tools_execute env "planning" _ w1) as [[r|e] w2].
Qed.

(** [think] changes the tracker in one way only: it sets the entry of the
    first proposed call, to the current step and the status [pending], and
    that only when [ToolCallAgent.think] has answered that there is something
    to do, a current step was read off the plan, and the call is neither a
    planning call nor a call of a special tool. Every entry under another id
    is as it was, and no entry is added under another id. *)
Theorem think_tracks_the_first_call {World JSON : Type} (env : Env World JSON)
    (inputs : Inputs JSON) w p :
  let after := (think env inputs (w, p)).2.2 in
  (step_execution_tracker after = step_execution_tracker p
   ∨ ∃ command rest i,
       (think env inputs (w, p)).1 = Return true
       ∧ tool_calls (base after) = command :: rest
       ∧ current_step_index after = Some i
       ∧ name (function command) ≠ "planning"
       ∧ (name (function command) ∉ special_tool_names (base after))
       ∧ step_execution_tracker after
         = <[call_id command :=
               {| step_index := i; tool_name := name (function command);
                  status := "pending"; result := None |}]>
             (step_execution_tracker p))
  ∧ ∀ id, head (call_id <$> tool_calls (base after)) ≠ Some id →
      step_execution_tracker after !! id = step_execution_tracker p !! id.
Proof.
  cbv zeta. destruct (planning_think_run env inputs w p)
    as (r & w' & p' & -> & [Hsame|(b & p0 & -> & -> & Hsame)]); cbn [fst snd].
  { split; [by left|]. intros id _. by rewrite Hsame. }
  unfold track.
  destruct (tool_calls (base p0)) as [|command rest] eqn:Hcalls;
    [split; [by left|]; intros id _; by rewrite Hsame|].
  destruct (current_step_index p0) as [i|] eqn:Hindex;
    [|rewrite Hcalls; split; [by left|]; intros id _; by rewrite Hsame].
  destruct b; simpl;
    [|rewrite Hcalls; split; [by left|]; intros id _; by rewrite Hsame].
  destruct (String.eqb_spec (name (function command)) "planning") as [?|Hplanning];
    simpl; [rewrite Hcalls; split; [by left|]; intros id _; by rewrite Hsame|].
  case_bool_decide as Hspecial; simpl;
    [rewrite Hcalls; split; [by left|]; intros id _; by rewrite Hsame|].
  rewrite Hcalls. split.
  - right. exists command, rest, i. rewrite Hsame. by repeat split.
  - intros id Hid. simpl in Hid.
    rewrite lookup_insert_ne by (intros Heq; apply Hid; by rewrite Heq).
    by rewrite Hsame.
Qed.

(** At a model that proposes one call of [echo] while step 1 of the plan is
    open, [think] tracks that call under step 1. *)
Example think_tracks_echo :
  let after :=
    (think PlannerDemo.reading_env PlannerDemo.demo_inputs
       ([], PlannerDemo.idle_planner)).2.2 in
  step_execution_tracker after !! "call_9"
  = Some {| step_index := 1; tool_name := "echo"; status := "pending"; result := None |}
  ∧ current_step_index after = Some 1%nat.
Proof. by vm_compute. Qed.

End PlanningAgentFacts.

(** * Facts about plan texts *)

Module PlanTextFacts.
Import PlanningFlow FlowSpec FlowFacts PlanningAgent PlanTextSpec.

Lemma append_cons c (s t : string) : String c s +:+ t = String c (s +:+ t).
Proof. done. Qed.

Lemma append_nil_l (t : string) : "" +:+ t = t.
Proof. done. Qed.

Lemma app_assoc_s (s t u : string) : (s +:+ t) +:+ u = s +:+ (t +:+ u).
Proof.
  induction s as [|c s IH]; [done|]. rewrite !append_cons. by rewrite IH.
Qed.

Lemma length_append (s t : string) :
  String.length (s +:+ t) = (String.length s + String.length t)%nat.
Proof.
  induction s as [|c s IH]; [done|]. rewrite append_cons. simpl. by rewrite IH.
Qed.

(** *** Lines *)

(** Inside a line, and with an ASCII character after it, no line boundary
    starts. *)
Lemma one_line_no_break c s rest :
  one_line (String c s) = true → starts_ascii rest = true →
  skip_line_break (String c s +:+ rest) = None.
Proof.
  intros Hline Hrest. cbn [one_line] in Hline.
  apply andb_prop in Hline as [Hhere _].
  apply negb_true_iff, bool_decide_eq_false in Hhere.
  assert (skip_line_break (String c s) = None) as Hnone.
  { destruct (skip_line_break (String c s)); [|done]. exfalso. apply Hhere. by eexists. }
  clear Hhere. rewrite append_cons.
  unfold skip_line_break in *.
  destruct (nat_of_ascii c =? 13)%nat eqn:H13.
  { destruct s as [|c2 s]; [done|]. by destruct (nat_of_ascii c2 =? 10)%nat. }
  destruct ((10 <=? nat_of_ascii c) && (nat_of_ascii c <=? 12)
            || (28 <=? nat_of_ascii c) && (nat_of_ascii c <=? 30))%nat; [done|].
  destruct s as [|c2 s].
  - rewrite append_nil_l. destruct rest as [|d rest]; [done|].
    simpl in Hrest. apply Nat.ltb_lt in Hrest.
    destruct ((nat_of_ascii c =? 194) && (nat_of_ascii d =? 133))%nat eqn:H1.
    { apply andb_prop in H1 as [_ H1]. apply Nat.eqb_eq in H1. lia. }
    destruct rest as [|d2 rest]; [done|].
    destruct ((nat_of_ascii c =? 226) && (nat_of_ascii d =? 128) && _)%nat eqn:H2; [|done].
    apply andb_prop in H2 as [H2 _]. apply andb_prop in H2 as [_ H2].
    apply Nat.eqb_eq in H2. lia.
  - rewrite append_cons.
    destruct ((nat_of_ascii c =? 194) && (nat_of_ascii c2 =? 133))%nat; [done|].
    destruct s as [|c3 s].
    + rewrite append_nil_l. destruct rest as [|d rest]; [done|].
      simpl in Hrest. apply Nat.ltb_lt in Hrest.
      destruct ((nat_of_ascii c =? 226) && (nat_of_ascii c2 =? 128) && _)%nat eqn:H2;
        [|done].
      apply andb_prop in H2 as [_ H2]. apply orb_prop in H2 as [H2|H2];
        apply Nat.eqb_eq in H2; lia.
    + rewrite append_cons. by destruct (_ && _ && _)%nat.
Qed.

Lemma one_line_tail c s : one_line (String c s) = true → one_line s = true.
Proof. cbn [one_line]. by intros [_ ?]%andb_prop. Qed.

Lemma splitlines_upto_line line :
  ∀ fuel rest acc,
    one_line line = true →
    (String.length line < fuel)%nat →
    splitlines_upto fuel (line +:+ nl +:+ rest) acc
    = (acc +:+ line) :: splitlines_upto (fuel - S (String.length line)) rest "".
Proof.
  induction line as [|c line IH]; intros fuel rest acc Hline Hfuel.
  - destruct fuel as [|fuel]; [simpl in Hfuel; lia|].
    rewrite append_nil_l. simpl. rewrite Nat.sub_0_r.
    f_equal. clear. induction acc as [|a acc IH]; [done|].
    rewrite append_cons. by rewrite <- IH.
  - destruct fuel as [|fuel]; [simpl in Hfuel; lia|].
    rewrite append_cons. cbn [splitlines_upto].
    rewrite <- append_cons.
    rewrite (one_line_no_break c line (nl +:+ rest)) by done.
    rewrite IH; [|by eapply one_line_tail|simpl in Hfuel; lia].
    simpl. f_equal. by rewrite app_assoc_s.
Qed.

Lemma length_unlines lines :
  String.length (unlines lines)
  = sum_list ((λ line, S (String.length line)) <$> lines).
Proof.
  induction lines as [|line lines IH]; [done|].
  cbn [unlines]. rewrite !length_append, IH, fmap_cons.
  change (String.length nl) with 1%nat. cbn [sum_list sum_list_with]. unfold id. lia.
Qed.

Lemma splitlines_upto_unlines lines :
  ∀ fuel,
    Forall (λ line, one_line line = true) lines →
    (String.length (unlines lines) < fuel)%nat →
    splitlines_upto fuel (unlines lines) "" = lines.
Proof.
  induction lines as [|line lines IH]; intros fuel Hlines Hfuel.
  - destruct fuel; [simpl in Hfuel; lia|done].
  - apply Forall_cons in Hlines as [Hline Hlines].
    cbn [unlines] in *. rewrite !length_append in Hfuel. simpl in Hfuel.
    rewrite splitlines_upto_line by (done || lia).
    rewrite append_nil_l. f_equal. apply IH; [done|lia].
Qed.

(** A text made of lines splits back into them. *)
Lemma splitlines_unlines lines :
  Forall (λ line, one_line line = true) lines →
  splitlines (unlines lines) = lines.
Proof. intros Hlines. apply splitlines_upto_unlines; [done|lia]. Qed.

Lemma one_line_app a b :
  one_line a = true → one_line b = true → starts_ascii b = true →
  one_line (a +:+ b) = true.
Proof.
  intros Ha Hb Hascii. induction a as [|c a IH]; [done|].
  rewrite append_cons. cbn [one_line]. rewrite <- append_cons.
  rewrite (one_line_no_break c a b) by done.
  rewrite IH by (by eapply one_line_tail). done.
Qed.

Lemma starts_ascii_app a b :
  starts_ascii a = true → starts_ascii b = true → starts_ascii (a +:+ b) = true.
Proof. by destruct a. Qed.

(** *** Digits *)

Lemma digits_string_of_uint d : digits (NilEmpty.string_of_uint d) = true.
Proof. induction d; simpl; done. Qed.

Lemma digits_str_of_nat n : digits (str_of_nat n) = true.
Proof. apply digits_string_of_uint. Qed.

Lemma digit_range c :
  (48 <=? nat_of_ascii c)%nat && (nat_of_ascii c <=? 57)%nat = true →
  (48 ≤ nat_of_ascii c ≤ 57)%nat.
Proof. intros [?%Nat.leb_le ?%Nat.leb_le]%andb_prop. lia. Qed.

Lemma one_line_char c s :
  (31 ≤ nat_of_ascii c < 128)%nat → one_line s = true → one_line (String c s) = true.
Proof.
  intros Hc Hs. cbn [one_line]. rewrite Hs, andb_true_r.
  apply negb_true_iff, bool_decide_eq_false. intros [x Hx].
  unfold skip_line_break in Hx.
  destruct (Nat.eqb_spec (nat_of_ascii c) 13); [lia|].
  replace ((10 <=? nat_of_ascii c) && (nat_of_ascii c <=? 12)
           || (28 <=? nat_of_ascii c) && (nat_of_ascii c <=? 30))%nat with false in Hx.
  2:{ symmetry. apply orb_false_iff. split; apply andb_false_iff.
      - right. apply Nat.leb_gt. lia.
      - right. apply Nat.leb_gt. lia. }
  destruct s as [|c2 s]; [done|].
  destruct (Nat.eqb_spec (nat_of_ascii c) 194); [lia|]. simpl in Hx.
  destruct s as [|c3 s]; [done|].
  destruct (Nat.eqb_spec (nat_of_ascii c) 226); [lia|]. done.
Qed.

Lemma one_line_digits s : digits s = true → one_line s = true.
Proof.
  induction s as [|c s IH]; [done|]. cbn [digits].
  intros [Hc Hs]%andb_prop. apply digit_range in Hc.
  apply one_line_char; [lia|by apply IH].
Qed.

Lemma starts_ascii_digits s : digits s = true → starts_ascii s = true.
Proof.
  destruct s as [|c s]; [done|]. cbn [digits].
  intros [Hc Hs]%andb_prop. apply digit_range in Hc.
  simpl. apply Nat.ltb_lt. lia.
Qed.

Lemma one_line_repeat_char n : one_line (repeat_char "="%char n) = true.
Proof.
  induction n as [|n IH]; [done|]. simpl repeat_char.
  apply one_line_char; [|done].
  change (nat_of_ascii "="%char) with 61%nat. lia.
Qed.

Lemma one_line_status_mark status :
  one_line (status_mark status) = true ∧ starts_ascii (status_mark status) = true.
Proof.
  unfold status_mark, get_status_marks. simpl.
  repeat (match goal with
          | |- context [if ?b then _ else _] => destruct b
          end; [done|]).
  done.
Qed.

Lemma one_line_cons_plain c s :
  plain_char c = true → one_line s = true → one_line (String c s) = true.
Proof.
  intros Hc Hs. cbn [one_line]. rewrite Hs, andb_true_r.
  apply negb_true_iff, bool_decide_eq_false. intros [x Hx].
  unfold plain_char in Hc. apply negb_true_iff in Hc.
  repeat (apply orb_false_iff in Hc as [Hc ?]).
  unfold skip_line_break in Hx. rewrite Hc in Hx.
  replace ((10 <=? nat_of_ascii c) && (nat_of_ascii c <=? 12)
           || (28 <=? nat_of_ascii c) && (nat_of_ascii c <=? 30))%nat with false in Hx
    by (symmetry; by apply orb_false_iff).
  destruct s as [|c2 s]; [done|].
  replace (nat_of_ascii c =? 194)%nat with false in Hx by done. simpl in Hx.
  destruct s as [|c3 s]; [done|].
  replace (nat_of_ascii c =? 226)%nat with false in Hx by done. done.
Qed.

(** The byte 226 starts no line boundary when the byte after it is not
    128. *)
Lemma one_line_cons_e2 c2 s :
  (nat_of_ascii c2 =? 128)%nat = false → one_line (String c2 s) = true →
  one_line (String (ascii_of_nat 226) (String c2 s)) = true.
Proof.
  intros Hc Hs. cbn [one_line] in *. rewrite Hs, andb_true_r.
  apply negb_true_iff, bool_decide_eq_false. intros [x Hx].
  unfold skip_line_break in Hx.
  change (nat_of_ascii (ascii_of_nat 226)) with 226%nat in Hx. simpl in Hx.
  destruct s as [|c3 s]; [done|]. by rewrite Hc in Hx.
Qed.

Ltac one_line_prefix :=
  rewrite ?append_cons, ?append_nil_l;
  repeat first
    [ apply one_line_cons_plain; [reflexivity|]
    | apply one_line_cons_e2; [reflexivity|] ].

Lemma status_mark_cases status :
  status_mark status = "[✓]" ∨ status_mark status = "[→]"
  ∨ status_mark status = "[!]" ∨ status_mark status = "[ ]".
Proof.
  unfold status_mark, get_status_marks. cbn [lookup_mark].
  destruct (String.eqb COMPLETED status); [by left|].
  destruct (String.eqb IN_PROGRESS status); [right; by left|].
  destruct (String.eqb BLOCKED status); [right; right; by left|].
  destruct (String.eqb NOT_STARTED status); by do 3 right.
Qed.

Lemma one_line_step_line i status step :
  one_line step = true → one_line (step_line i status step) = true.
Proof.
  intros Hstep. unfold step_line.
  apply one_line_app; [apply one_line_digits, digits_str_of_nat| |reflexivity].
  one_line_prefix.
  destruct (status_mark_cases status) as [->|[->|[->| ->]]]; by one_line_prefix.
Qed.

(** *** The text of the steps *)

Lemma unlines_app a b : unlines (a ++ b) = unlines a +:+ unlines b.
Proof.
  induction a as [|line a IH]; [done|].
  simpl. rewrite IH. by rewrite !app_assoc_s.
Qed.

Lemma render_steps_lines steps :
  ∀ i statuses notes,
    (length steps ≤ length notes)%nat → Forall (λ n, n = "") notes →
    render_steps i steps statuses notes = unlines (step_lines i steps statuses).
Proof.
  induction steps as [|step steps IH]; intros i statuses notes Hlen Hnotes; [done|].
  destruct statuses as [|status statuses]; [done|].
  destruct notes as [|n notes]; [simpl in Hlen; lia|].
  apply Forall_cons in Hnotes as [-> Hnotes].
  cbn [render_steps step_lines unlines]. cbn [truthy].
  rewrite append_nil_l, IH by (simpl in Hlen; done || lia).
  unfold step_line. by rewrite !app_assoc_s.
Qed.

(** *** The lines before the steps *)

Lemma skip_space_solid c r : solid c = true → skip_space (String c r) = None.
Proof.
  intros Hc. destruct r as [|c2 [|c3 r]];
    destruct c as [[] [] [] [] [] [] [] []]; done.
Qed.

Lemma lstrip_solid c r : solid c = true → lstrip (String c r) = String c r.
Proof.
  intros Hc. unfold lstrip. cbn [String.length lstrip_upto].
  by rewrite skip_space_solid.
Qed.

Lemma rstrip_solid c r : solid c = true → rstrip (String c r) = String c (rstrip r).
Proof.
  intros Hc. cbn [rstrip]. unfold all_space. by rewrite lstrip_solid.
Qed.

Lemma strip_solid c r : solid c = true → strip (String c r) = String c (rstrip r).
Proof. intros Hc. unfold strip. by rewrite lstrip_solid, rstrip_solid. Qed.

Lemma pad_to_all_empty n notes :
  Forall (λ x, x = "") notes → Forall (λ x, x = "") (pad_to n "" notes).
Proof.
  intros H. unfold pad_to. apply Forall_app. split; [done|].
  apply Forall_forall. by intros x [-> _]%elem_of_replicate.
Qed.

(** The rendered plan is a list of lines: seven lines that end with the
    line [Steps:], the only one of them that reads so, then one line per
    step. *)
Lemma render_plan_lines {World JSON : Type} (env : Env World JSON) plan_id p :
  readable env plan_id p →
  ∃ header,
    render_plan env plan_id p
    = unlines (header
               ++ step_lines 0 (get_steps p)
                    (pad_to (length (get_steps p)) NOT_STARTED (get_step_statuses p)))
    ∧ Forall (λ line, one_line line = true) header
    ∧ ∀ rest, after_steps_line (header ++ rest) = Some rest.
Proof.
  intros (Htitle & Hid & Hprogress & _ & _ & Hnotes).
  set (steps := get_steps p).
  set (statuses := pad_to (length steps) NOT_STARTED (get_step_statuses p)).
  set (completed := count_status COMPLETED statuses).
  set (progress := if (0 <? length steps)%nat
                   then format_progress env completed (length steps) else "0.0").
  set (first_line := "Plan: " +:+ default "Untitled Plan" (title p)
                     +:+ " (ID: " +:+ plan_id +:+ ")").
  exists [first_line;
          repeat_char "="%char (char_length (first_line +:+ nl));
          "";
          "Progress: " +:+ str_of_nat completed +:+ "/" +:+ str_of_nat (length steps)
          +:+ " steps completed (" +:+ progress +:+ "%)";
          "Status: " +:+ str_of_nat completed +:+ " completed, "
          +:+ str_of_nat (count_status IN_PROGRESS statuses) +:+ " in progress, "
          +:+ str_of_nat (count_status BLOCKED statuses) +:+ " blocked, "
          +:+ str_of_nat (count_status NOT_STARTED statuses) +:+ " not started";
          "";
          "Steps:"].
  split; [|split].
  - unfold render_plan. cbv zeta. fold steps statuses completed progress.
    rewrite render_steps_lines;
      [|rewrite length_pad_to; lia|by apply pad_to_all_empty].
    rewrite unlines_app. cbn [unlines]. subst first_line.
    rewrite !app_assoc_s. reflexivity.
  - assert (one_line progress = true) as Hp.
    { subst progress. destruct (0 <? length steps)%nat; [apply Hprogress|done]. }
    repeat apply Forall_cons_2; try done.
    + subst first_line. one_line_prefix.
      apply one_line_app; [done| |reflexivity]. one_line_prefix.
      apply one_line_app; [done|done|reflexivity].
    + apply one_line_repeat_char.
    + one_line_prefix.
      apply one_line_app; [apply one_line_digits, digits_str_of_nat| |reflexivity].
      one_line_prefix.
      apply one_line_app; [apply one_line_digits, digits_str_of_nat| |reflexivity].
      one_line_prefix.
      apply one_line_app; [done|done|reflexivity].
    + one_line_prefix.
      apply one_line_app; [apply one_line_digits, digits_str_of_nat| |reflexivity].
      one_line_prefix.
      apply one_line_app; [apply one_line_digits, digits_str_of_nat| |reflexivity].
      one_line_prefix.
      apply one_line_app; [apply one_line_digits, digits_str_of_nat| |reflexivity].
      one_line_prefix.
      apply one_line_app; [apply one_line_digits, digits_str_of_nat|done|reflexivity].
  - intros rest. subst first_line.
    rewrite append_cons. cbn [char_length is_continuation].
    change (is_continuation "P"%char) with false. cbv iota. cbn [repeat_char].
    rewrite !append_cons, !append_nil_l.
    cbn [app after_steps_line].
    rewrite !strip_solid by reflexivity.
    rewrite !rstrip_solid by reflexivity.
    reflexivity.
Qed.

(** *** The marks of the open steps *)

Lemma contains_digits needle s rest :
  digits s = true →
  contains (String "["%char needle) (s +:+ rest)
  = contains (String "["%char needle) rest.
Proof.
  induction s as [|c s IH]; [done|]. cbn [digits].
  intros [Hc Hs]%andb_prop. apply digit_range in Hc.
  rewrite append_cons. cbn [contains starts_with].
  destruct (Ascii.eqb_spec "["%char c) as [<-|_];
    [change (nat_of_ascii "["%char) with 91%nat in Hc; lia|].
  by rewrite IH.
Qed.

(** A step line shows the mark of an open step exactly when the status of
    the step is active. *)
Lemma open_mark_step_line i status step :
  status ∈ get_all_statuses → clean_step step = true →
  contains "[ ]" (step_line i status step) || contains "[→]" (step_line i status step)
  = is_active status.
Proof.
  intros Hknown Hclean. unfold clean_step in Hclean.
  apply andb_prop in Hclean as [Hclean Harrow].
  apply andb_prop in Hclean as [_ Hblank].
  apply negb_true_iff in Harrow, Hblank.
  unfold step_line.
  rewrite (contains_digits " ]" (str_of_nat i)) by apply digits_str_of_nat.
  rewrite (contains_digits "→]" (str_of_nat i)) by apply digits_str_of_nat.
  unfold get_all_statuses in Hknown.
  repeat (apply elem_of_cons in Hknown as [->|Hknown]);
    [| | | |by apply elem_of_nil in Hknown].
  all: match goal with
       | |- context [status_mark ?st] =>
           let m := eval vm_compute in (status_mark st) in
           change (status_mark st) with m
       end.
  all: rewrite !append_cons, !append_nil_l.
  all: cbn [contains starts_with].
  all: simpl Ascii.eqb; cbn [orb andb].
  all: rewrite ?Hblank, ?Harrow; try reflexivity.
Qed.

(** *** The scan of the text and the scan of the plan *)

Lemma first_open_line_scan steps :
  ∀ j statuses stored,
    (∀ k, (k < length steps)%nat → statuses !! k = Some (status_at stored (j + k))) →
    (∀ k, status_at stored k ∈ get_all_statuses) →
    Forall (λ step, clean_step step = true) steps →
    first_open_line (step_lines j steps statuses) j
    = fst <$> scan_steps steps stored j.
Proof.
  induction steps as [|step steps IH]; intros j statuses stored Hat Hknown Hclean; [done|].
  apply Forall_cons in Hclean as [Hstep Hclean].
  destruct statuses as [|status statuses].
  { specialize (Hat 0%nat). simpl in Hat. discriminate Hat. lia. }
  assert (status = status_at stored j) as ->.
  { specialize (Hat 0%nat). simpl in Hat. rewrite Nat.add_0_r in Hat.
    injection Hat; [done|lia]. }
  cbn [step_lines first_open_line scan_steps].
  rewrite open_mark_step_line by done.
  destruct (is_active (status_at stored j)); [done|].
  apply IH; [|done|done].
  intros k Hk. specialize (Hat (S k)). simpl in Hat.
  rewrite Hat by lia. f_equal. f_equal. lia.
Qed.

Lemma lookup_pad_to n stored k :
  (k < n)%nat → pad_to n NOT_STARTED stored !! k = Some (status_at stored k).
Proof.
  intros Hk. unfold pad_to, status_at.
  destruct (decide (k < length stored)%nat) as [Hin|Hout].
  - rewrite lookup_app_l by done.
    destruct (lookup_lt_is_Some_2 stored k Hin) as [x Hx]. by rewrite Hx.
  - rewrite lookup_app_r by lia. rewrite (lookup_ge_None_2 stored k) by lia.
    apply lookup_replicate. split; [done|lia].
Qed.

(** On a plan that the text scan can read, the scan of the rendered text
    that [PlanningAgent] does and the scan of the stored plan that
    [PlanningFlow] does find the same current step. *)
Theorem text_scan_agrees_with_select_next {World JSON : Type}
    (env : Env World JSON) plan_id p :
  readable env plan_id p →
  scan_plan_text (render_plan env plan_id p) = fst <$> first_active p.
Proof.
  intros Hreadable.
  destruct (render_plan_lines env plan_id p Hreadable) as (header & -> & Hheader & Hsteps).
  destruct Hreadable as (_ & _ & _ & Hclean & Hknown & _).
  unfold scan_plan_text, first_active.
  rewrite splitlines_unlines.
  - rewrite Hsteps. simpl.
    apply first_open_line_scan; [| |done].
    + intros k Hk. by apply lookup_pad_to.
    + intros k. unfold status_at.
      destruct (get_step_statuses p !! k) as [status|] eqn:Hk.
      * by eapply Forall_lookup_1 in Hknown.
      * unfold get_all_statuses. apply elem_of_cons. by left.
  - apply Forall_app. split; [done|].
    clear Hsteps Hheader Hknown.
    generalize (pad_to (length (get_steps p)) NOT_STARTED (get_step_statuses p)).
    generalize 0%nat.
    induction Hclean as [|step steps Hstep _ IH]; intros j statuses; [done|].
    destruct statuses as [|status statuses]; [done|].
    cbn [step_lines]. apply Forall_cons_2; [|apply IH].
    apply one_line_step_line. unfold clean_step in Hstep.
    by apply andb_prop in Hstep as [[? _]%andb_prop _].
Qed.

Lemma text_scan_agrees_with_select_next_witness :
  scan_plan_text
    (render_plan (Demo.flow_env true (Return "done") IDLE) "plan_1" Demo.in_progress_plan)
  = fst <$> first_active Demo.in_progress_plan.
Proof.
  apply (text_scan_agrees_with_select_next
           (Demo.flow_env true (Return "done") IDLE) "plan_1" Demo.in_progress_plan).
  repeat split; try reflexivity.
  - repeat constructor.
  - exact (bool_decide_unpack
             (Forall (λ status, status ∈ get_all_statuses)
                (get_step_statuses Demo.in_progress_plan)) I).
  - repeat constructor.
Defined.

(** Notes put a line of their own under their step, and the scan of the
    text counts lines: on a plan whose completed first step has notes, the
    orchestrator selects step 1 while the text scan answers 2. *)
Example notes_shift_the_text_scan :
  let env := Demo.flow_env true (Return "done") IDLE in
  fst <$> first_active PlannerDemo.noted_plan = Some 1%nat
  ∧ scan_plan_text (render_plan env "plan_1" PlannerDemo.noted_plan) = Some 2%nat.
Proof. vm_compute. done. Qed.

End PlanTextFacts.

(** * Facts about the web search tool *)

Module WebSearchFacts.
Import WebSearch WebSearchSpec.

(** The engines are tried in an order that names each of the four exactly
    once: the configured engine first, lowered, when that is one of the four,
    and the others in their standing order; an engine that is not configured,
    or whose lowered name is none of the four, leaves the standing order,
    with [google] first. *)
Theorem engine_order_is_a_permutation (str_lower : string → string) engine :
  let preferred :=
    if truthy_opt engine then str_lower (default "" engine) else "google" in
  _get_engine_order str_lower engine ≡ₚ engine_names
  ∧ NoDup (_get_engine_order str_lower engine)
  ∧ (preferred ∈ engine_names →
     _get_engine_order str_lower engine
     = preferred :: filter (λ key, key ≠ preferred) engine_names)
  ∧ (preferred ∉ engine_names → _get_engine_order str_lower engine = engine_names).
Proof.
  cbv zeta. unfold _get_engine_order. cbv zeta.
  set (preferred := if truthy_opt engine then str_lower (default "" engine)
                    else "google").
  destruct (decide (preferred ∈ engine_names)) as [Hin|Hout].
  - rewrite bool_decide_eq_true_2 by done.
    clearbody preferred. unfold engine_names in Hin.
    repeat (apply elem_of_cons in Hin as [->|Hin]);
      [| | | |by apply elem_of_nil in Hin].
    all: assert (NoDup engine_names) as Hnames
           by (apply (bool_decide_unpack _); by vm_compute).
    all: match goal with
         | |- ?order ≡ₚ _ ∧ _ =>
             let computed := eval vm_compute in order in
             change order with computed
         end.
    all: assert (∀ l : list string, NoDup l → (∀ x, x ∈ l ↔ x ∈ engine_names) →
                   l ≡ₚ engine_names) as Hperm
           by (intros l Hl Hsame; by apply NoDup_Permutation).
    all: split; [apply Hperm;
                   [apply (bool_decide_unpack _); by vm_compute
                   |intros x; unfold engine_names;
                    rewrite !elem_of_cons, !elem_of_nil; tauto]|].
    all: split; [apply (bool_decide_unpack _); by vm_compute|].
    all: split; [by intros _|intros Hnot; exfalso; apply Hnot].
    all: apply (bool_decide_unpack _); by vm_compute.
  - rewrite bool_decide_eq_false_2 by done.
    split; [done|]. split; [apply (bool_decide_unpack _); by vm_compute|].
    split; [by intros ?|by intros _].
Qed.

Section Search.
Context {World : Type}.
Context (perform_search : string → string → Z → World → Result (list string) * World).
Context (query : string) (num_results : Z).

Lemma attempts_run engine_name n w answer w' :
  Attempts perform_search query num_results engine_name n w answer w' →
  search_with_retry perform_search n engine_name query num_results w
  = (retried answer, w').
Proof.
  induction 1 as [w|n w links w' Hrun|n w e w1 answer w' Hrun _ IH].
  - done.
  - cbn [search_with_retry]. unfold try_except. by rewrite Hrun.
  - cbn [search_with_retry]. unfold try_except. by rewrite Hrun.
Qed.

Lemma attempts_total engine_name n w :
  ∃ answer w', Attempts perform_search query num_results engine_name n w answer w'.
Proof.
  revert w. induction n as [|n IH]; intros w.
  { exists None, w. constructor. }
  destruct (perform_search engine_name query num_results w) as [[links|e] w1] eqn:Hrun.
  - exists (Some links), w1. by constructor.
  - destruct (IH w1) as (answer & w' & Hrest).
    exists answer, w'. by econstructor.
Qed.

Lemma fallback_run engine_order w links w' :
  Fallback perform_search query num_results engine_order w links w' →
  search_engines perform_search engine_order query num_results w = (Return links, w').
Proof.
  induction 1 as [w|engine_name rest w link links w' Hfound
                 |engine_name rest w answer w1 links w' Htried Hnothing _ IH].
  - done.
  - cbn [search_engines].
    unfold mbind, M_bind, bind, try_except, mret, M_ret, ret.
    unfold _perform_search_with_engine. by rewrite (attempts_run _ _ _ _ _ Hfound).
  - cbn [search_engines].
    unfold mbind, M_bind, bind, try_except, mret, M_ret, ret.
    unfold _perform_search_with_engine. rewrite (attempts_run _ _ _ _ _ Htried).
    by destruct Hnothing as [-> | ->].
Qed.

Lemma fallback_total engine_order w :
  ∃ links w', Fallback perform_search query num_results engine_order w links w'.
Proof.
  revert w. induction engine_order as [|engine_name rest IH]; intros w.
  { exists [], w. constructor. }
  destruct (attempts_total engine_name 3 w) as (answer & w1 & Htried).
  destruct answer as [[|link links]|].
  - destruct (IH w1) as (links & w' & Hrest).
    exists links, w'. eapply fallback_next; [exact Htried|by right|done].
  - exists (link :: links), w1. by constructor.
  - destruct (IH w1) as (links & w' & Hrest).
    exists links, w'. eapply fallback_next; [exact Htried|by left|done].
Qed.

End Search.

(** [execute] never raises, and its answer is that of the search over the
    engines in the order above: each engine has up to three attempts, a
    failed one being tried again; the first engine that answers links ends
    the search, and no other engine is asked; an engine that answers no link,
    or that fails three times, passes the turn to the next; and the answer is
    the empty list when no engine is left. *)
Theorem web_search_falls_back {World : Type} (str_lower : string → string)
    (perform_search : string → string → Z → World → Result (list string) * World)
    engine query num_results w :
  (∃ links w',
     execute str_lower perform_search engine query num_results w = (Return links, w'))
  ∧ ∀ links w',
      execute str_lower perform_search engine query num_results w = (Return links, w')
      ↔ Fallback perform_search query num_results
          (_get_engine_order str_lower engine) w links w'.
Proof.
  unfold execute.
  destruct (fallback_total perform_search query num_results
              (_get_engine_order str_lower engine) w) as (links0 & w0 & Hsearch).
  pose proof (fallback_run _ _ _ _ _ _ _ Hsearch) as Hrun.
  split; [by exists links0, w0|].
  intros links w'. split.
  - rewrite Hrun. by intros [= <- <-].
  - apply fallback_run.
Qed.

End WebSearchFacts.
